(** * bmo-server: linkage state machine, content aggregate store and
      progress ledger

    A shallow embedding of the route handlers of the speech-therapy
    coordination backend (Express + Mongoose), and the properties its
    specification states about them.

    Modelling conventions.
    - A Mongo collection that is only addressed by [_id] is a finite map
      from identifiers to documents, listed in the order of the identifiers;
      a collection searched by another field ([Progress], [Exercise]) is the
      list of its documents in insertion order, [findOne] returning the
      first match.
    - An [ObjectId] is a [positive]; identifiers generated for new documents
      come from the environment of the request ([fresh]).
    - A JavaScript string is the list of its UTF-16 code units, so that
      [.length] is [length] and [===] is equality.
    - The numbers of a session and of the statistics are IEEE doubles
      ([float]), with the arithmetic and the comparisons of the machine;
      a date is the integer of its milliseconds.
    - A property of a request body is absent, null or given ([Field]) where
      the difference matters to the schema.
    - Every handler is a function from the store to a reply and a store.  A
      handler that would throw inside its [try] block replies 500 from its
      [catch].  Database calls succeed unless a handler is given an explicit
      fault (see the progress ledger). *)

From Stdlib Require Import ZArith NArith List Bool Lia Ascii String Sorted.
From Stdlib Require Import Floats.PrimFloat.
From stdpp Require Import base option list gmap fin_maps.

Local Open Scope Z_scope.

(** ** Identifiers and strings *)

Definition ObjectId := positive.

Definition jsstring := list N.

Definition of_ascii (s : string) : jsstring :=
  List.map N_of_ascii (list_ascii_of_string s).

(** ECMAScript [WhiteSpace] and [LineTerminator] code units: what
    [String.prototype.trim] and [parseInt] strip. *)
Definition is_js_whitespace (c : N) : bool :=
  ((9 <=? c) && (c <=? 13) || (c =? 32) || (c =? 160) || (c =? 5760)
   || (8192 <=? c) && (c <=? 8202) || (c =? 8232) || (c =? 8233)
   || (c =? 8239) || (c =? 8287) || (c =? 12288) || (c =? 65279))%N.

Fixpoint trimStart (s : jsstring) : jsstring :=
  match s with
  | c :: s' => if is_js_whitespace c then trimStart s' else s
  | [] => []
  end.

Definition trimEnd (s : jsstring) : jsstring := rev (trimStart (rev s)).

Definition trim (s : jsstring) : jsstring := trimEnd (trimStart s).

(** ** Documents *)

Inductive Role := RParent | RSpecialist | RAdmin | RSuperadmin.

Inductive RequestStatus := SNone | SPending | SApproved | SRejected.

Inductive LinkStatus := LPending | LAccepted | LRejected.

#[global] Instance Role_eq_dec : EqDecision Role.
Proof. solve_decision. Defined.
#[global] Instance RequestStatus_eq_dec : EqDecision RequestStatus.
Proof. solve_decision. Defined.
#[global] Instance LinkStatus_eq_dec : EqDecision LinkStatus.
Proof. solve_decision. Defined.

Record User := mkUser {
  u_name : jsstring;
  u_role : Role;
  assignedChildren : list ObjectId;
  linkedSpecialist : option ObjectId;
  linkedParents : list ObjectId
}.

Record Child := mkChild {
  c_name : jsstring;
  c_parent : ObjectId;
  assignedSpecialist : option ObjectId;
  specialistRequestStatus : RequestStatus
}.

Record LinkRequest := mkLinkRequest {
  lr_from : ObjectId;
  lr_to : ObjectId;
  lr_status : LinkStatus;
  lr_child : option ObjectId;
  lr_message : jsstring
}.

(** The text of a notification is a template filled with names; the model
    keeps the template and its arguments. *)
Inductive NotificationText :=
  | TxtLinkAccepted (specialistName : jsstring)
  | TxtUnlinked (parentName : jsstring) (childNames : option jsstring)
  | TxtSessionDone (childName : jsstring).

Inductive NotificationType := NInfo | NWarning | NSuccess | NError | NChildAssigned.

Inductive NotificationData :=
  | DSpecialist (specialistId : ObjectId)
  | DUnlink (parentId : ObjectId) (childIds : list ObjectId)
  | DProgress (childId progressId : ObjectId).

Record Notification := mkNotification {
  n_recipient : ObjectId;
  n_type : NotificationType;
  n_text : NotificationText;
  n_data : NotificationData
}.

Inductive Difficulty := DEasy | DMedium | DHard.
Inductive ContentType := CWord | CLetter.
Inductive ExerciseKind := KPlan | KContent.

#[global] Instance Difficulty_eq_dec : EqDecision Difficulty.
Proof. solve_decision. Defined.
#[global] Instance ContentType_eq_dec : EqDecision ContentType.
Proof. solve_decision. Defined.
#[global] Instance ExerciseKind_eq_dec : EqDecision ExerciseKind.
Proof. solve_decision. Defined.

(** ** Replies *)

Inductive Msg :=
  | MNotAuthenticated
  | MRoleNotAuthorized
  | MNotAuthorized
  | MChildNotFound
  | MNoPendingRequest
  | MChildAccepted
  | MChildRejected
  | MRequestSubmitted
  | MParentIdRequired
  | MParentNotFound
  | MParentAlreadyLinked
  | MParentLinked
  | MParentUnlinked
  | MSpecialistIdRequired
  | MChildIdRequired
  | MSpecialistNotFound
  | MChildAlreadyAssigned
  | MPendingRequestExists
  | MLinkRequestSent
  | MRequestNotFound
  | MRequestNotPending
  | MLinkRequestAccepted
  | MLinkRequestRejected
  | MParentLinkedElsewhere
  | MNotLinked
  | MUnlinked (unlinkedChildren : nat)
  | MContentFieldsRequired
  | MBadContentType
  | MNotAuthorizedToAdd
  | MBadDifficulty
  | MLetterWithVowelTooLong
  | MLetterNotSingle
  | MWordTooLong
  | MAlreadyExists (t : ContentType)
  | MAdded (t : ContentType)
  | MContentNotFound
  | MNotAuthorizedToDelete
  | MContentDeleted
  | MTextAndChildRequired
  | MInvalidContentType
  | MWordCreated
  | MWordNotFound
  | MWordDeleted
  | MProgress
  | MProgressSynced
  | MAttempts
  | MServerError.

Record Reply := mkReply { code : Z; msg : Msg }.

#[global] Instance Msg_eq_dec : EqDecision Msg.
Proof. solve_decision. Defined.
#[global] Instance Reply_eq_dec : EqDecision Reply.
Proof. solve_decision. Defined.

(** ** Progress and content documents *)

Record Attempt := mkAttempt {
  a_letter : option jsstring;
  a_word : option jsstring;
  a_vowel : option jsstring;
  a_recognizedText : option jsstring;
  a_referenceText : option jsstring;
  a_pronunciationScore : option float;
  a_accuracyScore : option float;
  a_fluencyScore : option float;
  a_completenessScore : option float;
  a_analysisSource : option jsstring;
  a_success : option bool;
  a_score : option float;
  a_timestamp : option Z
}.

(** A session as stored.  A field may be absent or null in a stored
    document ([None]), which is why the code reads each number as
    [s.field || 0].  The [robotFeedback] of a session and the identifiers
    of the subdocuments play no part in the routes below. *)
Record Session := mkSession {
  sessionDate : option Z;
  duration : option float;
  totalAttempts : option float;
  successfulAttempts : option float;
  failedAttempts : option float;
  averageScore : option float;
  attempts : list Attempt
}.

Record OverallStats := mkStats {
  st_totalSessions : float;
  st_totalPlayTime : float;
  st_totalAttempts : float;
  st_successRate : float;
  st_averageScore : float
}.

Record Progress := mkProgress {
  pr_id : ObjectId;
  pr_child : ObjectId;
  sessions : list Session;
  overallStats : OverallStats;
  lastSyncDate : Z
}.

Record ContentItem := mkItem {
  ci_id : ObjectId;
  ci_text : jsstring;
  ci_difficulty : Difficulty;
  ci_image : jsstring;
  ci_createdBy : option ObjectId;
  ci_createdAt : Z
}.

(** The fields of an [Exercise] document the content routes read or write;
    the fields of a therapy plan ([letters], [words], [targetDuration], the
    dates) play no part in them. *)
Record Exercise := mkExercise {
  e_id : ObjectId;
  e_child : ObjectId;
  e_kind : ExerciseKind;
  contentWords : list ContentItem;
  contentLetters : list ContentItem;
  e_active : bool
}.

Record Broadcast := mkBroadcast { b_childId : ObjectId; b_timestamp : Z }.

(** ** The store *)

Record Db := mkDb {
  users : gmap ObjectId User;
  children : gmap ObjectId Child;
  linkRequests : gmap ObjectId LinkRequest;
  notifications : list Notification;
  exercises : list Exercise;
  progresses : list Progress;
  broadcasts : list Broadcast
}.

Definition with_users (f : gmap ObjectId User → gmap ObjectId User) (db : Db) : Db :=
  mkDb (f (users db)) (children db) (linkRequests db) (notifications db)
       (exercises db) (progresses db) (broadcasts db).

Definition with_children (f : gmap ObjectId Child → gmap ObjectId Child) (db : Db) : Db :=
  mkDb (users db) (f (children db)) (linkRequests db) (notifications db)
       (exercises db) (progresses db) (broadcasts db).

Definition with_linkRequests
    (f : gmap ObjectId LinkRequest → gmap ObjectId LinkRequest) (db : Db) : Db :=
  mkDb (users db) (children db) (f (linkRequests db)) (notifications db)
       (exercises db) (progresses db) (broadcasts db).

Definition with_notifications (f : list Notification → list Notification) (db : Db) : Db :=
  mkDb (users db) (children db) (linkRequests db) (f (notifications db))
       (exercises db) (progresses db) (broadcasts db).

Definition with_exercises (f : list Exercise → list Exercise) (db : Db) : Db :=
  mkDb (users db) (children db) (linkRequests db) (notifications db)
       (f (exercises db)) (progresses db) (broadcasts db).

Definition with_progresses (f : list Progress → list Progress) (db : Db) : Db :=
  mkDb (users db) (children db) (linkRequests db) (notifications db)
       (exercises db) (f (progresses db)) (broadcasts db).

Definition with_broadcasts (f : list Broadcast → list Broadcast) (db : Db) : Db :=
  mkDb (users db) (children db) (linkRequests db) (notifications db)
       (exercises db) (progresses db) (f (broadcasts db)).

Definition empty_db : Db := mkDb ∅ ∅ ∅ [] [] [] [].

(** What the environment of a request supplies: the identifiers the driver
    generates for new documents (assumed not to be in use) and the clock. *)
Record Env := mkEnv { fresh : nat → ObjectId; now : Z; io_attached : bool }.

(** ** Update operators of the persistence layer *)

Definition addToSet (x : ObjectId) (l : list ObjectId) : list ObjectId :=
  if bool_decide (x ∈ l) then l else l ++ [x].

Definition pull (x : ObjectId) (l : list ObjectId) : list ObjectId :=
  List.filter (λ y, negb (bool_decide (y = x))) l.

Definition pullAll (xs : list ObjectId) (l : list ObjectId) : list ObjectId :=
  List.filter (λ y, negb (bool_decide (y ∈ xs))) l.

Definition set_linkedSpecialist (s : option ObjectId) (u : User) : User :=
  mkUser (u_name u) (u_role u) (assignedChildren u) s (linkedParents u).

Definition upd_linkedParents (f : list ObjectId → list ObjectId) (u : User) : User :=
  mkUser (u_name u) (u_role u) (assignedChildren u) (linkedSpecialist u)
         (f (linkedParents u)).

Definition upd_assignedChildren (f : list ObjectId → list ObjectId) (u : User) : User :=
  mkUser (u_name u) (u_role u) (f (assignedChildren u)) (linkedSpecialist u)
         (linkedParents u).

Definition set_assignment (s : option ObjectId) (st : RequestStatus) (c : Child) : Child :=
  mkChild (c_name c) (c_parent c) s st.

Definition set_requestStatus (st : RequestStatus) (c : Child) : Child :=
  mkChild (c_name c) (c_parent c) (assignedSpecialist c) st.

Definition set_lr_status (st : LinkStatus) (r : LinkRequest) : LinkRequest :=
  mkLinkRequest (lr_from r) (lr_to r) st (lr_child r) (lr_message r).

(** [Model.findByIdAndUpdate(id, update)]: no document, no effect. *)
Definition findByIdAndUpdate {A} (id : ObjectId) (f : A → A) (m : gmap ObjectId A)
  : gmap ObjectId A := alter f id m.

(** [Model.updateMany(filter, update)]. *)
Definition updateMany {A} (sel : ObjectId → A → bool) (f : A → A) (m : gmap ObjectId A)
  : gmap ObjectId A :=
  map_imap (λ k d, Some (if sel k d then f d else d)) m.

(** The documents of a collection in the order a query without [sort]
    returns them: the order in which they were stored.  Identifiers are
    issued in increasing order, so this is the order of the identifiers. *)
Fixpoint insert_by_id {A} (x : ObjectId * A) (l : list (ObjectId * A))
  : list (ObjectId * A) :=
  match l with
  | [] => [x]
  | y :: l' => if (x.1 <? y.1)%positive then x :: l else y :: insert_by_id x l'
  end.

Definition documents {A} (m : gmap ObjectId A) : list (ObjectId * A) :=
  fold_right insert_by_id [] (map_to_list m).

(** [Model.find(filter)]: the matching documents with their identifiers. *)
Definition find_docs {A} (sel : ObjectId → A → bool) (m : gmap ObjectId A)
  : list (ObjectId * A) :=
  List.filter (λ kd, sel kd.1 kd.2) (documents m).

(** ** Authentication middleware *)

Record Principal := mkPrincipal { p_id : ObjectId; p_role : Role }.

(** [protect]: the bearer token, when valid, decodes to a user identifier
    ([None]: no token or a bad one); the user must still exist. *)
Definition protect (token : option ObjectId) (db : Db) : option Principal :=
  match token with
  | None => None
  | Some uid =>
      match users db !! uid with
      | None => None
      | Some u => Some (mkPrincipal uid (u_role u))
      end
  end.

Definition authorize (roles : list Role) (p : Principal) : bool :=
  bool_decide (p_role p ∈ roles).

Definition reply (c : Z) (m : Msg) (db : Db) : Reply * Db := (mkReply c m, db).

Definition protected (h : Principal → Db → Reply * Db)
    (token : option ObjectId) (db : Db) : Reply * Db :=
  match protect token db with
  | None => reply 401 MNotAuthenticated db
  | Some p => h p db
  end.

Definition authorized (roles : list Role) (h : Principal → Db → Reply * Db)
    (token : option ObjectId) (db : Db) : Reply * Db :=
  protected (λ p db, if authorize roles p then h p db
                     else reply 403 MRoleNotAuthorized db) token db.

(** ** Linkage routes of the specialist (/api/specialists) *)

(** POST /api/specialists/accept-child/:childId *)
Definition accept_child_handler (childId : ObjectId) (p : Principal) (db : Db)
  : Reply * Db :=
  match children db !! childId with
  | None => reply 404 MChildNotFound db
  | Some child =>
      if negb (bool_decide (specialistRequestStatus child = SPending))
      then reply 400 MNoPendingRequest db
      else
        let child := set_assignment (Some (p_id p)) SApproved child in
        let db := with_children (insert childId child) db in
        let db := with_users
          (findByIdAndUpdate (p_id p) (upd_assignedChildren (addToSet childId))) db in
        reply 200 MChildAccepted db
  end.

Definition accept_child (childId : ObjectId) :=
  authorized [RSpecialist] (accept_child_handler childId).

(** POST /api/specialists/reject-child/:childId *)
Definition reject_child_handler (childId : ObjectId) (p : Principal) (db : Db)
  : Reply * Db :=
  match children db !! childId with
  | None => reply 404 MChildNotFound db
  | Some child =>
      let child := set_requestStatus SRejected child in
      let db := with_children (insert childId child) db in
      reply 200 MChildRejected db
  end.

Definition reject_child (childId : ObjectId) :=
  authorized [RSpecialist] (reject_child_handler childId).

(** POST /api/specialists/link-parent; [parentId] is [None] when the body
    has none. *)
Definition link_parent_handler (parentId : option ObjectId) (p : Principal) (db : Db)
  : Reply * Db :=
  match parentId with
  | None => reply 400 MParentIdRequired db
  | Some parentId =>
      match users db !! parentId with
      | None => reply 404 MParentNotFound db
      | Some parent =>
          if negb (bool_decide (u_role parent = RParent))
          then reply 404 MParentNotFound db
          else
            match users db !! p_id p with
            | None => reply 500 MServerError db
            | Some specialist =>
                if bool_decide (parentId ∈ linkedParents specialist)
                then reply 400 MParentAlreadyLinked db
                else
                  let db := with_users
                    (findByIdAndUpdate (p_id p) (upd_linkedParents (addToSet parentId))) db in
                  let db := with_users
                    (findByIdAndUpdate parentId (set_linkedSpecialist (Some (p_id p)))) db in
                  reply 200 MParentLinked db
            end
      end
  end.

Definition link_parent (parentId : option ObjectId) :=
  authorized [RSpecialist] (link_parent_handler parentId).

(** DELETE /api/specialists/unlink-parent/:parentId *)
Definition unlink_parent_handler (parentId : ObjectId) (p : Principal) (db : Db)
  : Reply * Db :=
  let db := with_users
    (findByIdAndUpdate (p_id p) (upd_linkedParents (pull parentId))) db in
  let db := with_users
    (findByIdAndUpdate parentId (set_linkedSpecialist None)) db in
  reply 200 MParentUnlinked db.

Definition unlink_parent (parentId : ObjectId) :=
  authorized [RSpecialist] (unlink_parent_handler parentId).

(** The filter of the cascade: the other pending requests of the parent. *)
Definition other_pending_from (from requestId : ObjectId) (k : ObjectId) (r : LinkRequest)
  : bool :=
  bool_decide (lr_from r = from) && bool_decide (lr_status r = LPending)
  && negb (bool_decide (k = requestId)).

(** POST /api/specialists/accept-link-request/:requestId *)
Definition accept_link_request_handler (requestId : ObjectId) (p : Principal) (db : Db)
  : Reply * Db :=
  match linkRequests db !! requestId with
  | None => reply 404 MRequestNotFound db
  | Some request =>
      if negb (bool_decide (lr_to request = p_id p))
      then reply 403 MNotAuthorized db
      else if negb (bool_decide (lr_status request = LPending))
      then reply 400 MRequestNotPending db
      else
        match users db !! lr_from request with
        | None => reply 500 MServerError db
        | Some parent =>
            if match linkedSpecialist parent with
               | Some s => negb (bool_decide (s = p_id p))
               | None => false
               end
            then reply 400 MParentLinkedElsewhere db
            else
              let request := set_lr_status LAccepted request in
              let db := with_linkRequests (insert requestId request) db in
              let db := with_users
                (findByIdAndUpdate (p_id p)
                   (upd_linkedParents (addToSet (lr_from request)))) db in
              let db := with_users
                (findByIdAndUpdate (lr_from request)
                   (set_linkedSpecialist (Some (p_id p)))) db in
              (* the notification of the parent, in a try block of its own *)
              let db :=
                match users db !! p_id p with
                | None => db
                | Some specialist =>
                    with_notifications
                      (λ l, l ++ [mkNotification (lr_from request) NSuccess
                                    (TxtLinkAccepted (u_name specialist))
                                    (DSpecialist (p_id p))]) db
                end in
              let db := with_linkRequests
                (updateMany (other_pending_from (lr_from request) requestId)
                            (set_lr_status LRejected)) db in
              reply 200 MLinkRequestAccepted db
        end
  end.

Definition accept_link_request (requestId : ObjectId) :=
  authorized [RSpecialist] (accept_link_request_handler requestId).

(** POST /api/specialists/reject-link-request/:requestId *)
Definition reject_link_request_handler (requestId : ObjectId) (p : Principal) (db : Db)
  : Reply * Db :=
  match linkRequests db !! requestId with
  | None => reply 404 MRequestNotFound db
  | Some request =>
      if negb (bool_decide (lr_to request = p_id p))
      then reply 403 MNotAuthorized db
      else if negb (bool_decide (lr_status request = LPending))
      then reply 400 MRequestNotPending db
      else
        let request := set_lr_status LRejected request in
        let db := with_linkRequests (insert requestId request) db in
        reply 200 MLinkRequestRejected db
  end.

Definition reject_link_request (requestId : ObjectId) :=
  authorized [RSpecialist] (reject_link_request_handler requestId).

(** ** Linkage routes of the parent (/api/parents, /api/children) *)

(** POST /api/children/:id/request-specialist *)
Definition request_specialist_handler (childId : ObjectId) (p : Principal) (db : Db)
  : Reply * Db :=
  match children db !! childId with
  | None => reply 404 MChildNotFound db
  | Some child =>
      if negb (bool_decide (c_parent child = p_id p))
      then reply 403 MNotAuthorized db
      else
        let child := set_requestStatus SPending child in
        let db := with_children (insert childId child) db in
        reply 200 MRequestSubmitted db
  end.

Definition request_specialist (childId : ObjectId) :=
  authorized [RParent] (request_specialist_handler childId).

Record LinkRequestBody := mkLinkRequestBody {
  b_specialistId : option ObjectId;
  b_childId_opt : option ObjectId;
  b_message : option jsstring
}.

(** The pending request the creation path looks for. *)
Definition same_pending (from to child : ObjectId) (r : LinkRequest) : bool :=
  bool_decide (lr_from r = from) && bool_decide (lr_to r = to)
  && bool_decide (lr_child r = Some child) && bool_decide (lr_status r = LPending).

(** POST /api/parents/send-link-request.  The schema trims [message] and
    limits it to 500 code units; a longer one fails validation in
    [LinkRequest.create], which the [catch] turns into a 500. *)
Definition send_link_request_handler (env : Env) (body : LinkRequestBody)
    (p : Principal) (db : Db) : Reply * Db :=
  match b_specialistId body with
  | None => reply 400 MSpecialistIdRequired db
  | Some specialistId =>
    match b_childId_opt body with
    | None => reply 400 MChildIdRequired db
    | Some childId =>
      match users db !! specialistId with
      | None => reply 404 MSpecialistNotFound db
      | Some specialist =>
        if negb (bool_decide (u_role specialist = RSpecialist))
        then reply 404 MSpecialistNotFound db
        else
          match children db !! childId with
          | None => reply 404 MChildNotFound db
          | Some child =>
            if negb (bool_decide (c_parent child = p_id p))
            then reply 404 MChildNotFound db
            else if bool_decide (is_Some (assignedSpecialist child))
            then reply 400 MChildAlreadyAssigned db
            else if existsb (λ kd, same_pending (p_id p) specialistId childId kd.2)
                            (map_to_list (linkRequests db))
            then reply 400 MPendingRequestExists db
            else
              let message := trim (default [] (b_message body)) in
              if (500 <? length message)%nat then reply 500 MServerError db
              else
                let linkRequest :=
                  mkLinkRequest (p_id p) specialistId LPending (Some childId) message in
                let db := with_linkRequests (insert (fresh env 0%nat) linkRequest) db in
                let child := set_requestStatus SPending child in
                let db := with_children (insert childId child) db in
                reply 201 MLinkRequestSent db
          end
      end
    end
  end.

Definition send_link_request (env : Env) (body : LinkRequestBody) :=
  authorized [RParent] (send_link_request_handler env body).

(** [Array.prototype.join(', ')] on the names. *)
Fixpoint join_names (l : list jsstring) : jsstring :=
  match l with
  | [] => []
  | [x] => x
  | x :: l' => x ++ [44%N; 32%N] ++ join_names l'
  end.

(** The placeholder of the unlink notification for an empty list of names. *)
Definition no_names : jsstring :=
  [1576; 1583; 1608; 1606; 32; 1571; 1587; 1605; 1575; 1569]%N.

(** [childNames || placeholder]: the empty string is falsy. *)
Definition or_no_names (s : jsstring) : jsstring :=
  match s with [] => no_names | _ :: _ => s end.

(** The children of a parent that a specialist is assigned to. *)
Definition assigned_child_of (parentId specialistId : ObjectId) (k : ObjectId) (c : Child)
  : bool :=
  bool_decide (c_parent c = parentId)
  && bool_decide (assignedSpecialist c = Some specialistId).

(** Step 3 of the unlink: [if (childIds.length) { updateMany; $pullAll }]. *)
Definition detach_children (childIds : list ObjectId) (specialistId : ObjectId) (db : Db)
  : Db :=
  match childIds with
  | [] => db
  | _ :: _ =>
      let db := with_children
        (updateMany (λ k _, bool_decide (k ∈ childIds)) (set_assignment None SNone)) db in
      with_users
        (findByIdAndUpdate specialistId (upd_assignedChildren (pullAll childIds))) db
  end.

(** The text of the unlink notification names the children when there are
    any. *)
Definition unlink_text (parentName : jsstring) (childIds : list ObjectId)
    (childNames : jsstring) : NotificationText :=
  match childIds with
  | [] => TxtUnlinked parentName None
  | _ :: _ => TxtUnlinked parentName (Some (or_no_names childNames))
  end.

(** DELETE /api/parents/unlink-specialist *)
Definition unlink_specialist_handler (p : Principal) (db : Db) : Reply * Db :=
  match users db !! p_id p with
  | None => reply 500 MServerError db
  | Some parent =>
    match linkedSpecialist parent with
    | None => reply 400 MNotLinked db
    | Some specialistId =>
        let found := find_docs (assigned_child_of (p_id p) specialistId) (children db) in
        let childIds := List.map fst found in
        let childNames := join_names (List.map (λ kd, c_name kd.2) found) in
        (* 1. the parent's side *)
        let parent := set_linkedSpecialist None parent in
        let db := with_users (insert (p_id p) parent) db in
        (* 2. the specialist's side *)
        let db := with_users
          (findByIdAndUpdate specialistId (upd_linkedParents (pull (p_id p)))) db in
        (* 3. the children *)
        let db := detach_children childIds specialistId db in
        (* 4. the notification of the specialist *)
        let db := with_notifications
          (λ l, l ++ [mkNotification specialistId NWarning
                        (unlink_text (u_name parent) childIds childNames)
                        (DUnlink (p_id p) childIds)]) db in
        reply 200 (MUnlinked (length childIds)) db
    end
  end.

Definition unlink_specialist := authorized [RParent] unlink_specialist_handler.

(** A call of one of the linkage routes. *)
Inductive LinkageCall :=
  | CallAcceptChild (childId : ObjectId)
  | CallRejectChild (childId : ObjectId)
  | CallLinkParent (parentId : option ObjectId)
  | CallUnlinkParent (parentId : ObjectId)
  | CallAcceptLinkRequest (requestId : ObjectId)
  | CallRejectLinkRequest (requestId : ObjectId)
  | CallRequestSpecialist (childId : ObjectId)
  | CallSendLinkRequest (env : Env) (body : LinkRequestBody)
  | CallUnlinkSpecialist.

Definition run_linkage (c : LinkageCall) (token : option ObjectId) (db : Db) : Reply * Db :=
  match c with
  | CallAcceptChild childId => accept_child childId token db
  | CallRejectChild childId => reject_child childId token db
  | CallLinkParent parentId => link_parent parentId token db
  | CallUnlinkParent parentId => unlink_parent parentId token db
  | CallAcceptLinkRequest requestId => accept_link_request requestId token db
  | CallRejectLinkRequest requestId => reject_link_request requestId token db
  | CallRequestSpecialist childId => request_specialist childId token db
  | CallSendLinkRequest env body => send_link_request env body token db
  | CallUnlinkSpecialist => unlink_specialist token db
  end.

(** ** Content aggregate store (/api/content, /api/specialist, /api/words) *)

Definition update_first {A} (sel : A → bool) (f : A → A) : list A → list A :=
  fix go l :=
    match l with
    | [] => []
    | x :: l' => if sel x then f x :: l' else x :: go l'
    end.

Definition is_content_of (childId : ObjectId) (e : Exercise) : bool :=
  bool_decide (e_child e = childId) && bool_decide (e_kind e = KContent).

(** [getOrCreateContentDoc]: an upsert keyed on the child and the kind. *)
Definition getOrCreateContentDoc (env : Env) (childId : ObjectId) (db : Db) : Exercise * Db :=
  match List.find (is_content_of childId) (exercises db) with
  | Some doc => (doc, db)
  | None =>
      let doc := mkExercise (fresh env 0%nat) childId KContent [] [] true in
      (doc, with_exercises (λ l, l ++ [doc]) db)
  end.

Definition targetArr (t : ContentType) (doc : Exercise) : list ContentItem :=
  match t with CWord => contentWords doc | CLetter => contentLetters doc end.

Definition push_item (t : ContentType) (i : ContentItem) (doc : Exercise) : Exercise :=
  match t with
  | CWord => mkExercise (e_id doc) (e_child doc) (e_kind doc)
               (contentWords doc ++ [i]) (contentLetters doc) (e_active doc)
  | CLetter => mkExercise (e_id doc) (e_child doc) (e_kind doc)
               (contentWords doc) (contentLetters doc ++ [i]) (e_active doc)
  end.

Definition text_is (s : jsstring) (i : ContentItem) : bool := bool_decide (ci_text i = s).

Definition parse_contentType (s : jsstring) : option ContentType :=
  if bool_decide (s = of_ascii "word") then Some CWord
  else if bool_decide (s = of_ascii "letter") then Some CLetter
  else None.

Definition parse_difficulty (s : jsstring) : option Difficulty :=
  if bool_decide (s = of_ascii "easy") then Some DEasy
  else if bool_decide (s = of_ascii "medium") then Some DMedium
  else if bool_decide (s = of_ascii "hard") then Some DHard
  else None.

(** A body field that is a string: absent and empty are both falsy. *)
Definition truthy (o : option jsstring) : option jsstring :=
  match o with
  | Some (c :: s) => Some (c :: s)
  | _ => None
  end.

Definition default_image : jsstring := of_ascii "default-word.png".

Record ContentBody := mkContentBody {
  cb_text : option jsstring;
  cb_contentType : option jsstring;
  cb_difficulty : option jsstring;
  cb_childId : option ObjectId
}.

(** What the three creation routes share from [text.trim()] on: the upsert,
    the duplicate check, the new sub-document and [doc.save()].  The
    schema of a content item trims [text] again and requires it to be
    non-empty, and it restricts [difficulty] to its three values; a
    validation failure in [save] surfaces as a 500 and persists nothing of
    the item. *)
Definition append_item (env : Env) (t : ContentType) (text : jsstring)
    (difficulty : option jsstring) (image : jsstring) (childId : ObjectId)
    (p : Principal) (created : Msg) (db : Db) : Reply * Db :=
  let trimmed := trim text in
  let '(doc, db) := getOrCreateContentDoc env childId db in
  if existsb (text_is trimmed) (targetArr t doc)
  then reply 400 (MAlreadyExists t) db
  else
    match parse_difficulty (default (of_ascii "easy") (truthy difficulty)) with
    | None => reply 500 MServerError db
    | Some d =>
        let item := mkItem (fresh env 1%nat) (trim trimmed) d image
                           (Some (p_id p)) (now env) in
        match ci_text item with
        | [] => reply 500 MServerError db
        | _ :: _ =>
            let db := with_exercises
              (update_first (is_content_of childId) (push_item t item)) db in
            reply 201 created db
        end
    end.

(** The length limits of the two validating routes. *)
Definition too_long (letterMax : nat) (t : ContentType) (text : jsstring) : option Msg :=
  match t with
  | CLetter =>
      if (letterMax <? length text)%nat
      then Some (if (letterMax =? 1)%nat then MLetterNotSingle else MLetterWithVowelTooLong)
      else None
  | CWord => if (20 <? length text)%nat then Some MWordTooLong else None
  end.

(** What the checks of a creation route hand over to the shared tail. *)
Record Validated := mkValidated {
  v_type : ContentType;
  v_text : jsstring;
  v_childId : ObjectId
}.

Definition bad_difficulty (body : ContentBody) : bool :=
  match truthy (cb_difficulty body) with
  | Some d => negb (bool_decide (is_Some (parse_difficulty d)))
  | None => false
  end.

(** POST /api/content/add, up to the length validation. *)
Definition content_add_checks (body : ContentBody) : Reply + Validated :=
  match truthy (cb_text body), truthy (cb_contentType body), cb_childId body with
  | Some text, Some contentType, Some childId =>
      match parse_contentType contentType with
      | None => inl (mkReply 400 MBadContentType)
      | Some t =>
          if bad_difficulty body then inl (mkReply 400 MBadDifficulty)
          else
            match too_long 1 t text with
            | Some m => inl (mkReply 400 m)
            | None => inr (mkValidated t text childId)
            end
      end
  | _, _, _ => inl (mkReply 400 MContentFieldsRequired)
  end.

Definition content_add_handler (env : Env) (body : ContentBody) (p : Principal) (db : Db)
  : Reply * Db :=
  match content_add_checks body with
  | inl r => (r, db)
  | inr v =>
      append_item env (v_type v) (v_text v) (cb_difficulty body) default_image
                  (v_childId v) p (MAdded (v_type v)) db
  end.

Definition content_add (env : Env) (body : ContentBody) :=
  protected (content_add_handler env body).

(** The check of the specialist portal: the child must exist and be assigned
    to the caller.  [child.assignedSpecialist.toString()] throws on an
    unassigned child. *)
Definition portal_check (childId : ObjectId) (p : Principal) (denied : Msg) (db : Db)
  : option Reply :=
  match children db !! childId with
  | None => Some (mkReply 403 denied)
  | Some child =>
      match assignedSpecialist child with
      | None => Some (mkReply 500 MServerError)
      | Some s => if bool_decide (s = p_id p) then None else Some (mkReply 403 denied)
      end
  end.

(** POST /api/specialist/content/add, up to the length validation. *)
Definition portal_content_add_checks (body : ContentBody) (p : Principal) (db : Db)
  : Reply + Validated :=
  match truthy (cb_text body), truthy (cb_contentType body), cb_childId body with
  | Some text, Some contentType, Some childId =>
      match parse_contentType contentType with
      | None => inl (mkReply 400 MBadContentType)
      | Some t =>
          match portal_check childId p MNotAuthorizedToAdd db with
          | Some r => inl r
          | None =>
              if bad_difficulty body then inl (mkReply 400 MBadDifficulty)
              else
                match too_long 2 t text with
                | Some m => inl (mkReply 400 m)
                | None => inr (mkValidated t text childId)
                end
          end
      end
  | _, _, _ => inl (mkReply 400 MContentFieldsRequired)
  end.

Definition portal_content_add_handler (env : Env) (body : ContentBody) (p : Principal)
    (db : Db) : Reply * Db :=
  match portal_content_add_checks body p db with
  | inl r => (r, db)
  | inr v =>
      append_item env (v_type v) (v_text v) (cb_difficulty body) default_image
                  (v_childId v) p (MAdded (v_type v)) db
  end.

Definition portal_content_add (env : Env) (body : ContentBody) :=
  protected (portal_content_add_handler env body).

(** POST /api/words, up to [text.trim()]: no length validation. *)
Definition words_post_checks (body : ContentBody) : Reply + Validated :=
  match truthy (cb_text body), cb_childId body with
  | Some text, Some childId =>
      let type := default (of_ascii "word") (truthy (cb_contentType body)) in
      match parse_contentType type with
      | None => inl (mkReply 400 MInvalidContentType)
      | Some t => inr (mkValidated t text childId)
      end
  | _, _ => inl (mkReply 400 MTextAndChildRequired)
  end.

(** [file] is the name of the uploaded image, if any. *)
Definition image_path (file : option jsstring) : jsstring :=
  match file with
  | Some filename => of_ascii "/uploads/" ++ filename
  | None => default_image
  end.

Definition words_post_handler (env : Env) (body : ContentBody) (file : option jsstring)
    (p : Principal) (db : Db) : Reply * Db :=
  match words_post_checks body with
  | inl r => (r, db)
  | inr v =>
      append_item env (v_type v) (v_text v) (cb_difficulty body) (image_path file)
                  (v_childId v) p MWordCreated db
  end.

Definition words_post (env : Env) (body : ContentBody) (file : option jsstring) :=
  protected (words_post_handler env body file).

(** The three creation routes side by side. *)
Inductive AddRoute := ContentAdd | PortalContentAdd | WordsPost.

Definition add_checks (route : AddRoute) (body : ContentBody) (p : Principal) (db : Db)
  : Reply + Validated :=
  match route with
  | ContentAdd => content_add_checks body
  | PortalContentAdd => portal_content_add_checks body p db
  | WordsPost => words_post_checks body
  end.

Definition add_created (route : AddRoute) (t : ContentType) : Msg :=
  match route with
  | ContentAdd | PortalContentAdd => MAdded t
  | WordsPost => MWordCreated
  end.

Definition add_image (route : AddRoute) (file : option jsstring) : jsstring :=
  match route with
  | ContentAdd | PortalContentAdd => default_image
  | WordsPost => image_path file
  end.

Definition add_item (route : AddRoute) (env : Env) (body : ContentBody)
    (file : option jsstring) : option ObjectId → Db → Reply * Db :=
  match route with
  | ContentAdd => content_add env body
  | PortalContentAdd => portal_content_add env body
  | WordsPost => words_post env body file
  end.

Definition has_item (contentId : ObjectId) (l : list ContentItem) : bool :=
  existsb (λ i, bool_decide (ci_id i = contentId)) l.

(** The filter of the deletion routes: the content document one of whose
    sub-collections holds the identifier. *)
Definition holds_item (contentId : ObjectId) (e : Exercise) : bool :=
  bool_decide (e_kind e = KContent)
  && (has_item contentId (contentWords e) || has_item contentId (contentLetters e)).

(** [item.deleteOne()] on a sub-document pulls its [_id] from the array. *)
Definition pull_item (contentId : ObjectId) (l : list ContentItem) : list ContentItem :=
  List.filter (λ i, negb (bool_decide (ci_id i = contentId))) l.

Definition remove_item (contentId : ObjectId) (doc : Exercise) : Exercise :=
  mkExercise (e_id doc) (e_child doc) (e_kind doc)
             (pull_item contentId (contentWords doc))
             (pull_item contentId (contentLetters doc)) (e_active doc).

(** DELETE /api/content/delete/:contentId and DELETE /api/words/:id, which
    differ in their messages only. *)
Definition generic_delete_handler (notFound deleted : Msg) (contentId : ObjectId)
    (p : Principal) (db : Db) : Reply * Db :=
  match List.find (holds_item contentId) (exercises db) with
  | None => reply 404 notFound db
  | Some doc =>
      let db := with_exercises
        (update_first (holds_item contentId) (remove_item contentId)) db in
      reply 200 deleted db
  end.

Definition content_delete (contentId : ObjectId) :=
  protected (generic_delete_handler MContentNotFound MContentDeleted contentId).

Definition words_delete (contentId : ObjectId) :=
  protected (generic_delete_handler MWordNotFound MWordDeleted contentId).

(** POST /api/specialist/content/delete/:contentId *)
Definition portal_content_delete_handler (contentId : ObjectId) (p : Principal) (db : Db)
  : Reply * Db :=
  match List.find (holds_item contentId) (exercises db) with
  | None => reply 404 MContentNotFound db
  | Some doc =>
      match portal_check (e_child doc) p MNotAuthorizedToDelete db with
      | Some r => (r, db)
      | None =>
          let db := with_exercises
            (update_first (holds_item contentId) (remove_item contentId)) db in
          reply 200 MContentDeleted db
      end
  end.

Definition portal_content_delete (contentId : ObjectId) :=
  protected (portal_content_delete_handler contentId).

(** A call of one of the six routes that write content. *)
Inductive ContentCall :=
  | CallAdd (route : AddRoute) (env : Env) (body : ContentBody) (file : option jsstring)
  | CallContentDelete (contentId : ObjectId)
  | CallWordsDelete (contentId : ObjectId)
  | CallPortalDelete (contentId : ObjectId).

Definition run_content (c : ContentCall) (token : option ObjectId) (db : Db) : Reply * Db :=
  match c with
  | CallAdd route env body file => add_item route env body file token db
  | CallContentDelete contentId => content_delete contentId token db
  | CallWordsDelete contentId => words_delete contentId token db
  | CallPortalDelete contentId => portal_content_delete contentId token db
  end.

(** The store after a sequence of calls, each with its bearer token. *)
Definition run_contents (calls : list (ContentCall * option ObjectId)) (db : Db) : Db :=
  fold_left (λ db c, (run_content c.1 c.2 db).2) calls db.

(** ** Progress ledger (the Progress model, /api/progress) *)

Local Open Scope float_scope.

(** [x || 0] on a number that may be missing: undefined, null, 0, -0 and
    NaN are falsy. *)
Definition or0 (x : option float) : float :=
  match x with
  | Some v => if is_zero v || is_nan v then 0 else v
  | None => 0
  end.

(** The length of an array as a number.  The conversion is exact below
    2^53, and an array has fewer than 2^32 elements. *)
Fixpoint number_of_positive (p : positive) : float :=
  match p with
  | xH => 1
  | xO p => 2 * number_of_positive p
  | xI p => 2 * number_of_positive p + 1
  end.

Definition number_of_nat (n : nat) : float :=
  match N.of_nat n with
  | N0 => 0
  | Npos p => number_of_positive p
  end.

(** [progressSchema.methods.updateOverallStats]; the four [reduce] calls run
    left to right from 0. *)
Definition updateOverallStats (this : Progress) : Progress :=
  let totalSessions := number_of_nat (length (sessions this)) in
  let totalPlayTime :=
    fold_left (λ sum s, sum + or0 (duration s)) (sessions this) 0 in
  let totalAttempts :=
    fold_left (λ sum s, sum + or0 (totalAttempts s)) (sessions this) 0 in
  let successfulAttempts :=
    fold_left (λ sum s, sum + or0 (successfulAttempts s)) (sessions this) 0 in
  let successRate :=
    if 0 <? totalAttempts then (successfulAttempts / totalAttempts) * 100 else 0 in
  let totalScore :=
    fold_left (λ sum s, sum + or0 (averageScore s)) (sessions this) 0 in
  let averageScore :=
    if (0 <? length (sessions this))%nat
    then totalScore / number_of_nat (length (sessions this)) else 0 in
  mkProgress (pr_id this) (pr_child this) (sessions this)
    (mkStats totalSessions totalPlayTime totalAttempts successRate averageScore)
    (lastSyncDate this).

Local Close Scope float_scope.

(** A property of a request body: absent, null, or given with a value.  A
    schema default is applied to an absent property only; null is stored
    as null. *)
Inductive Field (A : Type) :=
  | Absent
  | Null
  | Given (a : A).

Arguments Absent {A}.
Arguments Null {A}.
Arguments Given {A} a.

Definition with_default {A} (d : A) (f : Field A) : option A :=
  match f with
  | Absent => Some d
  | Null => None
  | Given a => Some a
  end.

(** An attempt as the client sends it.  Only [timestamp] has a default in
    the schema; for the other properties absent and null read alike. *)
Record AttemptData := mkAttemptData {
  ad_letter : option jsstring;
  ad_word : option jsstring;
  ad_vowel : option jsstring;
  ad_recognizedText : option jsstring;
  ad_referenceText : option jsstring;
  ad_pronunciationScore : option float;
  ad_accuracyScore : option float;
  ad_fluencyScore : option float;
  ad_completenessScore : option float;
  ad_analysisSource : option jsstring;
  ad_success : option bool;
  ad_score : option float;
  ad_timestamp : Field Z
}.

(** A session as the client sends it.  [duration] has no default. *)
Record SessionData := mkSessionData {
  sd_sessionDate : Field Z;
  sd_duration : option float;
  sd_totalAttempts : Field float;
  sd_successfulAttempts : Field float;
  sd_failedAttempts : Field float;
  sd_averageScore : Field float;
  sd_attempts : list AttemptData
}.

(** Casting to the attempt schema: [timestamp] defaults to now. *)
Definition cast_attempt (env : Env) (a : AttemptData) : Attempt :=
  mkAttempt (ad_letter a) (ad_word a) (ad_vowel a) (ad_recognizedText a)
    (ad_referenceText a) (ad_pronunciationScore a) (ad_accuracyScore a)
    (ad_fluencyScore a) (ad_completenessScore a) (ad_analysisSource a) (ad_success a)
    (ad_score a) (with_default (now env) (ad_timestamp a)).

(** Casting to the session schema on [push]: the schema's defaults are
    filled in ([sessionDate]: now; the four counters: 0). *)
Definition cast_session (env : Env) (d : SessionData) : Session :=
  mkSession (with_default (now env) (sd_sessionDate d)) (sd_duration d)
    (with_default 0%float (sd_totalAttempts d))
    (with_default 0%float (sd_successfulAttempts d))
    (with_default 0%float (sd_failedAttempts d))
    (with_default 0%float (sd_averageScore d))
    (List.map (cast_attempt env) (sd_attempts d)).

(** The cast of a number fails on NaN, which is also what a value that is
    not a number reads as, and [save] then rejects the document. *)
Definition castable (x : option float) : bool :=
  match x with
  | Some v => negb (is_nan v)
  | None => true
  end.

Definition attempt_castable (a : Attempt) : bool :=
  castable (a_pronunciationScore a) && castable (a_accuracyScore a)
  && castable (a_fluencyScore a) && castable (a_completenessScore a)
  && castable (a_score a).

Definition session_castable (s : Session) : bool :=
  castable (duration s) && castable (totalAttempts s) && castable (successfulAttempts s)
  && castable (failedAttempts s) && castable (averageScore s)
  && forallb attempt_castable (attempts s).

Definition stats_castable (st : OverallStats) : bool :=
  negb (is_nan (st_totalSessions st)) && negb (is_nan (st_totalPlayTime st))
  && negb (is_nan (st_totalAttempts st)) && negb (is_nan (st_successRate st))
  && negb (is_nan (st_averageScore st)).

Definition push_session (s : Session) (pr : Progress) : Progress :=
  mkProgress (pr_id pr) (pr_child pr) (sessions pr ++ [s]) (overallStats pr)
    (lastSyncDate pr).

Definition set_lastSyncDate (t : Z) (pr : Progress) : Progress :=
  mkProgress (pr_id pr) (pr_child pr) (sessions pr) (overallStats pr) t.

Definition progress_of (childId : ObjectId) (pr : Progress) : bool :=
  bool_decide (pr_child pr = childId).

Definition zero_stats : OverallStats := mkStats 0 0 0 0 0.

(** The database calls of the two append routes that may throw. *)
Record DbFaults := mkFaults {
  findOne_throws : bool;
  create_throws : bool;
  save_throws : bool;
  notify_throws : bool
}.

Definition no_faults : DbFaults := mkFaults false false false false.

(** [Progress.findOne({ child })], then [Progress.create({ child })] when
    there is none: the document and the store afterwards, or [None] when a
    call throws. *)
Definition load_or_create_progress (env : Env) (faults : DbFaults) (childId : ObjectId)
    (db : Db) : option (Progress * Db) :=
  if findOne_throws faults then None
  else
    match List.find (progress_of childId) (progresses db) with
    | Some progress => Some (progress, db)
    | None =>
        if create_throws faults then None
        else
          let progress := mkProgress (fresh env 0%nat) childId [] zero_stats (now env) in
          Some (progress, with_progresses (λ l, l ++ [progress]) db)
    end.

(** What both routes do to the loaded document before [save]: the sessions
    are pushed, the statistics recomputed and the date of the sync set. *)
Definition append_sessions (env : Env) (new : list SessionData) (pr : Progress) : Progress :=
  let pr := fold_left (λ pr d, push_session (cast_session env d) pr) new pr in
  let pr := updateOverallStats pr in
  set_lastSyncDate (now env) pr.

(** [progress.save()]: it rejects when the database does, or when a number
    of the document failed its cast (a session's, or one the rollup
    assigned); otherwise the document replaces the one that was loaded. *)
Definition save_progress (faults : DbFaults) (childId : ObjectId) (progress : Progress)
    (db : Db) : option Db :=
  if save_throws faults
     || negb (forallb session_castable (sessions progress)
              && stats_castable (overallStats progress))
  then None
  else Some (with_progresses (update_first (progress_of childId) (λ _, progress)) db).

(** POST /api/progress/session.  [sessionData] is [None] when the body has
    none: the push or the rollup then throws, after the document was
    loaded or created. *)
Definition progress_session_handler (env : Env) (faults : DbFaults) (childId : ObjectId)
    (sessionData : option SessionData) (p : Principal) (db : Db) : Reply * Db :=
  match load_or_create_progress env faults childId db with
  | None => reply 500 MServerError db
  | Some (progress, db) =>
      match sessionData with
      | None => reply 500 MServerError db
      | Some sessionData =>
          let progress := append_sessions env [sessionData] progress in
          match save_progress faults childId progress db with
          | None => reply 500 MServerError db
          | Some db => reply 200 MProgress db
          end
      end
  end.

Definition progress_session (env : Env) (faults : DbFaults) (childId : ObjectId)
    (sessionData : option SessionData) :=
  protected (progress_session_handler env faults childId sessionData).

(** The notification of the parent after a sync, in a try block of its
    own: nothing is created when the child is unknown or the call throws. *)
Definition notify_parent (faults : DbFaults) (childId : ObjectId) (db : Db) : Db :=
  if notify_throws faults then db
  else
    match children db !! childId, List.find (progress_of childId) (progresses db) with
    | Some child, Some progress =>
        with_notifications
          (λ l, l ++ [mkNotification (c_parent child) NSuccess
                        (TxtSessionDone (c_name child))
                        (DProgress childId (pr_id progress))]) db
    | _, _ => db
    end.

(** [io.emit('progress_updated', ...)] when a socket server is attached. *)
Definition emit_progress_updated (env : Env) (childId : ObjectId) (db : Db) : Db :=
  if io_attached env
  then with_broadcasts (λ l, l ++ [mkBroadcast childId (now env)]) db
  else db.

(** POST /api/progress/sync.  [sessions] is [None] when the body has no
    array of sessions: [sessions.forEach] then throws, after the document
    was loaded or created. *)
Definition progress_sync_handler (env : Env) (faults : DbFaults) (childId : ObjectId)
    (sessions : option (list SessionData)) (p : Principal) (db : Db) : Reply * Db :=
  match load_or_create_progress env faults childId db with
  | None => reply 500 MServerError db
  | Some (progress, db) =>
      match sessions with
      | None => reply 500 MServerError db
      | Some sessions =>
          let progress := append_sessions env sessions progress in
          match save_progress faults childId progress db with
          | None => reply 500 MServerError db
          | Some db =>
              let db := notify_parent faults childId db in
              let db := emit_progress_updated env childId db in
              reply 200 MProgressSynced db
          end
      end
  end.

Definition progress_sync (env : Env) (faults : DbFaults) (childId : ObjectId)
    (sessions : option (list SessionData)) :=
  protected (progress_sync_handler env faults childId sessions).

(** ** Reading the attempts (/api/progress/attempts) *)

(** The value of a JavaScript number as far as [parseInt] and
    [Number.isFinite] tell them apart. *)
Inductive JsNumber := JsNaN | JsInfinity (negative : bool) | JsInt (z : Z).

(** Integers of this magnitude or more have no finite double: they round
    to an infinity. *)
Definition double_overflow : Z := 2 ^ 1024 - 2 ^ 970.

Definition digit_value (c : N) : option Z :=
  if ((48 <=? c) && (c <=? 57))%N then Some (Z.of_N c - 48) else None.

(** The value of the longest prefix of decimal digits, and whether it has
    a digit at all. *)
Fixpoint digits_prefix (acc : Z) (seen : bool) (s : jsstring) : option Z :=
  match s with
  | c :: s' =>
      match digit_value c with
      | Some d => digits_prefix (10 * acc + d) true s'
      | None => if seen then Some acc else None
      end
  | [] => if seen then Some acc else None
  end.

(** [parseInt(x, 10)] for a query parameter: a missing parameter is
    [undefined], which reads as the string "undefined". *)
Definition parseInt10 (x : option jsstring) : JsNumber :=
  match x with
  | None => JsNaN
  | Some s =>
      let s := trimStart s in
      let '(negative, s) :=
        match s with
        | 45%N :: s' => (true, s')
        | 43%N :: s' => (false, s')
        | _ => (false, s)
        end in
      match digits_prefix 0 false s with
      | None => JsNaN
      | Some m =>
          if (double_overflow <=? m) then JsInfinity negative
          else JsInt (if negative then - m else m)
      end
  end.

(** [Number.isFinite(rawLimit) ? Math.min(Math.max(rawLimit, 1), 200) : 50] *)
Definition attempts_limit (query_limit : option jsstring) : Z :=
  match parseInt10 query_limit with
  | JsInt rawLimit => Z.min (Z.max rawLimit 1) 200
  | _ => 50
  end.

Record AttemptView := mkAttemptView {
  v_sessionDate : option Z;
  v_timestamp : option Z;
  v_target : jsstring;
  v_letter : option jsstring;
  v_word : option jsstring;
  v_vowel : option jsstring;
  v_success : bool;
  v_score : option float;
  v_pronunciationScore : option float;
  v_accuracyScore : option float;
  v_fluencyScore : option float;
  v_completenessScore : option float;
  v_recognizedText : option jsstring;
  v_referenceText : option jsstring;
  v_analysisSource : option jsstring
}.

(** [a.word || a.letter || a.vowel || ''] *)
Definition target_of (a : Attempt) : jsstring :=
  match truthy (a_word a), truthy (a_letter a), truthy (a_vowel a) with
  | Some w, _, _ => w
  | None, Some l, _ => l
  | None, None, Some v => v
  | None, None, None => []
  end.

Definition view_attempt (sessionDate : option Z) (a : Attempt) : AttemptView :=
  mkAttemptView sessionDate (a_timestamp a) (target_of a) (a_letter a) (a_word a)
    (a_vowel a) (default false (a_success a)) (a_score a) (a_pronunciationScore a)
    (a_accuracyScore a) (a_fluencyScore a) (a_completenessScore a)
    (a_recognizedText a) (a_referenceText a) (a_analysisSource a).

Definition flatten_attempts (ss : list Session) : list AttemptView :=
  List.concat (List.map (λ s, List.map (view_attempt (sessionDate s)) (attempts s)) ss).

(** [new Date(a.timestamp || 0).getTime()] *)
Definition time_of (v : AttemptView) : Z := default 0 (v_timestamp v).

(** [Array.prototype.sort] with the comparator [tb - ta]: a stable sort,
    latest first. *)
Fixpoint insert_desc (x : AttemptView) (l : list AttemptView) : list AttemptView :=
  match l with
  | [] => [x]
  | y :: l' => if (time_of x <? time_of y) then y :: insert_desc x l' else x :: l
  end.

Definition sort_desc (l : list AttemptView) : list AttemptView :=
  fold_right insert_desc [] l.

(** [Array.prototype.slice(0, limit)] for a limit that is at least 1. *)
Definition slice0 {A} (limit : Z) (l : list A) : list A := firstn (Z.to_nat limit) l.

(** GET /api/progress/attempts/:childId *)
Definition progress_attempts_handler (childId : ObjectId) (query_limit : option jsstring)
    (p : Principal) (db : Db) : Reply * list AttemptView :=
  match children db !! childId with
  | None => (mkReply 404 MChildNotFound, [])
  | Some child =>
      if bool_decide (p_role p = RParent) && negb (bool_decide (c_parent child = p_id p))
      then (mkReply 403 MNotAuthorized, [])
      else if bool_decide (p_role p = RSpecialist)
              && negb (bool_decide (assignedSpecialist child = Some (p_id p)))
      then (mkReply 403 MNotAuthorized, [])
      else
        let limit := attempts_limit query_limit in
        match List.find (progress_of childId) (progresses db) with
        | None => (mkReply 200 MAttempts, [])
        | Some progress =>
            match sessions progress with
            | [] => (mkReply 200 MAttempts, [])
            | _ :: _ =>
                let attempts := flatten_attempts (sessions progress) in
                let attempts := sort_desc attempts in
                (mkReply 200 MAttempts, slice0 limit attempts)
            end
        end
  end.

Definition progress_attempts (childId : ObjectId) (query_limit : option jsstring)
    (token : option ObjectId) (db : Db) : Reply * list AttemptView :=
  match protect token db with
  | None => (mkReply 401 MNotAuthenticated, [])
  | Some p => progress_attempts_handler childId query_limit p db
  end.

(** ** Example stores *)

Definition env0 : Env := mkEnv (λ n, Pos.of_nat (100 + n)) 1700000000000 true.
Definition env1 : Env := mkEnv (λ n, Pos.of_nat (200 + n)) 1700000001000 true.

Definition parent1 : ObjectId := 1%positive.
Definition specialist2 : ObjectId := 2%positive.
Definition specialist3 : ObjectId := 3%positive.
Definition parent4 : ObjectId := 4%positive.
Definition child10 : ObjectId := 10%positive.
Definition child11 : ObjectId := 11%positive.

(** A parent with two unassigned children, two specialists and a second
    parent; nobody is linked. *)
Definition db_unlinked : Db :=
  mkDb
    (<[parent1 := mkUser (of_ascii "Huda") RParent [] None []]>
       (<[specialist2 := mkUser (of_ascii "Sami") RSpecialist [] None []]>
          (<[specialist3 := mkUser (of_ascii "Rana") RSpecialist [] None []]>
             (<[parent4 := mkUser (of_ascii "Omar") RParent [] None []]> ∅))))
    (<[child10 := mkChild (of_ascii "Ali") parent1 None SNone]>
       (<[child11 := mkChild (of_ascii "Mona") parent1 None SNone]> ∅))
    ∅ [] [] [] [].

(** The parent asks specialist 2 for child 10, then specialist 3 for child
    11. *)
Definition db_requested : Db :=
  (send_link_request env1 (mkLinkRequestBody (Some specialist3) (Some child11) None)
     (Some parent1)
     (send_link_request env0 (mkLinkRequestBody (Some specialist2) (Some child10) None)
        (Some parent1) db_unlinked).2).2.

Definition request100 : ObjectId := 100%positive.
Definition request200 : ObjectId := 200%positive.

(** Parent 1 linked to specialist 2, both children assigned to the
    specialist. *)
Definition db_linked : Db :=
  mkDb
    (<[parent1 := mkUser (of_ascii "Huda") RParent [] (Some specialist2) []]>
       (<[specialist2 := mkUser (of_ascii "Sami") RSpecialist [child10; child11] None
                                [parent1]]>
          (<[specialist3 := mkUser (of_ascii "Rana") RSpecialist [] None []]> ∅)))
    (<[child10 := mkChild (of_ascii "Ali") parent1 (Some specialist2) SApproved]>
       (<[child11 := mkChild (of_ascii "Mona") parent1 (Some specialist2) SApproved]> ∅))
    ∅ [] [] [] [].


(** Two sessions of the training app: ten attempts, seven of them
    successful. *)
Definition session_a : SessionData :=
  mkSessionData Absent (Some 12%float) (Given 6%float) (Given 4%float) (Given 2%float)
                (Given 80%float) [].
Definition session_b : SessionData :=
  mkSessionData Absent None (Given 4%float) (Given 3%float) (Given 1%float)
                (Given 90%float) [].

(** The same ten attempts sent as attempts only, without the counters. *)
Definition attempt_of (ok : bool) : AttemptData :=
  mkAttemptData (Some [1576%N]) None None None None None None None None None
                (Some ok) None Absent.

Definition session_d : SessionData :=
  mkSessionData Absent None Absent Absent Absent Absent
    [attempt_of true; attempt_of true; attempt_of false; attempt_of true;
     attempt_of true; attempt_of false].
Definition session_e : SessionData :=
  mkSessionData Absent None Absent Absent Absent Absent
    [attempt_of true; attempt_of true; attempt_of true; attempt_of false].

(** A session of three attempts, one of them successful. *)
Definition session_f : SessionData :=
  mkSessionData Absent None (Given 3%float) (Given 1%float) (Given 2%float)
                (Given 50%float) [].


(** The word of the specification's scenario, the Arabic for apple, with
    blanks around it, and the two requests that add it for child 10 and for
    child 11. *)
Definition apple : jsstring := [1578; 1601; 1575; 1581; 1577]%N.

Definition add_apple_10 : ContentBody :=
  mkContentBody (Some ([32%N] ++ apple ++ [32%N])) (Some (of_ascii "word")) None
                (Some child10).

Definition add_apple_11 : ContentBody :=
  mkContentBody (Some apple) (Some (of_ascii "word")) (Some (of_ascii "hard"))
                (Some child11).

(** The store after parent 4, who has nothing to do with child 10, has
    added the word for that child. *)
Definition db_apple : Db :=
  (content_add env0 add_apple_10 (Some parent4) db_unlinked).2.

(** A word of 21 letters and a letter with two marks, as request bodies for
    child 10. *)
Definition long_word : jsstring := repeat 97%N 21.
Definition long_letter : jsstring := [1576; 1614; 1617]%N.

Definition add_long_word : ContentBody :=
  mkContentBody (Some long_word) (Some (of_ascii "word")) None (Some child10).

Definition add_long_letter : ContentBody :=
  mkContentBody (Some long_letter) (Some (of_ascii "letter")) None (Some child10).

(** The store of the scenario again, and the identifier of the item in it. *)
Definition item101 : ObjectId := 101%positive.

(** Parent 1 linked to specialist 2 as in [db_linked], with the word added
    for child 10 by the specialist. *)
Definition db_linked_apple : Db :=
  (portal_content_add env0 add_apple_10 (Some specialist2) db_linked).2.

(** Three attempts of child 10 in one session, synced by the training app. *)
Definition attempt_at (t : Z) (ok : bool) : AttemptData :=
  mkAttemptData (Some [1576%N]) None None None None None None None None None
                (Some ok) None (Given t).

Definition session_c : SessionData :=
  mkSessionData Absent (Some 5%float) (Given 3%float) (Given 2%float) (Given 1%float)
                (Given 75%float)
                [attempt_at 1000 true; attempt_at 3000 false; attempt_at 2000 true].

Definition db_attempts : Db :=
  (progress_sync env0 no_faults child10 (Some [session_c]) (Some parent1) db_linked).2.

(** * Further routes

    The routes below answer with the status code and the message text of
    the source.  The text of a 500 is the message of whatever was thrown;
    it is left empty. *)

Record Answer := mkAnswer { ans_code : Z; ans_text : string }.

Definition role_name (r : Role) : string :=
  match r with
  | RParent => "parent"
  | RSpecialist => "specialist"
  | RAdmin => "admin"
  | RSuperadmin => "superadmin"
  end.

(** [protect] with its two 401 answers: no usable token, or a token whose
    user is gone. *)
Definition protect_answer (token : option ObjectId) (db : Db) : Answer + Principal :=
  match token with
  | None => inl (mkAnswer 401 "Not authorized to access this route")
  | Some uid =>
      match users db !! uid with
      | None => inl (mkAnswer 401 "User not found")
      | Some u => inr (mkPrincipal uid (u_role u))
      end
  end.

(** [authorize(...roles)] *)
Definition authorize_answer (roles : list Role) (p : Principal) : option Answer :=
  if bool_decide (p_role p ∈ roles) then None
  else Some (mkAnswer 403
               ("User role '" ++ role_name (p_role p)
                ++ "' is not authorized to access this route")).

(** A route behind [protect] and, when [roles] is given, [authorize]; [deny]
    builds the result of the route from the answer of the middleware. *)
Definition behind {R} (roles : option (list Role)) (deny : Answer → R)
    (h : Principal → R) (token : option ObjectId) (db : Db) : R :=
  match protect_answer token db with
  | inl a => deny a
  | inr p =>
      match roles with
      | None => h p
      | Some rs =>
          match authorize_answer rs p with
          | Some a => deny a
          | None => h p
          end
      end
  end.

(** ** Link requests: the remaining routes *)

(** DELETE /api/parents/cancel-request/:requestId *)
Definition cancel_request_handler (requestId : ObjectId) (db : Db) (p : Principal)
  : Answer * Db :=
  match linkRequests db !! requestId with
  | None => (mkAnswer 404 "Request not found", db)
  | Some request =>
      if negb (bool_decide (lr_from request = p_id p))
      then (mkAnswer 403 "Not authorized", db)
      else if negb (bool_decide (lr_status request = LPending))
      then (mkAnswer 400 "Can only cancel pending requests", db)
      else (mkAnswer 200 "Request cancelled successfully",
            with_linkRequests (delete requestId) db)
  end.

Definition cancel_request (requestId : ObjectId) (token : option ObjectId) (db : Db)
  : Answer * Db :=
  behind (Some [RParent]) (λ a, (a, db)) (cancel_request_handler requestId db) token db.

(** GET /api/parents/my-specialist: the linked specialist, populated.  A
    reference to a user that no longer exists populates to null. *)
Definition my_specialist_handler (db : Db) (p : Principal)
  : Answer * option (ObjectId * User) :=
  match users db !! p_id p with
  | None => (mkAnswer 500 "", None)
  | Some user =>
      match linkedSpecialist user with
      | None => (mkAnswer 404 "No specialist linked", None)
      | Some s =>
          match users db !! s with
          | None => (mkAnswer 404 "No specialist linked", None)
          | Some specialist => (mkAnswer 200 "", Some (s, specialist))
          end
      end
  end.

Definition my_specialist (token : option ObjectId) (db : Db)
  : Answer * option (ObjectId * User) :=
  behind (Some [RParent]) (λ a, (a, None)) (my_specialist_handler db) token db.

(** GET /api/specialists/pending-link-requests-count *)
Definition pending_for (s : ObjectId) (k : ObjectId) (r : LinkRequest) : bool :=
  bool_decide (lr_to r = s) && bool_decide (lr_status r = LPending).

Definition countDocuments {A} (sel : ObjectId → A → bool) (m : gmap ObjectId A) : nat :=
  length (find_docs sel m).

Definition pending_link_requests_count (token : option ObjectId) (db : Db)
  : Answer * option nat :=
  behind (Some [RSpecialist]) (λ a, (a, None))
    (λ p, (mkAnswer 200 "", Some (countDocuments (pending_for (p_id p)) (linkRequests db))))
    token db.

(** GET /api/specialists/pending-requests: the children whose status is
    pending, whoever the request was meant for. *)
Definition is_pending_child (k : ObjectId) (c : Child) : bool :=
  bool_decide (specialistRequestStatus c = SPending).

Definition pending_requests (token : option ObjectId) (db : Db)
  : Answer * list (ObjectId * Child) :=
  behind (Some [RSpecialist]) (λ a, (a, []))
    (λ p, (mkAnswer 200 "", find_docs is_pending_child (children db))) token db.

(** GET /api/specialists/my-children *)
Definition assigned_to (s : ObjectId) (k : ObjectId) (c : Child) : bool :=
  bool_decide (assignedSpecialist c = Some s).

Definition my_children (token : option ObjectId) (db : Db)
  : Answer * list (ObjectId * Child) :=
  behind (Some [RSpecialist]) (λ a, (a, []))
    (λ p, (mkAnswer 200 "", find_docs (assigned_to (p_id p)) (children db))) token db.

(** A call of a route that writes link requests or links. *)
Inductive RequestCall :=
  | ViaLinkage (c : LinkageCall)
  | CallCancelRequest (requestId : ObjectId).

(** The store after the call; the reply is left aside. *)
Definition run_request (c : RequestCall) (token : option ObjectId) (db : Db) : Db :=
  match c with
  | ViaLinkage c => (run_linkage c token db).2
  | CallCancelRequest requestId => (cancel_request requestId token db).2
  end.

(** The identifier the driver generates for the document a call may create;
    it is not in use. *)
Definition new_request_id (c : RequestCall) : option ObjectId :=
  match c with
  | ViaLinkage (CallSendLinkRequest env _) => Some (fresh env 0%nat)
  | _ => None
  end.

Definition fresh_for (c : RequestCall) (db : Db) : Prop :=
  match new_request_id c with
  | Some k => linkRequests db !! k = None
  | None => True
  end.

(** The store after specialist 2 has accepted the request for child 10: the
    request is accepted, the other one of the parent rejected. *)
Definition db_accepted : Db :=
  (accept_link_request request100 (Some specialist2) db_requested).2.

(** ** Reading the progress (/api/progress) *)

(** GET /api/progress/child/:childId: the progress document of the child,
    created when there is none. *)
Definition progress_child_handler (env : Env) (childId : ObjectId) (db : Db) (p : Principal)
  : Answer * option Progress * Db :=
  match children db !! childId with
  | None => (mkAnswer 404 "Child not found", None, db)
  | Some child =>
      if bool_decide (p_role p = RParent) && negb (bool_decide (c_parent child = p_id p))
      then (mkAnswer 403 "Not authorized", None, db)
      else if bool_decide (p_role p = RSpecialist)
              && negb (bool_decide (assignedSpecialist child = Some (p_id p)))
      then (mkAnswer 403 "Not authorized", None, db)
      else
        match List.find (progress_of childId) (progresses db) with
        | Some progress => (mkAnswer 200 "", Some progress, db)
        | None =>
            let progress := mkProgress (fresh env 0%nat) childId [] zero_stats (now env) in
            (mkAnswer 200 "", Some progress, with_progresses (λ l, l ++ [progress]) db)
        end
  end.

Definition progress_child (env : Env) (childId : ObjectId) (token : option ObjectId)
    (db : Db) : Answer * option Progress * Db :=
  behind None (λ a, (a, None, db)) (progress_child_handler env childId db) token db.

(** GET /api/progress/stats/:childId *)
Definition progress_stats_handler (childId : ObjectId) (db : Db) (p : Principal)
  : Answer * option OverallStats :=
  match children db !! childId with
  | None => (mkAnswer 404 "Child not found", None)
  | Some child =>
      if bool_decide (p_role p = RParent) && negb (bool_decide (c_parent child = p_id p))
      then (mkAnswer 403 "Not authorized", None)
      else if bool_decide (p_role p = RSpecialist)
              && negb (bool_decide (assignedSpecialist child = Some (p_id p)))
      then (mkAnswer 403 "Not authorized", None)
      else
        match List.find (progress_of childId) (progresses db) with
        | None => (mkAnswer 200 "", Some zero_stats)
        | Some progress => (mkAnswer 200 "", Some (overallStats progress))
        end
  end.

Definition progress_stats (childId : ObjectId) (token : option ObjectId) (db : Db)
  : Answer * option OverallStats :=
  behind None (λ a, (a, None)) (progress_stats_handler childId db) token db.

(** A call of one of the routes that write progress documents. *)
Inductive ProgressCall :=
  | CallProgressChild (env : Env) (childId : ObjectId)
  | CallProgressSession (env : Env) (faults : DbFaults) (childId : ObjectId)
      (sessionData : option SessionData)
  | CallProgressSync (env : Env) (faults : DbFaults) (childId : ObjectId)
      (sessions : option (list SessionData)).

Definition run_progress (c : ProgressCall) (token : option ObjectId) (db : Db) : Db :=
  match c with
  | CallProgressChild env childId => (progress_child env childId token db).2
  | CallProgressSession env faults childId d =>
      (progress_session env faults childId d token db).2
  | CallProgressSync env faults childId new =>
      (progress_sync env faults childId new token db).2
  end.

(** ** Reading the content (/api/content, /api/words) *)

(** [Array.prototype.sort] with the comparator
    [new Date(b.createdAt || 0) - new Date(a.createdAt || 0)]: a stable sort
    on the time, latest first. *)
Fixpoint insert_by_desc {A} (key : A → Z) (x : A) (l : list A) : list A :=
  match l with
  | [] => [x]
  | y :: l' => if (key x <? key y) then y :: insert_by_desc key x l' else x :: l
  end.

Definition sort_by_desc {A} (key : A → Z) (l : list A) : list A :=
  fold_right (insert_by_desc key) [] l.

Definition difficulty_name (d : Difficulty) : jsstring :=
  match d with
  | DEasy => of_ascii "easy"
  | DMedium => of_ascii "medium"
  | DHard => of_ascii "hard"
  end.

Record LegacyItem := mkLegacyItem {
  li_id : ObjectId;
  li_text : jsstring;
  li_contentType : ContentType;
  li_difficulty : Difficulty;
  li_image : jsstring;
  li_child : ObjectId;
  li_createdBy : option ObjectId;
  li_createdAt : Z
}.

(** [asLegacyContentItem] of /api/content and [asLegacyWordItem] of
    /api/words, which are the same function. *)
Definition asLegacyContentItem (contentType : ContentType) (childId : ObjectId)
    (item : ContentItem) : LegacyItem :=
  mkLegacyItem (ci_id item) (ci_text item) contentType (ci_difficulty item) (ci_image item)
    childId (ci_createdBy item) (ci_createdAt item).

(** [Exercise.findOne({ child, kind: 'content' })], then [doc?.contentWords
    || []] or [doc?.contentLetters || []]. *)
Definition stored_items (t : ContentType) (childId : ObjectId) (db : Db) : list ContentItem :=
  match List.find (is_content_of childId) (exercises db) with
  | Some doc => targetArr t doc
  | None => []
  end.

(** The filter of /api/content:
    [!difficulty || !['easy', 'medium', 'hard'].includes(difficulty)
     || item.difficulty === difficulty] *)
Definition difficultyFilter (difficulty : option jsstring) (item : ContentItem) : bool :=
  match truthy difficulty with
  | None => true
  | Some d =>
      negb (bool_decide (d ∈ [of_ascii "easy"; of_ascii "medium"; of_ascii "hard"]))
      || bool_decide (difficulty_name (ci_difficulty item) = d)
  end.

(** The filter of /api/words: [!difficulty || item.difficulty === difficulty] *)
Definition difficultyOk (difficulty : option jsstring) (item : ContentItem) : bool :=
  match truthy difficulty with
  | None => true
  | Some d => bool_decide (difficulty_name (ci_difficulty item) = d)
  end.

(** GET /api/content/child/:childId *)
Definition content_child (childId : ObjectId) (contentType difficulty : option jsstring)
    (token : option ObjectId) (db : Db) : Answer * list LegacyItem :=
  behind None (λ a, (a, []))
    (λ _,
       let words :=
         List.map (asLegacyContentItem CWord childId)
           (List.filter (difficultyFilter difficulty) (stored_items CWord childId db)) in
       let letters :=
         List.map (asLegacyContentItem CLetter childId)
           (List.filter (difficultyFilter difficulty) (stored_items CLetter childId db)) in
       let content :=
         if bool_decide (contentType = Some (of_ascii "word")) then words
         else if bool_decide (contentType = Some (of_ascii "letter")) then letters
         else words ++ letters in
       (mkAnswer 200 "", sort_by_desc li_createdAt content))
    token db.

(** GET /api/content/words/child/:childId and
    GET /api/content/letters/child/:childId *)
Definition content_of_type_child (t : ContentType) (childId : ObjectId)
    (difficulty : option jsstring) (token : option ObjectId) (db : Db)
  : Answer * list LegacyItem :=
  behind None (λ a, (a, []))
    (λ _,
       (mkAnswer 200 "",
        sort_by_desc li_createdAt
          (List.map (asLegacyContentItem t childId)
             (List.filter (difficultyFilter difficulty) (stored_items t childId db)))))
    token db.

(** GET /api/words/child/:childId: the words and the letters. *)
Definition words_child (childId : ObjectId) (contentType difficulty : option jsstring)
    (token : option ObjectId) (db : Db) : Answer * (list LegacyItem * list LegacyItem) :=
  behind None (λ a, (a, ([], [])))
    (λ _,
       let wanted (t : ContentType) (name : jsstring) : list LegacyItem :=
         match truthy contentType with
         | Some c =>
             if bool_decide (c = name)
             then sort_by_desc li_createdAt
                    (List.map (asLegacyContentItem t childId)
                       (List.filter (difficultyOk difficulty) (stored_items t childId db)))
             else []
         | None =>
             sort_by_desc li_createdAt
               (List.map (asLegacyContentItem t childId)
                  (List.filter (difficultyOk difficulty) (stored_items t childId db)))
         end in
       (mkAnswer 200 "", (wanted CWord (of_ascii "word"), wanted CLetter (of_ascii "letter"))))
    token db.

(** The store with the word for child 10, then a letter and, later still, a
    second word for the same child. *)
Definition add_ba_10 : ContentBody :=
  mkContentBody (Some [1576%N]) (Some (of_ascii "letter")) (Some (of_ascii "hard"))
                (Some child10).

Definition add_kitab_10 : ContentBody :=
  mkContentBody (Some (of_ascii "kitab")) (Some (of_ascii "word")) None (Some child10).

Definition db_three_items : Db :=
  (content_add (mkEnv (λ n, Pos.of_nat (300 + n)) 1700000003000 true) add_kitab_10
     (Some parent1)
     (content_add env1 add_ba_10 (Some parent1) db_apple).2).2.

(** ** Child profiles (/api/children) *)

(** GET /api/children: the children of the parent, or those assigned to the
    specialist. *)
Definition child_of_parent (parent : ObjectId) (k : ObjectId) (c : Child) : bool :=
  bool_decide (c_parent c = parent).

Definition children_list (token : option ObjectId) (db : Db)
  : Answer * list (ObjectId * Child) :=
  behind None (λ a, (a, []))
    (λ p,
       if bool_decide (p_role p = RParent)
       then (mkAnswer 200 "", find_docs (child_of_parent (p_id p)) (children db))
       else if bool_decide (p_role p = RSpecialist)
       then (mkAnswer 200 "", find_docs (assigned_to (p_id p)) (children db))
       else (mkAnswer 403 "Invalid user role", []))
    token db.

(** GET /api/children/:id.  The child is read with its parent and its
    specialist populated: a reference to a user that is gone reads as null,
    and [child.parent._id] throws on it when the caller is a parent. *)
Definition child_get_handler (id : ObjectId) (db : Db) (p : Principal)
  : Answer * option Child :=
  match children db !! id with
  | None => (mkAnswer 404 "Child not found", None)
  | Some child =>
      if bool_decide (p_role p = RParent)
         && negb (bool_decide (is_Some (users db !! c_parent child)))
      then (mkAnswer 500 "", None)
      else if bool_decide (p_role p = RParent)
              && negb (bool_decide (c_parent child = p_id p))
      then (mkAnswer 403 "Not authorized", None)
      else if bool_decide (p_role p = RSpecialist)
              && negb (bool_decide (assignedSpecialist child = Some (p_id p)))
      then (mkAnswer 403 "Not authorized", None)
      else (mkAnswer 200 "", Some child)
  end.

Definition child_get (id : ObjectId) (token : option ObjectId) (db : Db)
  : Answer * option Child :=
  behind None (λ a, (a, None)) (child_get_handler id db) token db.

(** DELETE /api/children/:id *)
Definition child_delete_handler (id : ObjectId) (db : Db) (p : Principal) : Answer * Db :=
  match children db !! id with
  | None => (mkAnswer 404 "Child not found", db)
  | Some child =>
      if negb (bool_decide (c_parent child = p_id p))
      then (mkAnswer 403 "Not authorized", db)
      else (mkAnswer 200 "Child deleted successfully", with_children (delete id) db)
  end.

Definition child_delete (id : ObjectId) (token : option ObjectId) (db : Db) : Answer * Db :=
  behind (Some [RParent]) (λ a, (a, db)) (child_delete_handler id db) token db.

(** ** Messages (/api/messages) *)

Record Message := mkMessage {
  m_sender : ObjectId;
  m_receiver : ObjectId;
  m_content : jsstring;
  isRead : bool;
  readAt : option Z;
  m_createdAt : Z
}.

(** The collection of messages, by [_id]; the routes read the users of the
    store and write this collection only. *)
Abbreviation Messages := (gmap ObjectId Message).

(** POST /api/messages.  The schema trims [content] again and requires it;
    a content of white space only fails validation in [Message.create].  The
    socket events and the push notification that follow leave the
    collections as they are. *)
Definition message_send_handler (env : Env) (receiverId : option ObjectId)
    (content : option jsstring) (db : Db) (ms : Messages) (p : Principal)
  : Answer * Messages :=
  match receiverId, truthy content with
  | Some receiverId, Some content =>
      match users db !! receiverId with
      | None => (mkAnswer 404 "Receiver not found", ms)
      | Some _ =>
          let content := trim (trim content) in
          match content with
          | [] => (mkAnswer 500 "", ms)
          | _ :: _ =>
              (mkAnswer 201 "",
               <[fresh env 0%nat :=
                   mkMessage (p_id p) receiverId content false None (now env)]> ms)
          end
      end
  | _, _ => (mkAnswer 400 "Receiver ID and content are required", ms)
  end.

(** GET /api/messages/unread/count *)
Definition unread_for (uid : ObjectId) (k : ObjectId) (m : Message) : bool :=
  bool_decide (m_receiver m = uid) && bool_decide (isRead m = false).

Definition unread_count (token : option ObjectId) (db : Db) (ms : Messages)
  : Answer * option nat :=
  behind None (λ a, (a, None))
    (λ p, (mkAnswer 200 "", Some (countDocuments (unread_for (p_id p)) ms))) token db.

Definition mark_as_read (t : Z) (m : Message) : Message :=
  mkMessage (m_sender m) (m_receiver m) (m_content m) true (Some t) (m_createdAt m).

(** The messages the other user sent to the caller that are not read yet. *)
Definition unread_from (other uid : ObjectId) (k : ObjectId) (m : Message) : bool :=
  bool_decide (m_sender m = other) && bool_decide (m_receiver m = uid)
  && bool_decide (isRead m = false).

(** GET /api/messages/:userId, as far as it writes: after the page of the
    conversation is fetched ([query_throws]: the query with the paging
    parameters of the request fails), the messages received from the other
    user are marked as read. *)
Definition conversation_open_handler (env : Env) (query_throws : bool) (userId : ObjectId)
    (db : Db) (ms : Messages) (p : Principal) : Answer * Messages :=
  match users db !! userId with
  | None => (mkAnswer 404 "User not found", ms)
  | Some _ =>
      if query_throws then (mkAnswer 500 "", ms)
      else (mkAnswer 200 "", updateMany (unread_from userId (p_id p)) (mark_as_read (now env)) ms)
  end.

(** PUT /api/messages/:messageId/read.  [save] validates the document it
    loaded: a stored message without content fails the validation. *)
Definition message_read_handler (env : Env) (messageId : ObjectId) (ms : Messages)
    (p : Principal) : Answer * Messages :=
  match ms !! messageId with
  | None => (mkAnswer 404 "Message not found", ms)
  | Some message =>
      if negb (bool_decide (m_receiver message = p_id p))
      then (mkAnswer 403 "Not authorized", ms)
      else
        match m_content message with
        | [] => (mkAnswer 500 "", ms)
        | _ :: _ => (mkAnswer 200 "", <[messageId := mark_as_read (now env) message]> ms)
        end
  end.

(** DELETE /api/messages/:messageId *)
Definition message_delete_handler (messageId : ObjectId) (ms : Messages) (p : Principal)
  : Answer * Messages :=
  match ms !! messageId with
  | None => (mkAnswer 404 "Message not found", ms)
  | Some message =>
      if negb (bool_decide (m_sender message = p_id p))
      then (mkAnswer 403 "Not authorized", ms)
      else (mkAnswer 200 "Message deleted", delete messageId ms)
  end.

Definition set_content (content : jsstring) (m : Message) : Message :=
  mkMessage (m_sender m) (m_receiver m) content (isRead m) (readAt m) (m_createdAt m).

(** PUT /api/messages/:messageId.  [isEdited] is not in the schema and is
    not stored; a content of white space only fails validation in [save]. *)
Definition message_edit_handler (messageId : ObjectId) (content : option jsstring)
    (ms : Messages) (p : Principal) : Answer * Messages :=
  match truthy content with
  | None => (mkAnswer 400 "Content is required", ms)
  | Some content =>
      match ms !! messageId with
      | None => (mkAnswer 404 "Message not found", ms)
      | Some message =>
          if negb (bool_decide (m_sender message = p_id p))
          then (mkAnswer 403 "Not authorized", ms)
          else
            let content := trim (trim content) in
            match content with
            | [] => (mkAnswer 500 "", ms)
            | _ :: _ => (mkAnswer 200 "", <[messageId := set_content content message]> ms)
            end
      end
  end.

(** DELETE /api/messages/conversations/:userId *)
Definition between (a b : ObjectId) (m : Message) : bool :=
  (bool_decide (m_sender m = a) && bool_decide (m_receiver m = b))
  || (bool_decide (m_sender m = b) && bool_decide (m_receiver m = a)).

Definition deleteMany {A} (sel : A → bool) (m : gmap ObjectId A) : gmap ObjectId A :=
  filter (λ kd, sel kd.2 = false) m.

Definition conversation_delete_handler (userId : ObjectId) (ms : Messages) (p : Principal)
  : Answer * Messages :=
  (mkAnswer 200 "Conversation deleted successfully", deleteMany (between (p_id p) userId) ms).

(** A call of one of the routes that write messages. *)
Inductive MessageCall :=
  | CallMessageSend (env : Env) (receiverId : option ObjectId) (content : option jsstring)
  | CallConversationOpen (env : Env) (query_throws : bool) (userId : ObjectId)
  | CallMessageRead (env : Env) (messageId : ObjectId)
  | CallMessageDelete (messageId : ObjectId)
  | CallMessageEdit (messageId : ObjectId) (content : option jsstring)
  | CallConversationDelete (userId : ObjectId).

Definition message_handler (c : MessageCall) (db : Db) (ms : Messages) (p : Principal)
  : Answer * Messages :=
  match c with
  | CallMessageSend env receiverId content =>
      message_send_handler env receiverId content db ms p
  | CallConversationOpen env query_throws userId =>
      conversation_open_handler env query_throws userId db ms p
  | CallMessageRead env messageId => message_read_handler env messageId ms p
  | CallMessageDelete messageId => message_delete_handler messageId ms p
  | CallMessageEdit messageId content => message_edit_handler messageId content ms p
  | CallConversationDelete userId => conversation_delete_handler userId ms p
  end.

(** Every one of them is behind [protect]. *)
Definition run_message (c : MessageCall) (token : option ObjectId) (db : Db) (ms : Messages)
  : Answer * Messages :=
  behind None (λ a, (a, ms)) (message_handler c db ms) token db.

(** The identifier the driver generates for a message that is sent; it is
    not in use. *)
Definition fresh_message (c : MessageCall) (ms : Messages) : Prop :=
  match c with
  | CallMessageSend env _ _ => ms !! fresh env 0%nat = None
  | _ => True
  end.

(** Parent 1 has written to specialist 2. *)
Definition env3 : Env := mkEnv (λ n, Pos.of_nat (300 + n)) 1700000003000 true.

Definition hello : jsstring := of_ascii " hello ".

Definition ms_hello : Messages :=
  (run_message (CallMessageSend env3 (Some specialist2) (Some hello)) (Some parent1)
     db_linked ∅).2.

Definition message300 : ObjectId := 300%positive.

(** ** Device tokens (/api/notifications/device-token) *)

Inductive Platform := PAndroid | PIos | PWeb | PUnknown.

Record DeviceToken := mkDeviceToken {
  dt_user : ObjectId;
  dt_token : jsstring;
  dt_platform : Platform;
  dt_lastSeenAt : Z
}.

(** [platform === 'android' || platform === 'ios' || platform === 'web'
     ? platform : 'unknown'] *)
Definition cleanPlatform (platform : option jsstring) : Platform :=
  if bool_decide (platform = Some (of_ascii "android")) then PAndroid
  else if bool_decide (platform = Some (of_ascii "ios")) then PIos
  else if bool_decide (platform = Some (of_ascii "web")) then PWeb
  else PUnknown.

(** The filter [{ user, token }]. *)
Definition is_token (uid : ObjectId) (t : jsstring) (d : DeviceToken) : bool :=
  bool_decide (dt_user d = uid) && bool_decide (dt_token d = t).

Definition seen (platform : Platform) (t : Z) (d : DeviceToken) : DeviceToken :=
  mkDeviceToken (dt_user d) (dt_token d) platform t.

(** [deleteOne]: the first document the filter selects goes. *)
Fixpoint delete_first {A} (sel : A → bool) (l : list A) : list A :=
  match l with
  | [] => []
  | x :: l' => if sel x then l' else x :: delete_first sel l'
  end.

(** POST /api/notifications/device-token; [token] is [None] when the body
    has none or one that is not a string.  [updateOne] with [upsert]
    updates the first document the filter selects and inserts one when
    there is none. *)
Definition device_token_register_handler (env : Env) (token platform : option jsstring)
    (tokens : list DeviceToken) (p : Principal) : Answer * list DeviceToken :=
  match token with
  | None => (mkAnswer 400 "token is required", tokens)
  | Some token =>
      match trim token with
      | [] => (mkAnswer 400 "token is required", tokens)
      | _ :: _ =>
          let cleanToken := trim token in
          let cleanPlatform := cleanPlatform platform in
          if existsb (is_token (p_id p) cleanToken) tokens
          then (mkAnswer 200 "",
                update_first (is_token (p_id p) cleanToken) (seen cleanPlatform (now env))
                  tokens)
          else (mkAnswer 200 "",
                tokens ++ [mkDeviceToken (p_id p) cleanToken cleanPlatform (now env)])
      end
  end.

Definition device_token_register (env : Env) (token platform : option jsstring)
    (auth : option ObjectId) (db : Db) (tokens : list DeviceToken)
  : Answer * list DeviceToken :=
  behind None (λ a, (a, tokens)) (device_token_register_handler env token platform tokens)
    auth db.

(** DELETE /api/notifications/device-token *)
Definition device_token_unregister_handler (token : option jsstring)
    (tokens : list DeviceToken) (p : Principal) : Answer * list DeviceToken :=
  match token with
  | None => (mkAnswer 400 "token is required", tokens)
  | Some token =>
      match trim token with
      | [] => (mkAnswer 400 "token is required", tokens)
      | _ :: _ => (mkAnswer 200 "", delete_first (is_token (p_id p) (trim token)) tokens)
      end
  end.

Definition device_token_unregister (token : option jsstring)
    (auth : option ObjectId) (db : Db) (tokens : list DeviceToken)
  : Answer * list DeviceToken :=
  behind None (λ a, (a, tokens)) (device_token_unregister_handler token tokens) auth db.

Inductive DeviceTokenCall :=
  | CallRegister (env : Env) (token platform : option jsstring)
  | CallUnregister (token : option jsstring).

Definition run_device_token (c : DeviceTokenCall) (auth : option ObjectId) (db : Db)
    (tokens : list DeviceToken) : Answer * list DeviceToken :=
  match c with
  | CallRegister env token platform => device_token_register env token platform auth db tokens
  | CallUnregister token => device_token_unregister token auth db tokens
  end.

(** The tokens after parent 1 has registered " abc " from an iPhone and
    specialist 2 the same token from an Android phone. *)
Definition tokens_two : list DeviceToken :=
  (run_device_token (CallRegister env0 (Some (of_ascii "abc")) (Some (of_ascii "android")))
     (Some specialist2) db_linked
     (run_device_token (CallRegister env0 (Some (of_ascii " abc ")) (Some (of_ascii "ios")))
        (Some parent1) db_linked []).2).2.

(** ** Sending mail (emailService) *)

(** What [transporter.sendMail] does on one call: it resolves with the
    identifier of the message, or it rejects with an error. *)
Inductive Outcome :=
  | Delivered (messageId : jsstring)
  | Rejected (error : jsstring).

(** How [sendWithRetry] ends: it resolves with the result of [sendMail], it
    rejects with "Failed to send email after [retries] attempts: [error]",
    or it falls out of the loop and resolves with [undefined]. *)
Inductive Sending :=
  | Returned (messageId : jsstring)
  | Threw (retries : Z) (error : jsstring)
  | ReturnedUndefined.

(** What it does on the way: calls of [sendMail] and timeouts it awaits. *)
Inductive MailEvent :=
  | SendMail (attempt : Z)
  | Wait (ms : Z).

(** The loop [for (let attempt = ...; attempt <= retries; attempt++)] from
    [attempt] on, [fuel] being the number of iterations that are left;
    [sendMail attempt] is the outcome of the call the iteration makes. *)
Fixpoint retry_loop (sendMail : Z → Outcome) (retries delay attempt : Z) (fuel : nat)
  : Sending * list MailEvent :=
  match fuel with
  | O => (ReturnedUndefined, [])
  | S fuel =>
      match sendMail attempt with
      | Delivered info => (Returned info, [SendMail attempt])
      | Rejected error =>
          if attempt =? retries then (Threw retries error, [SendMail attempt])
          else
            let '(r, events) := retry_loop sendMail retries delay (attempt + 1) fuel in
            (r, SendMail attempt :: Wait (delay * 2 ^ (attempt - 1)) :: events)
      end
  end.

(** [sendWithRetry(mailOptions, retries = 3, delay = 1000)] for a whole
    number of retries: the loop runs from 1 and at most [retries] times. *)
Definition sendWithRetry (sendMail : Z → Outcome) (retries delay : Z)
  : Sending * list MailEvent :=
  retry_loop sendMail retries delay 1 (Z.to_nat retries).

Definition sends (events : list MailEvent) : Z :=
  fold_right (λ e n, match e with SendMail _ => n + 1 | Wait _ => n end) 0 events.

Definition waited (events : list MailEvent) : Z :=
  fold_right (λ e n, match e with SendMail _ => n | Wait ms => n + ms end) 0 events.

(** A transport that rejects twice and then delivers. *)
Definition third_time_lucky (attempt : Z) : Outcome :=
  if attempt <? 3 then Rejected (of_ascii "ETIMEDOUT") else Delivered (of_ascii "id-1").

Definition always_down (attempt : Z) : Outcome := Rejected (of_ascii "ECONNREFUSED").

(** ** Generated identifiers (the pre-save hooks of User and Child) *)

(** [String(n)] for a whole number that is not negative: its decimal
    digits.  The recursion takes one step for each digit, which is fewer
    steps than [n + 1]. *)
Fixpoint decimal_digits (fuel : nat) (n : Z) : jsstring :=
  match fuel with
  | O => []
  | S fuel =>
      if n <? 10 then [Z.to_N (48 + n)]
      else decimal_digits fuel (n / 10) ++ [Z.to_N (48 + n mod 10)]
  end.

Definition String_of_count (n : Z) : jsstring := decimal_digits (S (Z.to_nat n)) n.

(** [String.prototype.padStart(targetLength, c)] for a padding of one
    character. *)
Definition padStart (targetLength : nat) (c : N) (s : jsstring) : jsstring :=
  repeat c (targetLength - length s) ++ s.

(** [`${prefix}-${String(count + 1).padStart(4, '0')}`] *)
Definition generated_id (prefix : jsstring) (count : Z) : jsstring :=
  prefix ++ of_ascii "-" ++ padStart 4 48%N (String_of_count (count + 1)).

Definition role_prefix (r : Role) : option jsstring :=
  match r with
  | RSpecialist => Some (of_ascii "SP")
  | RAdmin => Some (of_ascii "AD")
  | RParent => Some (of_ascii "PT")
  | RSuperadmin => None
  end.

(** The [staffId] after the pre-save hook of a user: a new specialist,
    admin or parent without one gets the next number of the role, [count]
    being the number of users of the role that have a [staffId].
    [staffId] is the field of the document, which the schema has trimmed. *)
Definition staffId_on_save (isNew : bool) (staffId : option jsstring) (role : Role)
    (count : Z) : option jsstring :=
  match truthy staffId, role_prefix role with
  | None, Some prefix => if isNew then Some (generated_id prefix count) else staffId
  | _, _ => staffId
  end.

(** The [childId] after the pre-save hook of a child, [count] being the
    number of children. *)
Definition childId_on_save (isNew : bool) (childId : option jsstring) (count : Z)
  : option jsstring :=
  match truthy childId with
  | None => if isNew then Some (generated_id (of_ascii "CH") count) else childId
  | Some _ => childId
  end.

(** * Statements *)

(** ** Linkage *)

(** Specialist [s] may accept the request: it is addressed to [s], still
    pending, and its sender is not linked to another specialist. *)
Definition acceptable (db : Db) (s requestId : ObjectId) (request : LinkRequest)
    (parent : User) : Prop :=
  (∃ su, users db !! s = Some su ∧ u_role su = RSpecialist) ∧
  linkRequests db !! requestId = Some request ∧
  lr_to request = s ∧
  lr_status request = LPending ∧
  users db !! lr_from request = Some parent ∧
  (linkedSpecialist parent = None ∨ linkedSpecialist parent = Some s).

(** Request [r'] is request [r] with status [st]: the sender, the
    addressee, the child and the message are the same. *)
Definition settled_as (st : LinkStatus) (r r' : LinkRequest) : Prop :=
  lr_status r' = st ∧ lr_from r' = lr_from r ∧ lr_to r' = lr_to r ∧
  lr_child r' = lr_child r ∧ lr_message r' = lr_message r.

(** What acceptance does to the request, to the two users and to the other
    requests of the parent: the request is accepted; the specialist lists
    the parent and the parent references the specialist; every other
    request of the parent that was pending is rejected, and every other
    request is as it was. *)
Definition link_accepted (db db' : Db) (s requestId : ObjectId) (request : LinkRequest)
  : Prop :=
  (∃ r', linkRequests db' !! requestId = Some r' ∧ settled_as LAccepted request r') ∧
  (∃ su', users db' !! s = Some su' ∧ lr_from request ∈ linkedParents su') ∧
  (∃ pu', users db' !! lr_from request = Some pu' ∧ linkedSpecialist pu' = Some s) ∧
  (∀ k r, k ≠ requestId → linkRequests db !! k = Some r →
     ∃ r', linkRequests db' !! k = Some r' ∧
           if bool_decide (lr_from r = lr_from request ∧ lr_status r = LPending)
           then settled_as LRejected r r' else r' = r) ∧
  (∀ k, linkRequests db !! k = None → linkRequests db' !! k = None).

Definition child_assigned (db' : Db) (s c : ObjectId) : Prop :=
  ∃ child', children db' !! c = Some child' ∧
            assignedSpecialist child' = Some s ∧
            specialistRequestStatus child' = SApproved.

(** The request lifecycle as the specification words it: acceptance also
    assigns the child of the request to the specialist. *)
Definition accept_assigns_child (db : Db) (s requestId : ObjectId) : Prop :=
  ∀ request parent c,
    acceptable db s requestId request parent →
    lr_child request = Some c →
    is_Some (children db !! c) →
    link_accepted db (accept_link_request requestId (Some s) db).2 s requestId request ∧
    child_assigned (accept_link_request requestId (Some s) db).2 s c.

(** The assignment invariant of a child: a specialist is referenced exactly
    when the request status is approved. *)
Definition child_consistent (c : Child) : Prop :=
  is_Some (assignedSpecialist c) ↔ specialistRequestStatus c = SApproved.

Definition assignment_invariant (db : Db) : Prop :=
  ∀ k c, children db !! k = Some c → child_consistent c.

(** Reciprocity of the link between a parent and a specialist. *)
Definition bidirectional (db : Db) : Prop :=
  ∀ P S,
    (∃ pu, users db !! P = Some pu ∧ linkedSpecialist pu = Some S) ↔
    (∃ su, users db !! S = Some su ∧ P ∈ linkedParents su).

(** In a listing the identifiers grow. *)
Definition by_id {A} (l : list (ObjectId * A)) : Prop :=
  StronglySorted (λ a b, (a.1 < b.1)%positive) l.

(** The children an unlink detaches: [found] lists, in the order of their
    identifiers, the children of parent [P] that specialist [S] is assigned
    to. *)
Definition detached (db : Db) (P S : ObjectId) (found : list (ObjectId * Child)) : Prop :=
  (∀ k c, (k, c) ∈ found ↔
          children db !! k = Some c ∧ c_parent c = P ∧ assignedSpecialist c = Some S) ∧
  by_id found.

(** The names separated by a comma and a blank. *)
Definition comma_separated (names : list jsstring) : jsstring :=
  match names with
  | [] => []
  | first :: rest => first ++ List.concat (List.map (λ n, [44; 32]%N ++ n) rest)
  end.

(** How the notification names the children: not at all when there is
    none; by their names, or by the placeholder "without names" when the
    names read as the empty string. *)
Definition names_of (found : list (ObjectId * Child)) : option jsstring :=
  match found with
  | [] => None
  | _ :: _ =>
      Some (match comma_separated (List.map (λ kd, c_name kd.2) found) with
            | [] => [1576; 1583; 1608; 1606; 32; 1571; 1587; 1605; 1575; 1569]%N
            | c :: s => c :: s
            end)
  end.

(** The store after parent [P], linked to specialist [S], has unlinked,
    [found] being the children the unlink detaches. *)
Definition unlinked (db db' : Db) (P S : ObjectId) (pu : User)
    (found : list (ObjectId * Child)) : Prop :=
  (* the parent's reference is cleared *)
  (∃ pu', users db' !! P = Some pu' ∧ linkedSpecialist pu' = None) ∧
  (* the specialist lists neither the parent nor a detached child, and
     keeps everything else *)
  (∀ su, users db !! S = Some su →
     ∃ su', users db' !! S = Some su' ∧
            (P ∉ linkedParents su') ∧
            (∀ x, x ≠ P → x ∈ linkedParents su' ↔ x ∈ linkedParents su) ∧
            (∀ k c, (k, c) ∈ found → k ∉ assignedChildren su') ∧
            (∀ k, (∀ c, (k, c) ∉ found) →
                  k ∈ assignedChildren su' ↔ k ∈ assignedChildren su)) ∧
  (* every child of the parent assigned to the specialist is unassigned
     with status none and keeps its name and its parent; no other child
     is touched *)
  (∀ k c, children db !! k = Some c →
     ∃ c', children db' !! k = Some c' ∧
           if bool_decide (c_parent c = P ∧ assignedSpecialist c = Some S)
           then assignedSpecialist c' = None ∧ specialistRequestStatus c' = SNone ∧
                c_name c' = c_name c ∧ c_parent c' = c_parent c
           else c' = c) ∧
  (∀ k, children db !! k = None → children db' !! k = None) ∧
  (* the last notification is for the specialist; it carries the
     identifiers of the children and names them *)
  notifications db' = notifications db ++
    [mkNotification S NWarning (TxtUnlinked (u_name pu) (names_of found))
       (DUnlink P (List.map fst found))].

(** ** Progress ledger *)

Local Open Scope float_scope.

(** What a number of a session counts for in a sum: nothing when it is
    missing, zero or not a number. *)
Definition counted (x : option float) : float :=
  match x with
  | Some v => if (v =? 0) || negb (v =? v) then 0 else v
  | None => 0
  end.

(** The sum of a number over the sessions, in double arithmetic, added up
    from the first session on. *)
Definition total (f : Session → option float) (ss : list Session) : float :=
  fold_left (λ sum s, sum + counted (f s)) ss 0.

(** The rollup: the number of sessions; the sums of the durations and of
    the per-session totals; the successes divided by the total and then
    multiplied by 100, or 0 when the total is not positive; the sum of the
    per-session averages divided by the number of sessions, or 0 when
    there is none. *)
Definition stats_are_fold (st : OverallStats) (ss : list Session) : Prop :=
  st_totalSessions st = number_of_nat (length ss) ∧
  st_totalPlayTime st = total duration ss ∧
  st_totalAttempts st = total totalAttempts ss ∧
  st_successRate st
  = (if 0 <? total totalAttempts ss
     then (total successfulAttempts ss / total totalAttempts ss) * 100
     else 0) ∧
  st_averageScore st
  = (match ss with
     | [] => 0
     | _ :: _ => total averageScore ss / number_of_nat (length ss)
     end).

(** A number that is NaN. *)
Definition nan (x : option float) : Prop := ∃ v, x = Some v ∧ (v =? v) = false.

Definition nan_in_attempt (a : Attempt) : Prop :=
  nan (a_pronunciationScore a) ∨ nan (a_accuracyScore a) ∨ nan (a_fluencyScore a) ∨
  nan (a_completenessScore a) ∨ nan (a_score a).

Definition nan_in_session (s : Session) : Prop :=
  nan (duration s) ∨ nan (totalAttempts s) ∨ nan (successfulAttempts s) ∨
  nan (failedAttempts s) ∨ nan (averageScore s) ∨ Exists nan_in_attempt (attempts s).

Definition nan_in_stats (st : OverallStats) : Prop :=
  nan (Some (st_totalSessions st)) ∨ nan (Some (st_totalPlayTime st)) ∨
  nan (Some (st_totalAttempts st)) ∨ nan (Some (st_successRate st)) ∨
  nan (Some (st_averageScore st)).

Local Close Scope float_scope.

(** How a property that was sent is stored: the default when it was
    absent, null when it was null, its value otherwise. *)
Definition stored_field {A} (default : A) (sent : Field A) (stored : option A) : Prop :=
  match sent with
  | Absent => stored = Some default
  | Null => stored = None
  | Given a => stored = Some a
  end.

(** An attempt and a session as they are stored: every property as it was
    sent, a missing [timestamp] or [sessionDate] being the time of the
    request and a missing counter 0. *)
Definition attempt_stored (env : Env) (a : AttemptData) (a' : Attempt) : Prop :=
  a_letter a' = ad_letter a ∧ a_word a' = ad_word a ∧ a_vowel a' = ad_vowel a ∧
  a_recognizedText a' = ad_recognizedText a ∧ a_referenceText a' = ad_referenceText a ∧
  a_pronunciationScore a' = ad_pronunciationScore a ∧
  a_accuracyScore a' = ad_accuracyScore a ∧ a_fluencyScore a' = ad_fluencyScore a ∧
  a_completenessScore a' = ad_completenessScore a ∧
  a_analysisSource a' = ad_analysisSource a ∧ a_success a' = ad_success a ∧
  a_score a' = ad_score a ∧
  stored_field (now env) (ad_timestamp a) (a_timestamp a').

Definition session_stored (env : Env) (d : SessionData) (s : Session) : Prop :=
  stored_field (now env) (sd_sessionDate d) (sessionDate s) ∧
  duration s = sd_duration d ∧
  stored_field 0%float (sd_totalAttempts d) (totalAttempts s) ∧
  stored_field 0%float (sd_successfulAttempts d) (successfulAttempts s) ∧
  stored_field 0%float (sd_failedAttempts d) (failedAttempts s) ∧
  stored_field 0%float (sd_averageScore d) (averageScore s) ∧
  Forall2 (attempt_stored env) (sd_attempts d) (attempts s).

(** The sessions stored for a child before a request. *)
Definition stored_sessions (db : Db) (childId : ObjectId) : list Session :=
  match List.find (progress_of childId) (progresses db) with
  | Some pr => sessions pr
  | None => []
  end.

(** Whether a database call the append routes make throws: the lookup,
    the creation when there is no document yet, or the save. *)
Definition throws (faults : DbFaults) (db : Db) (childId : ObjectId) : bool :=
  findOne_throws faults
  || (match List.find (progress_of childId) (progresses db) with
      | Some _ => false
      | None => create_throws faults
      end)
  || save_throws faults.

(** The ledger of the child after an append of [new]: the document of the
    child holds the sessions it had, then the new ones as they are stored;
    its statistics are the rollup of all of them; its date is that of the
    request. *)
Definition appended (env : Env) (db db' : Db) (childId : ObjectId) (new : list SessionData)
  : Prop :=
  ∃ pr added,
    List.find (progress_of childId) (progresses db') = Some pr ∧
    pr_child pr = childId ∧
    Forall2 (session_stored env) new added ∧
    sessions pr = stored_sessions db childId ++ added ∧
    stats_are_fold (overallStats pr) (sessions pr) ∧
    lastSyncDate pr = now env.

(** The cast of the append fails: a number of a session, or a statistic
    of the sessions with the new ones, is NaN. *)
Definition cast_fails (env : Env) (db : Db) (childId : ObjectId) (new : list SessionData)
  : Prop :=
  ∃ added, Forall2 (session_stored env) new added ∧
    (Exists nan_in_session (stored_sessions db childId ++ added) ∨
     ∃ st, stats_are_fold st (stored_sessions db childId ++ added) ∧ nan_in_stats st).

(** The store after an append that failed: as it was, but for an empty
    document of the child when it had none and the lookup and the creation
    went through before the failure. *)
Definition left_as_loaded (env : Env) (faults : DbFaults) (db db' : Db) (childId : ObjectId)
  : Prop :=
  users db' = users db ∧ children db' = children db ∧
  linkRequests db' = linkRequests db ∧ notifications db' = notifications db ∧
  exercises db' = exercises db ∧ broadcasts db' = broadcasts db ∧
  progresses db'
  = match List.find (progress_of childId) (progresses db) with
    | Some _ => progresses db
    | None =>
        if findOne_throws faults || create_throws faults then progresses db
        else progresses db
             ++ [mkProgress (fresh env 0%nat) childId [] (mkStats 0 0 0 0 0) (now env)]
    end.

(** What an append route does with a body ([None]: the body has no session
    object, or no array of sessions): it answers 200 or 500 and nothing
    else; 500 exactly when a database call throws, the body has nothing to
    append or the cast fails; on 200 the sessions are appended; on 500
    none is. *)
Definition append_outcome (env : Env) (faults : DbFaults) (db : Db) (childId : ObjectId)
    (body : option (list SessionData)) (ok : Msg) (r : Reply) (db' : Db) : Prop :=
  (r = mkReply 200 ok ∨ r = mkReply 500 MServerError) ∧
  (code r = 500 ↔
     throws faults db childId = true ∨ body = None ∨
     ∃ new, body = Some new ∧ cast_fails env db childId new) ∧
  (code r = 200 → ∃ new, body = Some new ∧ appended env db db' childId new) ∧
  (code r = 500 → left_as_loaded env faults db db' childId).

(** The attempts a sync sends, and whether one of them succeeded. *)
Definition attempts_sent (new : list SessionData) : list AttemptData :=
  List.concat (List.map sd_attempts new).

Definition succeeded (a : AttemptData) : bool :=
  match ad_success a with
  | Some true => true
  | _ => false
  end.

(** The rate read off the attempts: whenever a sync of sessions that hold
    ten attempts, seven of them successful, for a child without sessions
    answers 200, the rate stored is 70. *)
Definition seven_of_ten_attempts_give_70 : Prop :=
  ∀ env faults childId new token db r db' pr,
    stored_sessions db childId = [] →
    length (attempts_sent new) = 10%nat →
    length (List.filter succeeded (attempts_sent new)) = 7%nat →
    progress_sync env faults childId (Some new) token db = (r, db') →
    code r = 200 →
    List.find (progress_of childId) (progresses db') = Some pr →
    st_successRate (overallStats pr) = 70%float.

(** The rate as 100 times the successes over the total, in that order. *)
Definition rate_is_100_times_successes_over_total : Prop :=
  ∀ env faults childId new token db r db' pr,
    progress_sync env faults childId (Some new) token db = (r, db') →
    code r = 200 →
    List.find (progress_of childId) (progresses db') = Some pr →
    st_successRate (overallStats pr)
    = (if 0 <? total totalAttempts (sessions pr)
       then 100 * total successfulAttempts (sessions pr) / total totalAttempts (sessions pr)
       else 0)%float.


(** ** Content aggregate store *)

(** A string that does not start with white space. *)
Definition clean_head (s : jsstring) : Prop :=
  match s with
  | c :: _ => is_js_whitespace c = false
  | [] => True
  end.

(** No two items of a sub-collection have the same text. *)
Definition dup_free (l : list ContentItem) : Prop := NoDup (List.map ci_text l).

Definition texts_unique (db : Db) : Prop :=
  Forall (λ e, dup_free (contentWords e) ∧ dup_free (contentLetters e)) (exercises db).

(** The texts of a sub-collection of the content document of a child, in
    order; none when the child has no content document yet. *)
Definition target_texts (db : Db) (t : ContentType) (childId : ObjectId) : list jsstring :=
  match List.find (is_content_of childId) (exercises db) with
  | Some doc => List.map ci_text (targetArr t doc)
  | None => []
  end.

(** What [doc.save()] validates of a new item besides its text. *)
Definition difficulty_ok (body : ContentBody) : Prop :=
  is_Some (parse_difficulty (default (of_ascii "easy") (truthy (cb_difficulty body)))).


(** The linkage routes that write the status of a child without looking at
    its assignment. *)
Definition blind_to_assignment (c : LinkageCall) : Prop :=
  match c with
  | CallRejectChild _ | CallRequestSpecialist _ => True
  | _ => False
  end.

(** The linkage routes that write one side of a link for a parent the
    caller names, whoever that parent is linked to. *)
Definition blind_to_other_link (c : LinkageCall) : Prop :=
  match c with
  | CallLinkParent _ | CallUnlinkParent _ => True
  | _ => False
  end.

(** The two sides of the link as stored for a user, if there is one. *)
Definition ls (db : Db) (x : ObjectId) : option (option ObjectId) :=
  linkedSpecialist <$> users db !! x.

Definition lp (db : Db) (x : ObjectId) : option (list ObjectId) :=
  linkedParents <$> users db !! x.

(** The longest text a creation route lets through, by content type. *)
Definition length_limit (route : AddRoute) (t : ContentType) : option nat :=
  match route, t with
  | ContentAdd, CLetter => Some 1%nat
  | PortalContentAdd, CLetter => Some 2%nat
  | ContentAdd, CWord | PortalContentAdd, CWord => Some 20%nat
  | WordsPost, _ => None
  end.

(** * Further statements *)

(** Two requests of the same parent to the same specialist for the same
    child. *)
Definition same_triple (r1 r2 : LinkRequest) : Prop :=
  lr_from r1 = lr_from r2 ∧ lr_to r1 = lr_to r2 ∧ lr_child r1 = lr_child r2.

(** At most one pending request for a parent, a specialist and a child. *)
Definition pending_unique (db : Db) : Prop :=
  ∀ k1 k2 r1 r2,
    linkRequests db !! k1 = Some r1 → linkRequests db !! k2 = Some r2 →
    lr_status r1 = LPending → lr_status r2 = LPending →
    same_triple r1 r2 → k1 = k2.

(** What one call may do to the request stored under [k]: leave it; settle
    or delete it if it was pending; or create it, pending, under the new
    identifier when no pending request has its triple. *)
Definition request_step (c : RequestCall) (db db' : Db) (k : ObjectId) : Prop :=
  linkRequests db' !! k = linkRequests db !! k
  ∨ (∃ r, linkRequests db !! k = Some r ∧ lr_status r = LPending ∧
          (linkRequests db' !! k = None ∨
           ∃ st, st ≠ LPending ∧ linkRequests db' !! k = Some (set_lr_status st r)))
  ∨ (new_request_id c = Some k ∧ linkRequests db !! k = None ∧
     ∃ r', linkRequests db' !! k = Some r' ∧ lr_status r' = LPending ∧
           ∀ k2 r2, linkRequests db !! k2 = Some r2 → lr_status r2 = LPending →
                    ¬ same_triple r2 r').

(** The caller is a parent other than the child's, or a specialist other
    than the one the child is assigned to. *)
Definition stranger (p : Principal) (child : Child) : Prop :=
  (p_role p = RParent ∧ c_parent child ≠ p_id p) ∨
  (p_role p = RSpecialist ∧ assignedSpecialist child ≠ Some (p_id p)).

(** No child has two progress documents. *)
Definition one_progress_per_child (db : Db) : Prop :=
  NoDup (List.map pr_child (progresses db)).




(** Latest first, for the items of a listing. *)
Definition newest_first (l : list LegacyItem) : Prop :=
  StronglySorted (λ a b, li_createdAt b ≤ li_createdAt a) l.

(** [doc] is the content document of the child: the first document of the
    collection that is for the child and of kind content. *)
Definition content_document (db : Db) (childId : ObjectId) (doc : Exercise) : Prop :=
  ∃ before after,
    exercises db = before ++ doc :: after ∧
    e_child doc = childId ∧ e_kind doc = KContent ∧
    ∀ e, e ∈ before → ¬ (e_child e = childId ∧ e_kind e = KContent).

(** An item of type [t] of the child as a listing shows it. *)
Definition shown_as (t : ContentType) (childId : ObjectId) (item : ContentItem)
  : LegacyItem :=
  mkLegacyItem (ci_id item) (ci_text item) t (ci_difficulty item) (ci_image item) childId
    (ci_createdBy item) (ci_createdAt item).

(** What a call by user [uid] may do to a stored message [m]: the sender,
    the receiver and the date stay; only the sender changes the content;
    only the receiver changes the reading marks, and only to read; the
    message goes only when one of its two parties is the caller. *)
Definition message_step (uid : ObjectId) (m : Message) (after : option Message) : Prop :=
  match after with
  | Some m' =>
      m_sender m' = m_sender m ∧ m_receiver m' = m_receiver m ∧
      m_createdAt m' = m_createdAt m ∧
      (m_content m' ≠ m_content m → uid = m_sender m) ∧
      ((isRead m' ≠ isRead m ∨ readAt m' ≠ readAt m) → uid = m_receiver m) ∧
      (isRead m = true → isRead m' = true)
  | None => uid = m_sender m ∨ uid = m_receiver m
  end.

(** The key of the unique index of the device tokens. *)
Definition token_key (d : DeviceToken) : ObjectId * jsstring := (dt_user d, dt_token d).

Definition tokens_unique (tokens : list DeviceToken) : Prop :=
  NoDup (List.map token_key tokens).
(** * Properties *)

(** ** The middleware *)

Lemma protect_user uid u db :
  users db !! uid = Some u → protect (Some uid) db = Some (mkPrincipal uid (u_role u)).
Proof. intros H. unfold protect. by rewrite H. Qed.

Lemma protected_user h uid u db :
  users db !! uid = Some u → protected h (Some uid) db = h (mkPrincipal uid (u_role u)) db.
Proof. intros H. unfold protected. by rewrite (protect_user _ _ _ H). Qed.

Lemma authorized_user roles h uid u db :
  users db !! uid = Some u → u_role u ∈ roles →
  authorized roles h (Some uid) db = h (mkPrincipal uid (u_role u)) db.
Proof.
  intros H Hr. unfold authorized. rewrite (protected_user _ _ _ _ H).
  unfold authorize. simpl. by rewrite bool_decide_eq_true_2.
Qed.

(** ** Update operators *)

Lemma elem_of_addToSet x y l : y ∈ addToSet x l ↔ y = x ∨ y ∈ l.
Proof.
  unfold addToSet. case_bool_decide as Hx.
  - split; [by right |]. by intros [-> | ?].
  - rewrite elem_of_app, list_elem_of_singleton. tauto.
Qed.

Lemma elem_of_pull x y l : y ∈ pull x l ↔ y ≠ x ∧ y ∈ l.
Proof.
  unfold pull. rewrite !list_elem_of_In, filter_In, negb_true_iff, bool_decide_eq_false.
  tauto.
Qed.

Lemma elem_of_pullAll xs y l : y ∈ pullAll xs l ↔ (y ∉ xs) ∧ y ∈ l.
Proof.
  unfold pullAll. rewrite (list_elem_of_In (List.filter _ _) y), filter_In, negb_true_iff,
    bool_decide_eq_false, (list_elem_of_In l y). tauto.
Qed.

Lemma lookup_updateMany {A} sel (f : A → A) (m : gmap ObjectId A) k :
  updateMany sel f m !! k = (λ d, if sel k d then f d else d) <$> m !! k.
Proof. unfold updateMany. rewrite map_lookup_imap. by destruct (m !! k). Qed.

Lemma insert_by_id_Permutation {A} (x : ObjectId * A) l : insert_by_id x l ≡ₚ x :: l.
Proof.
  induction l as [|y l IH]; simpl; [done|].
  destruct (x.1 <? y.1)%positive; [done|]. rewrite IH. apply perm_swap.
Qed.

Lemma documents_Permutation {A} (m : gmap ObjectId A) : documents m ≡ₚ map_to_list m.
Proof.
  unfold documents. induction (map_to_list m) as [|x l IH]; simpl; [done|].
  rewrite insert_by_id_Permutation. by constructor.
Qed.

Lemma insert_by_id_sorted {A} (x : ObjectId * A) l :
  by_id l → (∀ y, y ∈ l → y.1 ≠ x.1) → by_id (insert_by_id x l).
Proof.
  destruct x as [kx dx]. unfold by_id.
  induction 1 as [|[ky dy] l Hl IH Hy]; intros Hne; simpl in *.
  - repeat constructor.
  - destruct (kx <? ky)%positive eqn:E;
      [apply Pos.ltb_lt in E as Hlt | apply Pos.ltb_ge in E as Hge].
    + constructor; [by constructor|]. constructor; [done|].
      eapply Forall_impl; [exact Hy|]. simpl. lia.
    + constructor.
      * apply IH. intros z Hz. apply Hne. by right.
      * apply Forall_forall. intros z Hz.
        rewrite (insert_by_id_Permutation (kx, dx) l) in Hz.
        apply elem_of_cons in Hz as [-> | Hz].
        -- assert (ky ≠ kx) by (apply (Hne (ky, dy)); by left). simpl. lia.
        -- rewrite Forall_forall in Hy. by apply Hy.
Qed.

Lemma documents_sorted {A} (m : gmap ObjectId A) : by_id (documents m).
Proof.
  unfold documents. pose proof (NoDup_fst_map_to_list m) as Hnd.
  induction (map_to_list m) as [|x l IH]; simpl; [constructor|].
  simpl in Hnd. apply NoDup_cons in Hnd as [Hx Hnd].
  apply insert_by_id_sorted; [by apply IH|].
  intros y Hy Heq. apply Hx. rewrite <- Heq.
  assert (fold_right insert_by_id [] l ≡ₚ l) as Hp.
  { clear. induction l as [|z l IH]; simpl; [done|].
    rewrite insert_by_id_Permutation. by constructor. }
  rewrite Hp in Hy. by apply list_elem_of_fmap_2.
Qed.

Lemma by_id_filter {A} (f : ObjectId * A → bool) l : by_id l → by_id (List.filter f l).
Proof.
  unfold by_id. induction 1 as [|y l Hl IH Hy]; simpl; [constructor|].
  destruct (f y); [|done]. constructor; [done|].
  apply Forall_forall. intros z Hz. apply list_elem_of_In, filter_In in Hz as [Hz _].
  rewrite Forall_forall in Hy. by apply Hy, list_elem_of_In.
Qed.

Lemma find_docs_sorted {A} sel (m : gmap ObjectId A) : by_id (find_docs sel m).
Proof. apply by_id_filter, documents_sorted. Qed.

Lemma elem_of_find_docs {A} sel (m : gmap ObjectId A) k d :
  (k, d) ∈ find_docs sel m ↔ m !! k = Some d ∧ sel k d = true.
Proof.
  unfold find_docs. rewrite list_elem_of_In, filter_In, <- list_elem_of_In.
  rewrite documents_Permutation, elem_of_map_to_list. reflexivity.
Qed.

Lemma elem_of_find_ids {A} sel (m : gmap ObjectId A) k :
  k ∈ List.map fst (find_docs sel m) ↔ ∃ d, m !! k = Some d ∧ sel k d = true.
Proof.
  rewrite list_elem_of_In, in_map_iff. split.
  - intros ([k' d] & <- & Hin). exists d. by apply elem_of_find_docs, list_elem_of_In.
  - intros (d & Hk & Hs). exists (k, d). split; [done|].
    by apply list_elem_of_In, elem_of_find_docs.
Qed.

(** ** Accepting a link request *)

(** C1 (as amended).  When a specialist accepts a pending link request that
    is addressed to them, from a parent who is not linked to another
    specialist, the route answers 200, sets the request to accepted, adds
    the parent to the specialist's [linkedParents], sets the parent's
    [linkedSpecialist] to the specialist, rejects every other pending
    request of that parent and leaves all other requests as they were.
    No child document is written. *)
Theorem accept_link_request_links_parent db s requestId request parent :
  acceptable db s requestId request parent →
  ∃ db', accept_link_request requestId (Some s) db
           = (mkReply 200 MLinkRequestAccepted, db') ∧
         link_accepted db db' s requestId request ∧
         children db' = children db.
Proof.
  intros ((su & Hs & Hrole) & Hreq & Hto & Hst & Hp & Hlink).
  unfold accept_link_request.
  rewrite (authorized_user _ _ _ _ _ Hs) by (rewrite Hrole; apply list_elem_of_here).
  unfold accept_link_request_handler. simpl p_id. rewrite Hreq.
  rewrite (bool_decide_eq_true_2 _ Hto), (bool_decide_eq_true_2 _ Hst). simpl negb.
  cbv iota. rewrite Hp.
  assert (match linkedSpecialist parent with
          | Some s0 => negb (bool_decide (s0 = s))
          | None => false end = false) as ->.
  { destruct Hlink as [-> | ->]; [done|]. by rewrite bool_decide_eq_true_2. }
  cbv zeta. unfold reply. eexists. split; [reflexivity|].
  set (from := lr_from request).
  assert (lr_from (set_lr_status LAccepted request) = from) as Hfrom by done.
  rewrite Hfrom.
  match goal with
  | |- context [match ?x with Some sp => with_notifications (@?f sp) ?d | None => _ end] =>
      set (dbn := match x with Some sp => with_notifications (f sp) d | None => d end);
      assert (users dbn = users d ∧ children dbn = children d
              ∧ linkRequests dbn = linkRequests d) as (Hu & Hc & Hl)
        by (subst dbn; destruct x; done)
  end.
  unfold link_accepted. simpl. rewrite Hu, Hc, Hl. simpl. unfold findByIdAndUpdate.
  split; [|done]. split; [|split; [|split; [|split]]].
  - rewrite lookup_updateMany, lookup_insert_eq. simpl. unfold other_pending_from.
    rewrite (bool_decide_eq_true_2 (requestId = requestId)), andb_false_r by done.
    eexists. split; [reflexivity|]. by repeat split.
  - rewrite lookup_alter. case_decide as Hfs.
    + rewrite lookup_alter, decide_True by done. rewrite Hs. simpl.
      eexists. split; [reflexivity|]. simpl. apply elem_of_addToSet. by left.
    + rewrite lookup_alter, decide_True by done. rewrite Hs. simpl.
      eexists. split; [reflexivity|]. simpl. apply elem_of_addToSet. by left.
  - rewrite lookup_alter, decide_True by done. rewrite lookup_alter.
    case_decide as Hfs.
    + rewrite Hs. simpl. eexists. by split.
    + fold from in Hp. rewrite Hp. simpl. eexists. by split.
  - intros k r Hk Hr. rewrite lookup_updateMany, lookup_insert_ne by done.
    rewrite Hr. simpl. eexists. split; [reflexivity|]. unfold other_pending_from.
    rewrite (bool_decide_eq_false_2 (k = requestId)) by done. simpl.
    rewrite andb_true_r.
    repeat case_bool_decide; simpl; try tauto; by repeat split.
  - intros k Hk. rewrite lookup_updateMany.
    destruct (decide (k = requestId)) as [->|Hne]; [congruence|].
    by rewrite lookup_insert_ne, Hk.
Qed.

Lemma db_requested_acceptable :
  acceptable db_requested specialist2 request100
    (mkLinkRequest parent1 specialist2 LPending (Some child10) [])
    (mkUser (of_ascii "Huda") RParent [] None []).
Proof.
  split; [eexists; split; [vm_compute; reflexivity | reflexivity]|].
  split; [vm_compute; reflexivity|].
  split; [reflexivity|]. split; [reflexivity|].
  split; [vm_compute; reflexivity|]. by left.
Defined.

Lemma accept_link_request_links_parent_witness :
  acceptable db_requested specialist2 request100
    (mkLinkRequest parent1 specialist2 LPending (Some child10) [])
    (mkUser (of_ascii "Huda") RParent [] None []) ∧
  (∃ db', accept_link_request request100 (Some specialist2) db_requested
            = (mkReply 200 MLinkRequestAccepted, db') ∧
          link_accepted db_requested db' specialist2 request100
            (mkLinkRequest parent1 specialist2 LPending (Some child10) []) ∧
          children db' = children db_requested) ∧
  linkRequests (accept_link_request request100 (Some specialist2) db_requested).2
    !! request100
    = Some (mkLinkRequest parent1 specialist2 LAccepted (Some child10) []) ∧
  linkRequests (accept_link_request request100 (Some specialist2) db_requested).2
    !! request200
    = Some (mkLinkRequest parent1 specialist3 LRejected (Some child11) []) ∧
  users (accept_link_request request100 (Some specialist2) db_requested).2 !! specialist2
    = Some (mkUser (of_ascii "Sami") RSpecialist [] None [parent1]) ∧
  users (accept_link_request request100 (Some specialist2) db_requested).2 !! parent1
    = Some (mkUser (of_ascii "Huda") RParent [] (Some specialist2) []).
Proof.
  split; [exact db_requested_acceptable|]. split.
  - exact (accept_link_request_links_parent _ _ _ _ _ db_requested_acceptable).
  - repeat split; vm_compute; reflexivity.
Defined.

(** C1, counterexample.  Parent 1 sends a request for child 10 to
    specialist 2; the specialist accepts it and the route answers 200, yet
    child 10 is still unassigned and pending. *)
Lemma accept_link_request_leaves_child_pending :
  (accept_link_request request100 (Some specialist2) db_requested).1
    = mkReply 200 MLinkRequestAccepted ∧
  children (accept_link_request request100 (Some specialist2) db_requested).2 !! child10
    = Some (mkChild (of_ascii "Ali") parent1 None SPending) ∧
  ¬ accept_assigns_child db_requested specialist2 request100.
Proof.
  split; [vm_compute; reflexivity|]. split; [vm_compute; reflexivity|].
  intros H.
  destruct (H _ _ child10 db_requested_acceptable) as [_ (c' & Hc & Ha & _)].
  - reflexivity.
  - eexists. vm_compute. reflexivity.
  - vm_compute in Hc. injection Hc as <-. discriminate Ha.
Qed.

(** ** The assignment invariant *)

(** Splits a lookup in a store that is written out as a chain of inserts. *)
Ltac split_lookup H :=
  repeat (apply lookup_insert_Some in H as [[<- <-] | [? H]]);
  try (rewrite lookup_empty in H; discriminate H).

Lemma db_linked_assignment_invariant : assignment_invariant db_linked.
Proof.
  intros k c H. unfold db_linked in H. simpl in H.
  split_lookup H; (split; [reflexivity | intros _; by eexists]).
Qed.

(** C2, the failing input.  Child 10 is approved and assigned to specialist
    2.  Any specialist may call reject-child on it: the route answers 200
    and sets the status to rejected without looking at the current status
    and without clearing the reference, so the child is left with a
    specialist and a status other than approved.  The parent's
    request-specialist does the same with status pending. *)
Theorem reject_child_leaves_dangling_assignment :
  assignment_invariant db_linked ∧
  (reject_child child10 (Some specialist3) db_linked).1 = mkReply 200 MChildRejected ∧
  children (reject_child child10 (Some specialist3) db_linked).2 !! child10
    = Some (mkChild (of_ascii "Ali") parent1 (Some specialist2) SRejected) ∧
  ¬ assignment_invariant (reject_child child10 (Some specialist3) db_linked).2 ∧
  (request_specialist child10 (Some parent1) db_linked).1 = mkReply 200 MRequestSubmitted ∧
  children (request_specialist child10 (Some parent1) db_linked).2 !! child10
    = Some (mkChild (of_ascii "Ali") parent1 (Some specialist2) SPending) ∧
  ¬ assignment_invariant (request_specialist child10 (Some parent1) db_linked).2.
Proof.
  assert (∀ db st, children db !! child10
            = Some (mkChild (of_ascii "Ali") parent1 (Some specialist2) st) →
          st ≠ SApproved → ¬ assignment_invariant db) as Hbreak.
  { intros db st Hc Hst Hinv. destruct (Hinv _ _ Hc) as [Hdir _].
    apply Hst, Hdir. by eexists. }
  assert (children (reject_child child10 (Some specialist3) db_linked).2 !! child10
          = Some (mkChild (of_ascii "Ali") parent1 (Some specialist2) SRejected)) as Hrej
    by (vm_compute; reflexivity).
  assert (children (request_specialist child10 (Some parent1) db_linked).2 !! child10
          = Some (mkChild (of_ascii "Ali") parent1 (Some specialist2) SPending)) as Hreq
    by (vm_compute; reflexivity).
  split; [exact db_linked_assignment_invariant|].
  split; [vm_compute; reflexivity|]. split; [exact Hrej|].
  split; [by apply (Hbreak _ _ Hrej)|].
  split; [vm_compute; reflexivity|]. split; [exact Hreq|].
  by apply (Hbreak _ _ Hreq).
Qed.

(** ** Reciprocity of the parent-specialist link *)

Lemma db_linked_bidirectional : bidirectional db_linked.
Proof.
  intros P S. unfold db_linked. simpl. split.
  - intros (pu & H & Hl). split_lookup H; try discriminate Hl.
    injection Hl as <-. eexists. split; [reflexivity|]. simpl. apply list_elem_of_here.
  - intros (su & H & Hl). split_lookup H; simpl in Hl;
      try (apply elem_of_nil in Hl; contradiction).
    apply list_elem_of_singleton in Hl as ->. eexists. split; reflexivity.
Qed.

(** C3, the failing input.  Parent 1 and specialist 2 reference each other.
    Specialist 3 calls link-parent for parent 1: the route answers 200,
    the parent now references specialist 3, and specialist 2 still lists the
    parent.  If specialist 3 calls unlink-parent for parent 1 instead, the
    parent references nobody and specialist 2 still lists the parent. *)
Theorem link_parent_breaks_reciprocity :
  bidirectional db_linked ∧
  (link_parent (Some parent1) (Some specialist3) db_linked).1 = mkReply 200 MParentLinked ∧
  ls (link_parent (Some parent1) (Some specialist3) db_linked).2 parent1
    = Some (Some specialist3) ∧
  lp (link_parent (Some parent1) (Some specialist3) db_linked).2 specialist2
    = Some [parent1] ∧
  ¬ bidirectional (link_parent (Some parent1) (Some specialist3) db_linked).2 ∧
  (unlink_parent parent1 (Some specialist3) db_linked).1 = mkReply 200 MParentUnlinked ∧
  ls (unlink_parent parent1 (Some specialist3) db_linked).2 parent1 = Some None ∧
  lp (unlink_parent parent1 (Some specialist3) db_linked).2 specialist2 = Some [parent1] ∧
  ¬ bidirectional (unlink_parent parent1 (Some specialist3) db_linked).2.
Proof.
  assert (∀ db s, ls db parent1 = Some s → s ≠ Some specialist2 →
          lp db specialist2 = Some [parent1] → ¬ bidirectional db) as Hbreak.
  { unfold ls, lp. intros db s H1 Hs H2 Hinv.
    destruct (Hinv parent1 specialist2) as [_ Hback].
    destruct Hback as (pu & Hpu & Hl).
    - destruct (users db !! specialist2) as [su|]; [|discriminate H2].
      injection H2 as H2. exists su. split; [reflexivity|]. rewrite H2.
      apply list_elem_of_here.
    - rewrite Hpu in H1. simpl in H1. rewrite Hl in H1. by injection H1 as <-. }
  assert (ls (link_parent (Some parent1) (Some specialist3) db_linked).2 parent1
          = Some (Some specialist3)) as H1 by (vm_compute; reflexivity).
  assert (lp (link_parent (Some parent1) (Some specialist3) db_linked).2 specialist2
          = Some [parent1]) as H2 by (vm_compute; reflexivity).
  assert (ls (unlink_parent parent1 (Some specialist3) db_linked).2 parent1 = Some None)
    as H3 by (vm_compute; reflexivity).
  assert (lp (unlink_parent parent1 (Some specialist3) db_linked).2 specialist2
          = Some [parent1]) as H4 by (vm_compute; reflexivity).
  split; [exact db_linked_bidirectional|].
  split; [vm_compute; reflexivity|]. split; [exact H1|]. split; [exact H2|].
  split; [by apply (Hbreak _ _ H1)|].
  split; [vm_compute; reflexivity|]. split; [exact H3|]. split; [exact H4|].
  by apply (Hbreak _ _ H3).
Qed.

(** ** The unlink cascade *)

Lemma pullAll_nil l : pullAll [] l = l.
Proof.
  unfold pullAll. induction l as [|x l IH]; [done|].
  cbn [List.filter]. rewrite IH.
  by rewrite (bool_decide_eq_false_2 (x ∈ [])) by apply not_elem_of_nil.
Qed.

Lemma detach_children_users ids S db x :
  users (detach_children ids S db) !! x =
    if decide (x = S) then upd_assignedChildren (pullAll ids) <$> users db !! x
    else users db !! x.
Proof.
  destruct ids as [|i ids].
  - simpl. case_decide; [|done]. destruct (users db !! x) as [[]|]; [|done].
    simpl. unfold upd_assignedChildren. simpl. by rewrite pullAll_nil.
  - unfold detach_children, findByIdAndUpdate. simpl. rewrite lookup_alter.
    case_decide; case_decide; congruence.
Qed.

Lemma detach_children_children ids S db k :
  children (detach_children ids S db) !! k =
    (λ c, if bool_decide (k ∈ ids) then set_assignment None SNone c else c)
      <$> children db !! k.
Proof.
  destruct ids as [|i ids].
  - simpl. by destruct (children db !! k).
  - unfold detach_children. simpl. by rewrite lookup_updateMany.
Qed.

Lemma detach_children_notifications ids S db :
  notifications (detach_children ids S db) = notifications db.
Proof. by destruct ids. Qed.

Lemma find_docs_detached db P S : detached db P S (find_docs (assigned_child_of P S) (children db)).
Proof.
  split; [|apply find_docs_sorted].
  intros k c. rewrite elem_of_find_docs. unfold assigned_child_of.
  rewrite andb_true_iff, !bool_decide_eq_true. tauto.
Qed.

Lemma join_names_comma_separated l : join_names l = comma_separated l.
Proof.
  induction l as [|x l IH]; [done|]. destruct l as [|y l].
  - simpl. by rewrite app_nil_r.
  - change (join_names (x :: y :: l)) with (x ++ [44%N; 32%N] ++ join_names (y :: l)).
    rewrite IH. done.
Qed.

Lemma unlink_text_names pn (found : list (ObjectId * Child)) :
  unlink_text pn (List.map fst found) (join_names (List.map (λ kd, c_name kd.2) found))
  = TxtUnlinked pn (names_of found).
Proof.
  unfold unlink_text, names_of. rewrite join_names_comma_separated.
  destruct found as [|kd found]; [done|]. simpl List.map. cbv iota.
  unfold or_no_names. by destruct (comma_separated _).
Qed.

(** C4.  When a parent linked to specialist [S] unlinks, the route answers
    200 with the number of detached children; the parent's
    [linkedSpecialist] is cleared; [S] no longer lists the parent in
    [linkedParents] nor any detached child in [assignedChildren], and keeps
    its other entries; every child of the parent assigned to [S] gets
    [assignedSpecialist = null] and status none, and no other child
    changes; the last notification created is for [S], carries the
    identifiers of the detached children in the order of the listing and,
    when there are any, their names separated by commas. *)
Theorem unlink_specialist_cascade db P S pu :
  users db !! P = Some pu →
  u_role pu = RParent →
  linkedSpecialist pu = Some S →
  ∃ db' found,
    detached db P S found ∧
    unlink_specialist (Some P) db = (mkReply 200 (MUnlinked (length found)), db') ∧
    unlinked db db' P S pu found.
Proof.
  intros Hp Hrole Hlink. unfold unlink_specialist.
  rewrite (authorized_user _ _ _ _ _ Hp) by (rewrite Hrole; apply list_elem_of_here).
  unfold unlink_specialist_handler. simpl p_id. rewrite Hp, Hlink. cbv zeta.
  pose proof (find_docs_detached db P S) as Hdet.
  set (found := find_docs (assigned_child_of P S) (children db)) in *.
  assert (∀ k, k ∈ List.map fst found ↔
               ∃ c, children db !! k = Some c ∧ c_parent c = P
                    ∧ assignedSpecialist c = Some S) as Hids.
  { intros k. rewrite list_elem_of_In, in_map_iff. destruct Hdet as [Hdet _]. split.
    - intros ([k' c] & <- & Hin). exists c. by apply Hdet, list_elem_of_In.
    - intros (c & Hc). exists (k, c). split; [done|]. by apply list_elem_of_In, Hdet. }
  unfold reply. eexists. exists found. split; [exact Hdet|].
  rewrite length_map. split; [reflexivity|].
  unfold unlinked. simpl.
  rewrite detach_children_notifications. simpl.
  split; [|split; [|split; [|split]]].
  - rewrite detach_children_users. simpl. unfold findByIdAndUpdate.
    destruct (decide (P = S)) as [<-|HPS].
    + rewrite lookup_alter, decide_True, lookup_insert_eq by done.
      simpl. eexists. split; reflexivity.
    + rewrite lookup_alter, decide_False, lookup_insert_eq by done.
      eexists. split; reflexivity.
  - intros su Hs. rewrite detach_children_users, decide_True by done. simpl.
    unfold findByIdAndUpdate. rewrite lookup_alter, decide_True by done.
    assert (∃ u0, <[P:=set_linkedSpecialist None pu]> (users db) !! S = Some u0 ∧
                  linkedParents u0 = linkedParents su ∧
                  assignedChildren u0 = assignedChildren su) as (u0 & -> & HL & HA).
    { destruct (decide (P = S)) as [->|Hne].
      - rewrite lookup_insert_eq. eexists. split; [done|]. simpl.
        rewrite Hp in Hs. by injection Hs as ->.
      - rewrite lookup_insert_ne by done. eauto. }
    simpl. eexists. split; [reflexivity|]. simpl. rewrite HL, HA.
    split; [|split; [|split]].
    + rewrite elem_of_pull. tauto.
    + intros x Hx. rewrite elem_of_pull. tauto.
    + intros k c Hk. rewrite elem_of_pullAll. intros [Hnot _]. apply Hnot.
      apply list_elem_of_In, in_map_iff. exists (k, c). split; [done|].
      by apply list_elem_of_In.
    + intros k Hk. rewrite elem_of_pullAll. split; [tauto|]. intros Hin.
      split; [|done]. intros ([k' c] & Heq & Hc)%list_elem_of_In%in_map_iff.
      simpl in Heq. subst k'. by apply (Hk c), list_elem_of_In.
  - intros k c Hc. rewrite detach_children_children. simpl. rewrite Hc. simpl.
    eexists. split; [reflexivity|].
    assert (bool_decide (k ∈ List.map fst found)
            = bool_decide (c_parent c = P ∧ assignedSpecialist c = Some S)) as ->.
    { apply bool_decide_ext. rewrite Hids. split.
      - intros (c' & Hc' & H1 & H2). rewrite Hc in Hc'. by injection Hc' as <-.
      - intros [H1 H2]. by exists c. }
    by case_bool_decide.
  - intros k Hk. rewrite detach_children_children. simpl. by rewrite Hk.
  - by rewrite unlink_text_names.
Qed.

Lemma unlink_specialist_cascade_witness :
  users db_linked !! parent1 = Some (mkUser (of_ascii "Huda") RParent [] (Some specialist2) []) ∧
  (∃ db' found,
     detached db_linked parent1 specialist2 found ∧
     unlink_specialist (Some parent1) db_linked
       = (mkReply 200 (MUnlinked (length found)), db') ∧
     unlinked db_linked db' parent1 specialist2
       (mkUser (of_ascii "Huda") RParent [] (Some specialist2) []) found) ∧
  (unlink_specialist (Some parent1) db_linked).1 = mkReply 200 (MUnlinked 2) ∧
  children (unlink_specialist (Some parent1) db_linked).2 !! child10
    = Some (mkChild (of_ascii "Ali") parent1 None SNone) ∧
  children (unlink_specialist (Some parent1) db_linked).2 !! child11
    = Some (mkChild (of_ascii "Mona") parent1 None SNone) ∧
  users (unlink_specialist (Some parent1) db_linked).2 !! specialist2
    = Some (mkUser (of_ascii "Sami") RSpecialist [] None []) ∧
  notifications (unlink_specialist (Some parent1) db_linked).2
    = [mkNotification specialist2 NWarning
         (TxtUnlinked (of_ascii "Huda") (Some (of_ascii "Ali, Mona")))
         (DUnlink parent1 [child10; child11])].
Proof.
  split; [reflexivity|]. split.
  - exact (unlink_specialist_cascade db_linked parent1 specialist2
             (mkUser (of_ascii "Huda") RParent [] (Some specialist2) [])
             eq_refl eq_refl eq_refl).
  - repeat split; vm_compute; reflexivity.
Defined.

(** ** Routes that keep the assignment invariant *)

Lemma authorized_preserves (P : Db → Prop) roles h token db :
  P db → (∀ p, P (h p db).2) → P (authorized roles h token db).2.
Proof.
  intros H0 Hh. unfold authorized, protected.
  destruct (protect token db) as [p|]; [|done].
  destruct (authorize roles p); [apply Hh | done].
Qed.

Lemma assignment_invariant_insert db k c :
  assignment_invariant db → child_consistent c →
  assignment_invariant (with_children (insert k c) db).
Proof.
  intros Hinv Hc k' c'. simpl. rewrite lookup_insert.
  case_decide; [by intros [= <-] | apply Hinv].
Qed.

Lemma assignment_invariant_same db db' :
  children db' = children db → assignment_invariant db → assignment_invariant db'.
Proof. unfold assignment_invariant. by intros ->. Qed.

Lemma accept_child_keeps_assignments childId p db :
  assignment_invariant db → assignment_invariant (accept_child_handler childId p db).2.
Proof.
  intros Hinv. unfold accept_child_handler.
  destruct (children db !! childId) as [child|]; [|done].
  destruct (negb _); [done|]. simpl.
  intros k c. simpl. rewrite lookup_insert.
  case_decide; [|apply Hinv]. intros [= <-].
  split; [done | intros _; by eexists].
Qed.

Lemma send_link_request_keeps_assignments env body p db :
  assignment_invariant db →
  assignment_invariant (send_link_request_handler env body p db).2.
Proof.
  intros Hinv. unfold send_link_request_handler.
  destruct (b_specialistId body) as [specialistId|]; [|done].
  destruct (b_childId_opt body) as [childId|]; [|done].
  destruct (users db !! specialistId) as [specialist|]; [|done].
  destruct (negb _); [done|].
  destruct (children db !! childId) as [child|]; [|done].
  destruct (negb _); [done|].
  case_bool_decide as Hassigned; [done|].
  destruct (existsb _ _); [done|].
  destruct (_ <? _)%nat; [done|]. simpl.
  intros k c. simpl. rewrite lookup_insert.
  case_decide; [|apply Hinv]. intros [= <-].
  split; [|done]. intros Hs. by destruct Hassigned.
Qed.

Lemma unlink_specialist_keeps_assignments p db :
  assignment_invariant db → assignment_invariant (unlink_specialist_handler p db).2.
Proof.
  intros Hinv. unfold unlink_specialist_handler.
  destruct (users db !! p_id p) as [parent|]; [|done].
  destruct (linkedSpecialist parent) as [specialistId|]; [|done]. simpl.
  intros k c. simpl. rewrite detach_children_children. simpl.
  destruct (children db !! k) as [c0|] eqn:Hc0; [|done]. simpl.
  intros [= <-]. case_bool_decide; [|by apply (Hinv k)].
  split; [by intros [? [=]] | done].
Qed.

Lemma other_linkage_routes_keep_children c token db :
  match c with
  | CallLinkParent _ | CallUnlinkParent _ | CallAcceptLinkRequest _
  | CallRejectLinkRequest _ => children (run_linkage c token db).2 = children db
  | _ => True
  end.
Proof.
  destruct c; try done; simpl;
    [unfold link_parent | unfold unlink_parent | unfold accept_link_request
     | unfold reject_link_request];
    apply (authorized_preserves (λ d, children d = children db)); try done; intros p.
  - unfold link_parent_handler. destruct parentId as [parentId|]; [|done].
    destruct (users db !! parentId); [|done]. destruct (negb _); [done|].
    destruct (users db !! p_id p); [|done]. by destruct (bool_decide _).
  - unfold accept_link_request_handler.
    destruct (linkRequests db !! requestId) as [request|]; [|done].
    destruct (negb _); [done|]. destruct (negb _); [done|].
    destruct (users db !! lr_from request) as [parent|]; [|done].
    destruct (match linkedSpecialist parent with Some _ => _ | None => _ end); [done|].
    cbv zeta. simpl.
    match goal with |- context [match ?x with Some _ => _ | None => _ end] =>
      by destruct x end.
  - unfold reject_link_request_handler.
    destruct (linkRequests db !! requestId) as [request|]; [|done].
    destruct (negb _); [done|]. by destruct (negb _).
Qed.

(** Every linkage route except reject-child and request-specialist keeps
    the assignment invariant: if [assignedSpecialist] is non-null exactly
    for the approved children before the call, it is so after it, whoever
    calls and whatever the reply. *)
Theorem assignment_invariant_preserved c token db :
  ¬ blind_to_assignment c →
  assignment_invariant db →
  assignment_invariant (run_linkage c token db).2.
Proof.
  intros Hc Hinv.
  pose proof (other_linkage_routes_keep_children c token db) as Hsame.
  destruct c; simpl in *; try (by destruct Hc);
    try (by apply (assignment_invariant_same db)).
  - apply (authorized_preserves assignment_invariant); [done|]. intros p.
    by apply accept_child_keeps_assignments.
  - apply (authorized_preserves assignment_invariant); [done|]. intros p.
    by apply send_link_request_keeps_assignments.
  - apply (authorized_preserves assignment_invariant); [done|]. intros p.
    by apply unlink_specialist_keeps_assignments.
Qed.

Lemma assignment_invariant_preserved_witness :
  assignment_invariant db_linked ∧
  assignment_invariant (run_linkage CallUnlinkSpecialist (Some parent1) db_linked).2.
Proof.
  split; [exact db_linked_assignment_invariant|].
  apply (assignment_invariant_preserved CallUnlinkSpecialist (Some parent1) db_linked).
  - intros [].
  - exact db_linked_assignment_invariant.
Defined.

(** ** Routes that keep the link reciprocal *)

Lemma bidirectional_alt db :
  bidirectional db ↔
  ∀ x y, ls db x = Some (Some y) ↔ ∃ l, lp db y = Some l ∧ x ∈ l.
Proof.
  unfold bidirectional, ls, lp.
  assert (∀ x y, (∃ pu, users db !! x = Some pu ∧ linkedSpecialist pu = Some y)
                 ↔ linkedSpecialist <$> users db !! x = Some (Some y)) as H1.
  { intros x y. destruct (users db !! x) as [pu|]; simpl.
    - split; [intros (? & [= <-] & ->); done | intros [= ?]; eauto].
    - split; [by intros (? & ? & _) | done]. }
  assert (∀ x y, (∃ su, users db !! y = Some su ∧ x ∈ linkedParents su)
                 ↔ ∃ l, linkedParents <$> users db !! y = Some l ∧ x ∈ l) as H2.
  { intros x y. destruct (users db !! y) as [su|]; simpl.
    - split; [intros (? & [= <-] & ?); eauto | intros (? & [= <-] & ?); eauto].
    - split; [by intros (? & ? & _) | by intros (? & ? & _)]. }
  split; intros H x y; [rewrite <- H1, <- H2 | rewrite H1, H2]; apply H.
Qed.

Lemma bidirectional_same_links db db' :
  (∀ x, ls db' x = ls db x) → (∀ x, lp db' x = lp db x) →
  bidirectional db → bidirectional db'.
Proof.
  rewrite !bidirectional_alt. intros Hls Hlp H x y. rewrite Hls, Hlp. apply H.
Qed.

(** Linking [P] to [S] on both sides, when [P] was free or already linked
    to [S]. *)
Lemma bidirectional_link db db' P S :
  bidirectional db →
  ls db P = Some None ∨ ls db P = Some (Some S) →
  is_Some (lp db S) →
  (∀ x, ls db' x = if decide (x = P) then Some (Some S) else ls db x) →
  (∀ x, lp db' x = if decide (x = S) then addToSet P <$> lp db x else lp db x) →
  bidirectional db'.
Proof.
  rewrite !bidirectional_alt. intros H HP [l0 HS] Hls Hlp x y.
  rewrite Hls, Hlp. destruct (decide (x = P)) as [->|Hx].
  - destruct (decide (y = S)) as [->|Hy].
    + rewrite HS. simpl. split; [|done]. intros _. eexists. split; [done|].
      apply elem_of_addToSet. by left.
    + rewrite <- H. split; [by intros [= ->]|].
      intros HPy. rewrite HPy in HP. by destruct HP as [[=]|[= ->]].
  - rewrite H. destruct (decide (y = S)) as [->|Hy]; [|done].
    rewrite HS. simpl. split.
    + intros (l & [= <-] & Hin). eexists. split; [done|].
      apply elem_of_addToSet. by right.
    + intros (l & [= <-] & Hin). exists l0. split; [done|].
      apply elem_of_addToSet in Hin as [->|Hin]; done.
Qed.

(** Unlinking [P] from [S] on both sides. *)
Lemma bidirectional_unlink db db' P S :
  bidirectional db →
  ls db P = Some (Some S) →
  (∀ x, ls db' x = if decide (x = P) then Some None else ls db x) →
  (∀ x, lp db' x = if decide (x = S) then pull P <$> lp db x else lp db x) →
  bidirectional db'.
Proof.
  rewrite !bidirectional_alt. intros H HP Hls Hlp x y.
  rewrite Hls, Hlp. destruct (decide (x = P)) as [->|Hx].
  - split; [done|]. intros (l & Hl & Hin). exfalso.
    destruct (decide (y = S)) as [->|Hy].
    + destruct (lp db S) as [l0|]; [|done]. injection Hl as <-.
      apply elem_of_pull in Hin as [Hne _]. done.
    + assert (ls db P = Some (Some y)) as HPy by (apply H; eauto).
      rewrite HPy in HP. by injection HP as ->.
  - rewrite H. destruct (decide (y = S)) as [->|Hy]; [|done].
    destruct (lp db S) as [l0|]; simpl.
    + split.
      * intros (l & [= <-] & Hin). eexists. split; [done|]. by apply elem_of_pull.
      * intros (l & [= <-] & Hin). exists l0. split; [done|].
        by apply elem_of_pull in Hin as [_ ?].
    + split; by intros (? & ? & _).
Qed.

Lemma links_alter_linkedParents f k (m : gmap ObjectId User) x :
  linkedSpecialist <$> alter (upd_linkedParents f) k m !! x = linkedSpecialist <$> m !! x ∧
  linkedParents <$> alter (upd_linkedParents f) k m !! x =
    if decide (x = k) then f <$> (linkedParents <$> m !! x) else linkedParents <$> m !! x.
Proof.
  rewrite lookup_alter. destruct (decide (k = x)) as [->|Hne].
  - rewrite decide_True by done. by destruct (m !! x).
  - by rewrite decide_False by done.
Qed.

Lemma links_alter_linkedSpecialist s k (m : gmap ObjectId User) x :
  linkedSpecialist <$> alter (set_linkedSpecialist s) k m !! x =
    (if decide (x = k) then (λ _, s) <$> m !! x else linkedSpecialist <$> m !! x) ∧
  linkedParents <$> alter (set_linkedSpecialist s) k m !! x = linkedParents <$> m !! x.
Proof.
  rewrite lookup_alter. destruct (decide (k = x)) as [->|Hne].
  - rewrite decide_True by done. by destruct (m !! x).
  - by rewrite decide_False by done.
Qed.

Lemma links_alter_assignedChildren f k (m : gmap ObjectId User) x :
  linkedSpecialist <$> alter (upd_assignedChildren f) k m !! x = linkedSpecialist <$> m !! x ∧
  linkedParents <$> alter (upd_assignedChildren f) k m !! x = linkedParents <$> m !! x.
Proof.
  rewrite lookup_alter. destruct (decide (k = x)) as [->|Hne]; [|done].
  by destruct (m !! x).
Qed.

Lemma authorized_preserves_user (P : Db → Prop) roles h token db :
  P db → (∀ p, is_Some (users db !! p_id p) → P (h p db).2) →
  P (authorized roles h token db).2.
Proof.
  intros H0 Hh. unfold authorized, protected, protect.
  destruct token as [uid|]; [|done].
  destruct (users db !! uid) as [u|] eqn:Hu; [|done].
  destruct (authorize roles _); [|done]. apply Hh. simpl. by rewrite Hu.
Qed.

Lemma accept_link_request_keeps_links requestId p db :
  is_Some (users db !! p_id p) →
  bidirectional db → bidirectional (accept_link_request_handler requestId p db).2.
Proof.
  intros [su Hs] Hinv. unfold accept_link_request_handler.
  destruct (linkRequests db !! requestId) as [request|]; [|done].
  destruct (negb _); [done|]. destruct (negb _); [done|].
  destruct (users db !! lr_from request) as [parent|] eqn:Hp; [|done].
  destruct (match linkedSpecialist parent with Some _ => _ | None => _ end) eqn:Hguard;
    [done|].
  cbv zeta. simpl.
  apply (bidirectional_link db _ (lr_from request) (p_id p) Hinv).
  - unfold ls. rewrite Hp. simpl. destruct (linkedSpecialist parent) as [s|]; [|by left].
    right. apply negb_false_iff, bool_decide_eq_true in Hguard. by rewrite Hguard.
  - unfold lp. rewrite Hs. by eexists.
  - intros x. unfold ls. simpl.
    match goal with |- context [match ?o with Some _ => _ | None => _ end] =>
      destruct o end; simpl; unfold findByIdAndUpdate.
    all: destruct (links_alter_linkedSpecialist (Some (p_id p)) (lr_from request)
                    (alter (upd_linkedParents (addToSet (lr_from request))) (p_id p)
                           (users db)) x) as [-> _].
    all: case_decide as Hx; [|by apply links_alter_linkedParents].
    all: subst x; rewrite lookup_alter; case_decide; rewrite ?Hs, ?Hp; done.
  - intros x. unfold lp. simpl.
    match goal with |- context [match ?o with Some _ => _ | None => _ end] =>
      destruct o end; simpl; unfold findByIdAndUpdate.
    all: destruct (links_alter_linkedSpecialist (Some (p_id p)) (lr_from request)
                    (alter (upd_linkedParents (addToSet (lr_from request))) (p_id p)
                           (users db)) x) as [_ ->].
    all: by apply links_alter_linkedParents.
Qed.

Lemma unlink_specialist_keeps_links p db :
  bidirectional db → bidirectional (unlink_specialist_handler p db).2.
Proof.
  intros Hinv. unfold unlink_specialist_handler.
  destruct (users db !! p_id p) as [parent|] eqn:Hp; [|done].
  destruct (linkedSpecialist parent) as [S|] eqn:Hl; [|done]. simpl.
  apply (bidirectional_unlink db _ (p_id p) S Hinv).
  - unfold ls. by rewrite Hp, <- Hl.
  - intros x. unfold ls. simpl. rewrite detach_children_users. simpl.
    unfold findByIdAndUpdate.
    assert (linkedSpecialist <$>
              alter (upd_linkedParents (pull (p_id p))) S
                (<[p_id p:=set_linkedSpecialist None parent]> (users db)) !! x
            = if decide (x = p_id p) then Some None else linkedSpecialist <$> users db !! x)
      as Hx.
    { destruct (links_alter_linkedParents (pull (p_id p)) S
                  (<[p_id p:=set_linkedSpecialist None parent]> (users db)) x) as [-> _].
      rewrite lookup_insert. destruct (decide (p_id p = x)) as [<-|Hne].
      - by rewrite decide_True.
      - by rewrite decide_False by done. }
    rewrite <- Hx. clear Hx. destruct (decide (x = S)); [|done].
    by destruct (alter _ _ _ !! x).
  - intros x. unfold lp. simpl. rewrite detach_children_users. simpl.
    unfold findByIdAndUpdate.
    assert (linkedParents <$>
              alter (upd_linkedParents (pull (p_id p))) S
                (<[p_id p:=set_linkedSpecialist None parent]> (users db)) !! x
            = if decide (x = S) then pull (p_id p) <$> (linkedParents <$> users db !! x)
              else linkedParents <$> users db !! x)
      as Hx.
    { destruct (links_alter_linkedParents (pull (p_id p)) S
                  (<[p_id p:=set_linkedSpecialist None parent]> (users db)) x) as [_ ->].
      assert (linkedParents <$> <[p_id p:=set_linkedSpecialist None parent]> (users db) !! x
              = linkedParents <$> users db !! x) as ->; [|done].
      rewrite lookup_insert. destruct (decide (p_id p = x)) as [<-|Hne]; [|done].
      by rewrite Hp. }
    rewrite <- Hx. clear Hx.
    destruct (decide (x = S)); [|done]. by destruct (alter _ _ _ !! x).
Qed.

Lemma accept_child_keeps_links childId p db :
  bidirectional db → bidirectional (accept_child_handler childId p db).2.
Proof.
  intros Hinv. unfold accept_child_handler.
  destruct (children db !! childId) as [child|]; [|done].
  destruct (negb _); [done|]. simpl.
  apply (bidirectional_same_links db); [| |done]; intros x; unfold ls, lp; simpl;
    by apply links_alter_assignedChildren.
Qed.

Lemma bidirectional_same_users db db' :
  users db' = users db → bidirectional db → bidirectional db'.
Proof. unfold bidirectional. by intros ->. Qed.

Lemma child_routes_keep_users c token db :
  match c with
  | CallRejectChild _ | CallRejectLinkRequest _ | CallRequestSpecialist _
  | CallSendLinkRequest _ _ => users (run_linkage c token db).2 = users db
  | _ => True
  end.
Proof.
  destruct c; try done; simpl;
    [unfold reject_child | unfold reject_link_request | unfold request_specialist
     | unfold send_link_request];
    apply (authorized_preserves (λ d, users d = users db)); try done; intros p.
  - unfold reject_child_handler. by destruct (children db !! childId).
  - unfold reject_link_request_handler.
    destruct (linkRequests db !! requestId) as [request|]; [|done].
    destruct (negb _); [done|]. by destruct (negb _).
  - unfold request_specialist_handler.
    destruct (children db !! childId) as [child|]; [|done]. by destruct (negb _).
  - unfold send_link_request_handler.
    destruct (b_specialistId body) as [specialistId|]; [|done].
    destruct (b_childId_opt body) as [childId|]; [|done].
    destruct (users db !! specialistId) as [specialist|]; [|done].
    destruct (negb _); [done|].
    destruct (children db !! childId) as [child|]; [|done].
    destruct (negb _); [done|]. destruct (bool_decide _); [done|].
    destruct (existsb _ _); [done|]. by destruct (_ <? _)%nat.
Qed.

(** Every linkage route except link-parent and unlink-parent keeps the
    link reciprocal: if [P.linkedSpecialist = S] exactly when
    [S.linkedParents] contains [P] before the call, it is so after it. *)
Theorem reciprocity_preserved c token db :
  ¬ blind_to_other_link c →
  bidirectional db →
  bidirectional (run_linkage c token db).2.
Proof.
  intros Hc Hinv.
  pose proof (child_routes_keep_users c token db) as Hsame.
  destruct c; simpl in *; try (by destruct Hc);
    try (by apply (bidirectional_same_users db)).
  - apply (authorized_preserves bidirectional); [done|]. intros p.
    by apply accept_child_keeps_links.
  - apply (authorized_preserves_user bidirectional); [done|]. intros p Hp.
    by apply accept_link_request_keeps_links.
  - apply (authorized_preserves bidirectional); [done|]. intros p.
    by apply unlink_specialist_keeps_links.
Qed.

Lemma reciprocity_preserved_witness :
  bidirectional db_linked ∧
  bidirectional (run_linkage CallUnlinkSpecialist (Some parent1) db_linked).2.
Proof.
  split; [exact db_linked_bidirectional|].
  apply (reciprocity_preserved CallUnlinkSpecialist (Some parent1) db_linked).
  - intros [].
  - exact db_linked_bidirectional.
Defined.

(** ** The rollup *)

Lemma or0_counted x : or0 x = counted x.
Proof. by destruct x. Qed.

Lemma fold_or0_total (f : Session → option float) ss :
  fold_left (λ sum s, (sum + or0 (f s))%float) ss 0%float = total f ss.
Proof.
  unfold total. generalize 0%float. induction ss as [|s ss IH]; intros a; simpl; [done|].
  by rewrite or0_counted, IH.
Qed.

Lemma updateOverallStats_fold pr :
  stats_are_fold (overallStats (updateOverallStats pr)) (sessions pr).
Proof.
  unfold stats_are_fold, updateOverallStats. simpl. rewrite !fold_or0_total.
  repeat split. by destruct (sessions pr).
Qed.

Lemma updateOverallStats_keeps pr :
  pr_id (updateOverallStats pr) = pr_id pr ∧ pr_child (updateOverallStats pr) = pr_child pr ∧
  sessions (updateOverallStats pr) = sessions pr ∧
  lastSyncDate (updateOverallStats pr) = lastSyncDate pr.
Proof. done. Qed.

(** The rollup is a function of the sessions. *)
Lemma stats_are_fold_unique st st' ss :
  stats_are_fold st ss → stats_are_fold st' ss → st = st'.
Proof.
  destruct st, st'. unfold stats_are_fold. simpl.
  intros (-> & -> & -> & -> & ->) (-> & -> & -> & -> & ->). done.
Qed.

(** Seven successes out of ten attempts give a rate of 70. *)
Lemma seven_of_ten st ss :
  stats_are_fold st ss →
  total totalAttempts ss = 10%float → total successfulAttempts ss = 7%float →
  st_successRate st = 70%float.
Proof. intros (_ & _ & _ & -> & _) -> ->. reflexivity. Qed.

(** ** The cast *)

Lemma with_default_stored {A} (d : A) f : stored_field d f (with_default d f).
Proof. by destruct f. Qed.

Lemma stored_field_inj {A} (d : A) f x : stored_field d f x → x = with_default d f.
Proof. by destruct f. Qed.

Lemma cast_attempt_stored env a : attempt_stored env a (cast_attempt env a).
Proof. unfold attempt_stored. simpl. repeat split. apply with_default_stored. Qed.

Lemma attempt_stored_inj env a a' : attempt_stored env a a' → a' = cast_attempt env a.
Proof.
  destruct a'. unfold attempt_stored, cast_attempt. simpl.
  intros (-> & -> & -> & -> & -> & -> & -> & -> & -> & -> & -> & -> & H).
  by apply stored_field_inj in H as ->.
Qed.

Lemma cast_session_stored env d : session_stored env d (cast_session env d).
Proof.
  unfold session_stored. simpl. repeat split; try apply with_default_stored.
  induction (sd_attempts d); constructor; [apply cast_attempt_stored | done].
Qed.

Lemma session_stored_inj env d s : session_stored env d s → s = cast_session env d.
Proof.
  destruct s as [sd du ta sa fa av ats]. unfold session_stored, cast_session. simpl.
  intros (H1 & -> & H2 & H3 & H4 & H5 & H6).
  apply stored_field_inj in H1 as ->, H2 as ->, H3 as ->, H4 as ->, H5 as ->.
  f_equal. clear -H6. induction H6 as [|a a' l l' Ha _ IH]; [done|]. simpl.
  by rewrite (attempt_stored_inj _ _ _ Ha), IH.
Qed.

Lemma sessions_stored env new : Forall2 (session_stored env) new (List.map (cast_session env) new).
Proof. induction new; constructor; [apply cast_session_stored | done]. Qed.

Lemma sessions_stored_inj env new added :
  Forall2 (session_stored env) new added → added = List.map (cast_session env) new.
Proof.
  induction 1 as [|d s l l' Hs _ IH]; [done|]. simpl.
  by rewrite (session_stored_inj _ _ _ Hs), IH.
Qed.

Lemma castable_nan x : castable x = false ↔ nan x.
Proof.
  unfold castable, nan, is_nan. destruct x as [v|]; simpl.
  - rewrite negb_false_iff, negb_true_iff. split; [by exists v | by intros (? & [= <-] & ?)].
  - split; [done | by intros (? & ? & _)].
Qed.

Lemma attempt_castable_nan a : attempt_castable a = false ↔ nan_in_attempt a.
Proof.
  unfold attempt_castable, nan_in_attempt. rewrite !andb_false_iff, !castable_nan. tauto.
Qed.

Lemma forallb_false_Exists {A} (f : A → bool) (P : A → Prop) l :
  (∀ x, f x = false ↔ P x) → forallb f l = false ↔ Exists P l.
Proof.
  intros H. induction l as [|x l IH]; simpl.
  - split; [done | by intros ?%Exists_nil].
  - rewrite andb_false_iff, Exists_cons, H, IH. done.
Qed.

Lemma session_castable_nan s : session_castable s = false ↔ nan_in_session s.
Proof.
  unfold session_castable, nan_in_session.
  rewrite !andb_false_iff, !castable_nan, (forallb_false_Exists _ _ _ attempt_castable_nan).
  tauto.
Qed.

Lemma stats_castable_nan st : stats_castable st = false ↔ nan_in_stats st.
Proof.
  unfold stats_castable, nan_in_stats. rewrite !andb_false_iff.
  change (negb (is_nan ?x)) with (castable (Some x)). rewrite !castable_nan. tauto.
Qed.

(** ** Appending sessions *)

Lemma find_update_first {A} (sel : A → bool) (f : A → A) l x :
  List.find sel l = Some x → sel (f x) = true →
  List.find sel (update_first sel f l) = Some (f x).
Proof.
  intros Hfind Hsel. induction l as [|y l IH]; [done|]. simpl in *.
  destruct (sel y) eqn:Hy.
  - injection Hfind as ->. simpl. by rewrite Hsel.
  - simpl. rewrite Hy. by apply IH.
Qed.

Lemma find_app_new {A} (sel : A → bool) l x :
  List.find sel l = None → sel x = true → List.find sel (l ++ [x]) = Some x.
Proof.
  intros Hfind Hsel. induction l as [|y l IH]; simpl in *; [by rewrite Hsel|].
  destruct (sel y); [done|]. by apply IH.
Qed.

Lemma sessions_push_all env new pr :
  sessions (fold_left (λ pr d, push_session (cast_session env d) pr) new pr)
    = sessions pr ++ List.map (cast_session env) new
  ∧ pr_child (fold_left (λ pr d, push_session (cast_session env d) pr) new pr)
    = pr_child pr.
Proof.
  revert pr. induction new as [|d new IH]; intros pr; simpl.
  - by rewrite app_nil_r.
  - destruct (IH (push_session (cast_session env d) pr)) as [-> ->]. simpl.
    by rewrite <- app_assoc.
Qed.

Lemma append_sessions_spec env new pr :
  pr_child (append_sessions env new pr) = pr_child pr ∧
  sessions (append_sessions env new pr) = sessions pr ++ List.map (cast_session env) new ∧
  stats_are_fold (overallStats (append_sessions env new pr))
                 (sessions (append_sessions env new pr)) ∧
  lastSyncDate (append_sessions env new pr) = now env.
Proof.
  unfold append_sessions.
  destruct (sessions_push_all env new pr) as [Hs Hc].
  set (pr1 := fold_left _ new pr) in *.
  refine (conj _ (conj _ (conj _ _))); simpl; try done.
  apply (updateOverallStats_fold pr1).
Qed.

(** What the lookup and the creation leave: nothing when one of them
    throws; otherwise the document of the child, first of its kind in the
    store, with the sessions the child had. *)
Lemma load_or_create_cases env faults childId db :
  match load_or_create_progress env faults childId db with
  | None =>
      findOne_throws faults
      || (match List.find (progress_of childId) (progresses db) with
          | Some _ => false
          | None => create_throws faults
          end) = true ∧
      left_as_loaded env faults db db childId
  | Some (pr, db1) =>
      findOne_throws faults
      || (match List.find (progress_of childId) (progresses db) with
          | Some _ => false
          | None => create_throws faults
          end) = false ∧
      pr_child pr = childId ∧ sessions pr = stored_sessions db childId ∧
      List.find (progress_of childId) (progresses db1) = Some pr ∧
      left_as_loaded env faults db db1 childId
  end.
Proof.
  unfold load_or_create_progress, left_as_loaded, stored_sessions.
  destruct (findOne_throws faults); simpl.
  { split; [done|]. repeat split. by destruct (List.find _ _). }
  destruct (List.find (progress_of childId) (progresses db)) as [pr0|] eqn:Hfind.
  - repeat split; try done.
    apply find_some in Hfind as [_ H]. by apply bool_decide_eq_true in H.
  - destruct (create_throws faults); [done|]. simpl. repeat split.
    apply find_app_new; [done|]. by apply bool_decide_eq_true_2.
Qed.

(** What the save does: it fails when the database does or a number of the
    document is NaN, and otherwise puts the document in the place of the
    one that was loaded. *)
Lemma save_progress_cases faults childId pr db :
  match save_progress faults childId pr db with
  | None =>
      save_throws faults = true ∨ Exists nan_in_session (sessions pr)
      ∨ nan_in_stats (overallStats pr)
  | Some db' =>
      save_throws faults = false ∧ ¬ Exists nan_in_session (sessions pr) ∧
      ¬ nan_in_stats (overallStats pr) ∧
      db' = with_progresses (update_first (progress_of childId) (λ _, pr)) db
  end.
Proof.
  unfold save_progress. destruct (save_throws faults); simpl; [by left|].
  destruct (forallb session_castable (sessions pr)) eqn:Hs; simpl.
  - destruct (stats_castable (overallStats pr)) eqn:Hst; simpl.
    + split; [done|]. split; [|split; [|done]].
      * rewrite <- (forallb_false_Exists _ _ _ session_castable_nan). by rewrite Hs.
      * rewrite <- stats_castable_nan. by rewrite Hst.
    + right. right. by apply stats_castable_nan.
  - right. left. by apply (forallb_false_Exists _ _ _ session_castable_nan).
Qed.

Lemma progresses_notify_parent faults childId db :
  progresses (notify_parent faults childId db) = progresses db.
Proof.
  unfold notify_parent.
  destruct (notify_throws faults); [done|].
  destruct (children db !! childId); [|done]. by destruct (List.find _ _).
Qed.

Lemma progresses_emit env childId db :
  progresses (emit_progress_updated env childId db) = progresses db.
Proof. unfold emit_progress_updated. by destruct (io_attached env). Qed.

(** The document is loaded, the sessions are appended to it and it is
    saved: what the two routes have in common. *)
Lemma load_append_save env faults childId new db pr db1 :
  load_or_create_progress env faults childId db = Some (pr, db1) →
  match save_progress faults childId (append_sessions env new pr) db1 with
  | None =>
      (save_throws faults = true ∨ cast_fails env db childId new) ∧
      left_as_loaded env faults db db1 childId
  | Some db2 =>
      throws faults db childId = false ∧ ¬ cast_fails env db childId new ∧
      appended env db db2 childId new
  end.
Proof.
  intros Hload. pose proof (load_or_create_cases env faults childId db) as Hcases.
  rewrite Hload in Hcases. destruct Hcases as (Hthrows & Hchild & Hsessions & Hfind & Hleft).
  destruct (append_sessions_spec env new pr) as (Hc & Hs & Hfold & Hdate).
  rewrite Hsessions in Hs.
  pose proof (save_progress_cases faults childId (append_sessions env new pr) db1) as Hsave.
  destruct (save_progress _ _ _ db1) as [db2|].
  - destruct Hsave as (Hsave & Hnan & Hnanst & ->). unfold throws.
    rewrite Hthrows, Hsave. split; [done|]. split.
    + intros (added & Hadded & Hfails). apply sessions_stored_inj in Hadded as ->.
      rewrite <- Hs in Hfails. destruct Hfails as [H | (st & Hst & H)]; [done|].
      by rewrite (stats_are_fold_unique _ _ _ Hst Hfold) in H.
    + exists (append_sessions env new pr), (List.map (cast_session env) new).
      refine (conj _ (conj _ (conj (sessions_stored env new) (conj Hs (conj Hfold Hdate))))).
      * simpl. apply (find_update_first _ (λ _, append_sessions env new pr) _ pr Hfind).
        unfold progress_of. rewrite Hc, Hchild. by apply bool_decide_eq_true_2.
      * by rewrite Hc.
  - split; [|done]. destruct Hsave as [H | H]; [by left|]. right.
    exists (List.map (cast_session env) new). split; [apply sessions_stored|].
    rewrite <- Hs. destruct H as [H | H]; [by left|]. right. by eexists.
Qed.


Lemma appended_progresses env db db2 db3 childId new :
  progresses db3 = progresses db2 →
  appended env db db2 childId new → appended env db db3 childId new.
Proof. unfold appended. by intros ->. Qed.

Lemma throws_load faults db childId :
  findOne_throws faults
  || (match List.find (progress_of childId) (progresses db) with
      | Some _ => false
      | None => create_throws faults
      end) = true →
  throws faults db childId = true.
Proof. unfold throws. by intros ->. Qed.

Lemma throws_save faults db childId : save_throws faults = true → throws faults db childId = true.
Proof. unfold throws. intros ->. apply orb_true_r. Qed.

(** What each of the two append routes does, for a caller the middleware
    lets through. *)
Lemma progress_session_outcome env faults childId sessionData uid u db :
  users db !! uid = Some u →
  append_outcome env faults db childId ((λ d, [d]) <$> sessionData) MProgress
    (progress_session env faults childId sessionData (Some uid) db).1
    (progress_session env faults childId sessionData (Some uid) db).2.
Proof.
  intros Hu. unfold progress_session. rewrite (protected_user _ _ _ _ Hu).
  unfold progress_session_handler, append_outcome.
  pose proof (load_or_create_cases env faults childId db) as Hcases.
  destruct (load_or_create_progress env faults childId db) as [[pr db1]|] eqn:Hload.
  - destruct Hcases as (_ & _ & _ & _ & Hleft).
    destruct sessionData as [d|]; simpl.
    + pose proof (load_append_save env faults childId [d] db pr db1 Hload) as Hsave.
      destruct (save_progress _ _ _ db1) as [db2|]; simpl.
      * destruct Hsave as (Hthrows & Hcast & Happ).
        split; [by left|]. split; [|split; [by eexists | done]].
        split; [done|]. rewrite Hthrows.
        intros [H | [H | (new & [= <-] & H)]]; done.
      * destruct Hsave as [Hwhy _].
        split; [by right|]. split; [|split; [done | done]].
        split; [|done]. intros _.
        destruct Hwhy as [H | H]; [left; by apply throws_save | right; right; by eexists].
    + split; [by right|]. split; [|split; [done | done]].
      split; [|done]. intros _. right. by left.
  - destruct Hcases as [Hthrows Hleft]. simpl.
    split; [by right|]. split; [|split; [done | done]].
    split; [|done]. intros _. left. by apply throws_load.
Qed.

Lemma progress_sync_outcome env faults childId sessions uid u db :
  users db !! uid = Some u →
  append_outcome env faults db childId sessions MProgressSynced
    (progress_sync env faults childId sessions (Some uid) db).1
    (progress_sync env faults childId sessions (Some uid) db).2.
Proof.
  intros Hu. unfold progress_sync. rewrite (protected_user _ _ _ _ Hu).
  unfold progress_sync_handler, append_outcome.
  pose proof (load_or_create_cases env faults childId db) as Hcases.
  destruct (load_or_create_progress env faults childId db) as [[pr db1]|] eqn:Hload.
  - destruct Hcases as (_ & _ & _ & _ & Hleft).
    destruct sessions as [new|]; simpl.
    + pose proof (load_append_save env faults childId new db pr db1 Hload) as Hsave.
      destruct (save_progress _ _ _ db1) as [db2|]; simpl.
      * destruct Hsave as (Hthrows & Hcast & Happ).
        split; [by left|]. split; [|split; [|done]].
        -- split; [done|]. rewrite Hthrows.
           intros [H | [H | (new' & [= <-] & H)]]; done.
        -- intros _. exists new. split; [done|].
           apply (appended_progresses _ _ db2); [|done].
           by rewrite progresses_emit, progresses_notify_parent.
      * destruct Hsave as [Hwhy _].
        split; [by right|]. split; [|split; [done | done]].
        split; [|done]. intros _.
        destruct Hwhy as [H | H]; [left; by apply throws_save | right; right; by eexists].
    + split; [by right|]. split; [|split; [done | done]].
      split; [|done]. intros _. right. by left.
  - destruct Hcases as [Hthrows Hleft]. simpl.
    split; [by right|]. split; [|split; [done | done]].
    split; [|done]. intros _. left. by apply throws_load.
Qed.

Lemma protected_200 h token db :
  code (protected h token db).1 = 200 →
  ∃ uid u, token = Some uid ∧ users db !! uid = Some u.
Proof.
  unfold protected, protect. destruct token as [uid|]; [|done].
  destruct (users db !! uid) as [u|] eqn:Hu; [|done]. eauto.
Qed.

(** C5 (as amended).  After an append that succeeds, through either
    route, the document of the child holds the sessions it had followed by
    the new ones as they are stored, and its [overallStats] are the fold
    of the counters of all of them in double arithmetic: [totalSessions]
    is their number, [totalPlayTime] the sum of the durations,
    [totalAttempts] the sum of the per-session totals, [successRate] the
    sum of the per-session successes divided by [totalAttempts] and then
    multiplied by 100 (0 unless [totalAttempts] is positive),
    [averageScore] the sum of the per-session averages divided by their
    number (0 when there is none); a counter that is missing or 0 adds
    nothing.  Whenever the totals add up to 10 and the successes to 7, the
    rate is 70. *)
Theorem overall_stats_equal_the_fold env faults childId new token db r db' :
  progress_sync env faults childId (Some new) token db = (r, db') ∨
  (∃ d, new = [d] ∧ progress_session env faults childId (Some d) token db = (r, db')) →
  code r = 200 →
  ∃ pr added,
    List.find (progress_of childId) (progresses db') = Some pr ∧
    Forall2 (session_stored env) new added ∧
    sessions pr = stored_sessions db childId ++ added ∧
    stats_are_fold (overallStats pr) (sessions pr) ∧
    (total totalAttempts (sessions pr) = 10%float →
     total successfulAttempts (sessions pr) = 7%float →
     st_successRate (overallStats pr) = 70%float).
Proof.
  intros Hrun Hcode.
  assert (appended env db db' childId new) as (pr & added & Hfind & _ & Hadded & Hs & Hst & _).
  { destruct Hrun as [Hrun | (d & -> & Hrun)].
    - assert (code (progress_sync env faults childId (Some new) token db).1 = 200) as H200
        by (by rewrite Hrun).
      destruct (protected_200 _ _ _ H200) as (uid & u & -> & Hu).
      destruct (progress_sync_outcome env faults childId (Some new) uid u db Hu)
        as (_ & _ & Happ & _).
      rewrite Hrun in Happ. by destruct (Happ Hcode) as (? & [= <-] & ?).
    - assert (code (progress_session env faults childId (Some d) token db).1 = 200) as H200
        by (by rewrite Hrun).
      destruct (protected_200 _ _ _ H200) as (uid & u & -> & Hu).
      destruct (progress_session_outcome env faults childId (Some d) uid u db Hu)
        as (_ & _ & Happ & _).
      rewrite Hrun in Happ. by destruct (Happ Hcode) as (? & [= <-] & ?). }
  exists pr, added. refine (conj Hfind (conj Hadded (conj Hs (conj Hst _)))).
  by apply seven_of_ten.
Qed.

(** Two sessions are synced for a child without sessions: 6 and 4
    attempts, 4 and 3 successes, 12 minutes, averages of 80 and 90.  They
    are stored with the date of the request; the totals are 10 and 7 and
    the statistics are 2 sessions, 12 minutes, 10 attempts, a rate of 70
    and an average of 85. *)
Lemma overall_stats_equal_the_fold_witness :
  code (progress_sync env0 no_faults child10 (Some [session_a; session_b]) (Some parent1)
          db_unlinked).1 = 200 ∧
  ∃ pr, List.find (progress_of child10)
          (progresses (progress_sync env0 no_faults child10 (Some [session_a; session_b])
                         (Some parent1) db_unlinked).2) = Some pr ∧
        sessions pr
        = [mkSession (Some 1700000000000) (Some 12%float) (Some 6%float) (Some 4%float)
             (Some 2%float) (Some 80%float) [];
           mkSession (Some 1700000000000) None (Some 4%float) (Some 3%float)
             (Some 1%float) (Some 90%float) []] ∧
        total totalAttempts (sessions pr) = 10%float ∧
        total successfulAttempts (sessions pr) = 7%float ∧
        st_successRate (overallStats pr) = 70%float ∧
        overallStats pr = mkStats 2 12 10 70 85.
Proof.
  split; [reflexivity|].
  destruct (overall_stats_equal_the_fold env0 no_faults child10 [session_a; session_b]
              (Some parent1) db_unlinked
              (progress_sync env0 no_faults child10 (Some [session_a; session_b])
                 (Some parent1) db_unlinked).1
              (progress_sync env0 no_faults child10 (Some [session_a; session_b])
                 (Some parent1) db_unlinked).2)
    as (pr & added & Hfind & Hadded & Hs & Hfold & H70).
  - left. apply surjective_pairing.
  - reflexivity.
  - exists pr. split; [exact Hfind|].
    apply sessions_stored_inj in Hadded. subst added.
    assert (total totalAttempts (sessions pr) = 10%float) as H10
      by (rewrite Hs; reflexivity).
    assert (total successfulAttempts (sessions pr) = 7%float) as H7
      by (rewrite Hs; reflexivity).
    refine (conj Hs (conj H10 (conj H7 (conj (H70 H10 H7) _)))).
    apply (stats_are_fold_unique _ _ (sessions pr) Hfold). rewrite Hs.
    repeat split.
Defined.

(** C5, counterexample.  The rollup reads the counters of the sessions,
    never their attempts: two sessions that hold ten attempts, seven of
    them successful, and no counters are synced with code 200 and leave a
    rate of 0 out of 0 attempts.  And the rate is the quotient multiplied
    by 100, not 100 times the successes divided by the total: one success
    out of three gives 33.33333333333333, where the other order gives
    33.333333333333336. *)
Lemma rate_reads_the_counters_only :
  length (attempts_sent [session_d; session_e]) = 10%nat ∧
  length (List.filter succeeded (attempts_sent [session_d; session_e])) = 7%nat ∧
  (progress_sync env0 no_faults child10 (Some [session_d; session_e]) (Some parent1)
     db_unlinked).1 = mkReply 200 MProgressSynced ∧
  overallStats <$>
    List.find (progress_of child10)
      (progresses (progress_sync env0 no_faults child10 (Some [session_d; session_e])
                     (Some parent1) db_unlinked).2)
  = Some (mkStats 2 0 0 0 0) ∧
  ¬ seven_of_ten_attempts_give_70 ∧
  overallStats <$>
    List.find (progress_of child10)
      (progresses (progress_sync env0 no_faults child10 (Some [session_f]) (Some parent1)
                     db_unlinked).2)
  = Some (mkStats 1 0 3 (1 / 3 * 100) 50) ∧
  (1 / 3 * 100 =? 100 * 1 / 3)%float = false ∧
  (1 / 3 * 100)%float = 0x1.0aaaaaaaaaaaap+5%float ∧
  (100 * 1 / 3)%float = 0x1.0aaaaaaaaaaabp+5%float ∧
  ¬ rate_is_100_times_successes_over_total.
Proof.
  split; [reflexivity|]. split; [reflexivity|]. split; [reflexivity|].
  split; [reflexivity|]. split.
  { intros H.
    specialize (H env0 no_faults child10 [session_d; session_e] (Some parent1) db_unlinked
                  _ _ _ eq_refl eq_refl eq_refl eq_refl eq_refl eq_refl).
    vm_compute in H. discriminate H. }
  split; [reflexivity|]. split; [reflexivity|]. split; [reflexivity|].
  split; [reflexivity|].
  intros H.
  specialize (H env0 no_faults child10 [session_f] (Some parent1) db_unlinked
                _ _ _ eq_refl eq_refl eq_refl).
  vm_compute in H. discriminate H.
Qed.




(** ** Reading the attempts *)






(** The attempts come latest first. *)
Example attempts_latest_first :
  List.map v_timestamp
    (progress_attempts child10 (Some (of_ascii "2")) (Some parent1) db_attempts).2
  = [Some 3000; Some 2000].
Proof. vm_compute. reflexivity. Qed.

(** ** Trimming *)

Lemma trimStart_clean_head s : clean_head (trimStart s).
Proof.
  induction s as [|c s IH]; simpl; [done|].
  destruct (is_js_whitespace c) eqn:E; [exact IH | exact E].
Qed.

Lemma trimStart_id s : clean_head s → trimStart s = s.
Proof. destruct s as [|c s]; simpl; [done|]. by intros ->. Qed.

Lemma trimStart_suffix s : ∃ p, s = p ++ trimStart s.
Proof.
  induction s as [|c s [p IH]]; simpl; [by exists []|].
  destruct (is_js_whitespace c).
  - exists (c :: p). simpl. by f_equal.
  - by exists [].
Qed.

Lemma clean_head_prefix a b : clean_head (a ++ b) → clean_head a.
Proof. by destruct a. Qed.

Lemma trim_idempotent s : trim (trim s) = trim s.
Proof.
  unfold trim, trimEnd.
  set (t := trimStart s). set (r := trimStart (rev t)).
  assert (clean_head (rev r)) as Hhead.
  { destruct (trimStart_suffix (rev t)) as [p Hp]. fold r in Hp.
    apply (clean_head_prefix _ (rev p)). rewrite <- rev_app_distr, <- Hp, rev_involutive.
    apply trimStart_clean_head. }
  rewrite (trimStart_id _ Hhead), rev_involutive.
  f_equal. apply trimStart_id, trimStart_clean_head.
Qed.

(** ** The shared tail of the creation routes *)

Lemma existsb_text_is s l : existsb (text_is s) l = true ↔ s ∈ List.map ci_text l.
Proof.
  rewrite existsb_exists, list_elem_of_In, in_map_iff. unfold text_is.
  split; intros (i & H1 & H2); exists i.
  - by apply bool_decide_eq_true in H2.
  - split; [done|]. by apply bool_decide_eq_true_2.
Qed.

Lemma find_update_first_other {A} (sel sel' : A → bool) (f : A → A) l :
  (∀ x, sel x = true → sel' x = false ∧ sel' (f x) = false) →
  List.find sel' (update_first sel f l) = List.find sel' l.
Proof.
  intros H. induction l as [|y l IH]; [done|]. simpl.
  destruct (sel y) eqn:Hy.
  - destruct (H y Hy) as [H1 H2]. simpl. by rewrite H1, H2.
  - simpl. by rewrite IH.
Qed.

Lemma find_app_other {A} (sel : A → bool) l x :
  sel x = false → List.find sel (l ++ [x]) = List.find sel l.
Proof.
  intros Hx. induction l as [|y l IH]; simpl; [by rewrite Hx|].
  by destruct (sel y).
Qed.

Lemma Forall_update_first {A} (P : A → Prop) (sel : A → bool) (f : A → A) l :
  Forall P l → (∀ x, List.find sel l = Some x → P (f x)) →
  Forall P (update_first sel f l).
Proof.
  induction 1 as [|y l Hy Hl IH]; intros Hf; simpl in *; [done|].
  destruct (sel y); constructor; auto.
Qed.

Lemma is_content_of_inv childId e :
  is_content_of childId e = true ↔ e_child e = childId ∧ e_kind e = KContent.
Proof.
  unfold is_content_of. by rewrite andb_true_iff, !bool_decide_eq_true.
Qed.

Lemma is_content_of_push_item childId t i e :
  is_content_of childId (push_item t i e) = is_content_of childId e.
Proof. by destruct t. Qed.

Lemma targetArr_push_item t t' i e :
  targetArr t' (push_item t i e) =
    if bool_decide (t' = t) then targetArr t' e ++ [i] else targetArr t' e.
Proof. by destruct t, t'. Qed.

(** The document [getOrCreateContentDoc] returns is the one a later
    [findOne] on the child finds, and the sub-collections of every child
    read as before. *)
Lemma getOrCreateContentDoc_spec env childId db doc db1 :
  getOrCreateContentDoc env childId db = (doc, db1) →
  List.find (is_content_of childId) (exercises db1) = Some doc ∧
  (∀ t y, target_texts db1 t y = target_texts db t y) ∧
  List.map ci_text (targetArr CWord doc) = target_texts db CWord childId ∧
  List.map ci_text (targetArr CLetter doc) = target_texts db CLetter childId ∧
  (texts_unique db → texts_unique db1) ∧
  (is_Some (List.find (is_content_of childId) (exercises db)) → db1 = db).
Proof.
  unfold getOrCreateContentDoc, target_texts.
  destruct (List.find (is_content_of childId) (exercises db)) as [d|] eqn:Hfind.
  - intros [= <- <-]. rewrite Hfind. done.
  - intros [= <- <-]. simpl.
    assert (is_content_of childId
              (mkExercise (fresh env 0%nat) childId KContent [] [] true) = true) as Hnew
      by (by apply is_content_of_inv).
    split; [by apply find_app_new|].
    split.
    { intros t y. destruct (decide (y = childId)) as [->|Hne].
      - rewrite Hfind, (find_app_new _ _ _ Hfind Hnew). by destruct t.
      - rewrite find_app_other; [done|].
        apply not_true_is_false. rewrite is_content_of_inv. simpl. by intros [-> _]. }
    split; [done|]. split; [done|]. split.
    + intros Hu. apply Forall_app. split; [done|].
      constructor; [|done]. split; constructor.
    + by intros [? [=]].
Qed.

Lemma NoDup_snoc_texts (l : list ContentItem) i :
  dup_free l → ci_text i ∉ List.map ci_text l → dup_free (l ++ [i]).
Proof.
  unfold dup_free. intros Hl Hi. rewrite map_app. simpl.
  apply NoDup_app. split; [done|]. split.
  - intros x Hx Hx'. apply list_elem_of_singleton in Hx' as ->. contradiction.
  - apply NoDup_singleton.
Qed.

Lemma append_item_conflict env t text difficulty image childId p created db :
  trim text ∈ target_texts db t childId →
  append_item env t text difficulty image childId p created db
    = (mkReply 400 (MAlreadyExists t), db).
Proof.
  intros Hin. unfold append_item.
  destruct (getOrCreateContentDoc env childId db) as [doc db1] eqn:Hget.
  destruct (getOrCreateContentDoc_spec _ _ _ _ _ Hget) as (_ & _ & Hw & Hl & _ & Hsame).
  assert (existsb (text_is (trim text)) (targetArr t doc) = true) as ->.
  { apply existsb_text_is. destruct t; [by rewrite Hw | by rewrite Hl]. }
  rewrite Hsame; [done|].
  unfold target_texts in Hin. destruct (List.find _ _); [done|].
  by apply elem_of_nil in Hin.
Qed.

Lemma append_item_created env t text difficulty image childId p created db d :
  trim text ∉ target_texts db t childId →
  trim text ≠ [] →
  parse_difficulty (default (of_ascii "easy") (truthy difficulty)) = Some d →
  ∃ db', append_item env t text difficulty image childId p created db
           = (mkReply 201 created, db') ∧
         target_texts db' t childId = target_texts db t childId ++ [trim text] ∧
         (∀ t' y, (t', y) ≠ (t, childId) → target_texts db' t' y = target_texts db t' y) ∧
         (texts_unique db → texts_unique db').
Proof.
  intros Hnotin Hne Hd. unfold append_item.
  destruct (getOrCreateContentDoc env childId db) as [doc db1] eqn:Hget.
  destruct (getOrCreateContentDoc_spec _ _ _ _ _ Hget)
    as (Hfind & Hsame & Hw & Hl & Huniq & _).
  assert (List.map ci_text (targetArr t doc) = target_texts db t childId) as Ht
    by (by destruct t).
  assert (existsb (text_is (trim text)) (targetArr t doc) = false) as ->.
  { apply not_true_is_false. by rewrite existsb_text_is, Ht. }
  rewrite Hd. simpl ci_text. rewrite trim_idempotent.
  destruct (trim text) as [|c s] eqn:Htrim; [done|]. rewrite <- Htrim.
  unfold reply. eexists. split; [reflexivity|].
  set (item := mkItem (fresh env 1%nat) (trim text) d image (Some (p_id p)) (now env)).
  assert (is_content_of childId (push_item t item doc) = true) as Hsel.
  { rewrite is_content_of_push_item. by apply find_some in Hfind as [_ ?]. }
  split; [|split].
  - unfold target_texts at 1. simpl.
    rewrite (find_update_first _ _ _ _ Hfind Hsel), targetArr_push_item.
    rewrite bool_decide_eq_true_2 by done. by rewrite map_app, Ht.
  - intros t' y Hother. rewrite <- (Hsame t' y). unfold target_texts. simpl.
    destruct (decide (y = childId)) as [->|Hy].
    + rewrite (find_update_first _ _ _ _ Hfind Hsel), Hfind, targetArr_push_item.
      rewrite bool_decide_eq_false_2; [done|]. intros ->. by apply Hother.
    + rewrite find_update_first_other; [done|].
      intros x Hx. rewrite is_content_of_push_item.
      apply is_content_of_inv in Hx as [Hx _].
      assert (is_content_of y x = false) as ->; [|done].
      apply not_true_is_false. rewrite is_content_of_inv. rewrite Hx. by intros [? _].
  - intros Hu. unfold texts_unique. simpl.
    apply Forall_update_first; [by apply Huniq|].
    intros x Hx. rewrite Hfind in Hx. injection Hx as <-.
    assert (dup_free (contentWords doc) ∧ dup_free (contentLetters doc)) as [HW HL].
    { apply Huniq in Hu. unfold texts_unique in Hu. rewrite Forall_forall in Hu.
      apply Hu. apply list_elem_of_In. by apply find_some in Hfind as [? _]. }
    destruct t; simpl in Ht |- *; split; try done.
    all: apply NoDup_snoc_texts; [done|]; simpl; by rewrite Ht, Htrim.
Qed.

(** Whatever the text, a call of the shared tail keeps the texts of every
    sub-collection distinct. *)
Lemma append_item_unique env t text difficulty image childId p created db :
  texts_unique db →
  texts_unique (append_item env t text difficulty image childId p created db).2.
Proof.
  intros Hu.
  destruct (decide (trim text ∈ target_texts db t childId)) as [Hin|Hnotin].
  { by rewrite append_item_conflict. }
  destruct (parse_difficulty (default (of_ascii "easy") (truthy difficulty)))
    as [d|] eqn:Hd;
    [destruct (decide (trim text = [])) as [Hnil|Hne]|].
  - unfold append_item.
    destruct (getOrCreateContentDoc env childId db) as [doc db1] eqn:Hget.
    destruct (getOrCreateContentDoc_spec _ _ _ _ _ Hget) as (_ & _ & _ & _ & Huniq & _).
    destruct (existsb _ _); [by apply Huniq|]. rewrite Hd. simpl ci_text.
    rewrite trim_idempotent, Hnil. by apply Huniq.
  - destruct (append_item_created env t text difficulty image childId p created db d
                Hnotin Hne Hd) as (db' & -> & _ & _ & H). by apply H.
  - unfold append_item.
    destruct (getOrCreateContentDoc env childId db) as [doc db1] eqn:Hget.
    destruct (getOrCreateContentDoc_spec _ _ _ _ _ Hget) as (_ & _ & _ & _ & Huniq & _).
    destruct (existsb _ _); [by apply Huniq|]. rewrite Hd. by apply Huniq.
Qed.

(** ** Deleting *)

Lemma dup_free_pull_item contentId l : dup_free l → dup_free (pull_item contentId l).
Proof.
  unfold dup_free, pull_item. induction l as [|i l IH]; simpl; [done|].
  intros H. apply NoDup_cons in H as [Hi Hl].
  destruct (negb _); simpl; [|by apply IH].
  apply NoDup_cons. split; [|by apply IH].
  intros Hin. apply Hi. apply list_elem_of_In in Hin. apply list_elem_of_In.
  apply in_map_iff in Hin as (j & Hj & Hin). apply in_map_iff. exists j.
  split; [done|]. by apply filter_In in Hin as [? _].
Qed.

Lemma remove_item_unique contentId db :
  texts_unique db →
  texts_unique
    (with_exercises (update_first (holds_item contentId) (remove_item contentId)) db).
Proof.
  intros Hu. unfold texts_unique. simpl. apply Forall_update_first; [done|].
  intros x Hx. apply find_some in Hx as [Hx _].
  unfold texts_unique in Hu. rewrite Forall_forall in Hu.
  destruct (Hu x) as [HW HL]; [by apply list_elem_of_In|].
  split; by apply dup_free_pull_item.
Qed.

(** ** Uniqueness of the texts *)

Lemma protected_preserves (P : Db → Prop) h token db :
  P db → (∀ p, P (h p db).2) → P (protected h token db).2.
Proof.
  intros H0 Hh. unfold protected. destruct (protect token db); [apply Hh | done].
Qed.

Lemma run_content_unique c token db :
  texts_unique db → texts_unique (run_content c token db).2.
Proof.
  intros Hu. destruct c as [route env body file | contentId | contentId | contentId];
    simpl; unfold content_delete, words_delete, portal_content_delete.
  - destruct route; simpl; unfold content_add, portal_content_add, words_post;
      apply (protected_preserves texts_unique); try done; intros p.
    + unfold content_add_handler. destruct (content_add_checks body); [done|].
      by apply append_item_unique.
    + unfold portal_content_add_handler.
      destruct (portal_content_add_checks body p db); [done|].
      by apply append_item_unique.
    + unfold words_post_handler. destruct (words_post_checks body); [done|].
      by apply append_item_unique.
  - apply (protected_preserves texts_unique); [done|]. intros p.
    unfold generic_delete_handler.
    destruct (List.find _ _); [|done]. by apply remove_item_unique.
  - apply (protected_preserves texts_unique); [done|]. intros p.
    unfold generic_delete_handler.
    destruct (List.find _ _); [|done]. by apply remove_item_unique.
  - apply (protected_preserves texts_unique); [done|]. intros p.
    unfold portal_content_delete_handler.
    destruct (List.find _ _); [|done].
    destruct (portal_check _ _ _ _); [done|]. by apply remove_item_unique.
Qed.

Lemma run_contents_unique calls db :
  texts_unique db → texts_unique (run_contents calls db).
Proof.
  unfold run_contents. revert db. induction calls as [|[c token] calls IH]; intros db Hu;
    simpl; [done|].
  apply IH. by apply run_content_unique.
Qed.

Lemma add_item_validated route env body file uid u db v :
  users db !! uid = Some u →
  add_checks route body (mkPrincipal uid (u_role u)) db = inr v →
  add_item route env body file (Some uid) db =
    append_item env (v_type v) (v_text v) (cb_difficulty body) (add_image route file)
                (v_childId v) (mkPrincipal uid (u_role u))
                (add_created route (v_type v)) db.
Proof.
  intros Hu Hv. destruct route; simpl in *.
  - unfold content_add. rewrite (protected_user _ _ _ _ Hu).
    unfold content_add_handler. by rewrite Hv.
  - unfold portal_content_add. rewrite (protected_user _ _ _ _ Hu).
    unfold portal_content_add_handler. by rewrite Hv.
  - unfold words_post. rewrite (protected_user _ _ _ _ Hu).
    unfold words_post_handler. by rewrite Hv.
Qed.

(** C6.  Take a request that one of the three creation routes has
    validated.  If its trimmed text is the text of an item the target
    sub-collection of that child already holds, the route answers 400
    "already exists" and the store is unchanged.  If it is not (whatever
    the documents of other children hold) and the item passes the schema,
    the route answers 201, the text is appended to that sub-collection and
    every other sub-collection reads as before.  And through any sequence
    of calls of the routes that write content, the texts of each
    sub-collection stay pairwise distinct. *)
Theorem content_texts_stay_unique route env body file uid u db v :
  users db !! uid = Some u →
  add_checks route body (mkPrincipal uid (u_role u)) db = inr v →
  (trim (v_text v) ∈ target_texts db (v_type v) (v_childId v) →
     add_item route env body file (Some uid) db
       = (mkReply 400 (MAlreadyExists (v_type v)), db)) ∧
  (trim (v_text v) ∉ target_texts db (v_type v) (v_childId v) →
   trim (v_text v) ≠ [] →
   difficulty_ok body →
     ∃ db', add_item route env body file (Some uid) db
              = (mkReply 201 (add_created route (v_type v)), db') ∧
            target_texts db' (v_type v) (v_childId v)
              = target_texts db (v_type v) (v_childId v) ++ [trim (v_text v)] ∧
            ∀ t' y, (t', y) ≠ (v_type v, v_childId v) →
                    target_texts db' t' y = target_texts db t' y) ∧
  (∀ calls, texts_unique db → texts_unique (run_contents calls db)).
Proof.
  intros Hu Hv. rewrite (add_item_validated _ env _ file _ _ _ _ Hu Hv).
  split; [|split].
  - apply append_item_conflict.
  - intros Hnotin Hne [d Hd].
    destruct (append_item_created env (v_type v) (v_text v) (cb_difficulty body)
                (add_image route file) (v_childId v) (mkPrincipal uid (u_role u))
                (add_created route (v_type v)) db d Hnotin Hne Hd)
      as (db' & Hrun & Ht & Hother & _).
    by exists db'.
  - intros calls. apply run_contents_unique.
Qed.

(** The scenario of the specification: the word is added for child 10;
    adding it again for child 10 is a conflict that changes nothing;
    adding it for child 11 succeeds. *)
Lemma content_texts_stay_unique_witness :
  (content_add env0 add_apple_10 (Some parent4) db_unlinked).1
    = mkReply 201 (MAdded CWord) ∧
  target_texts db_apple CWord child10 = [apple] ∧
  content_add env1 add_apple_10 (Some parent4) db_apple
    = (mkReply 400 (MAlreadyExists CWord), db_apple) ∧
  (∃ db', content_add env1 add_apple_11 (Some parent4) db_apple
            = (mkReply 201 (MAdded CWord), db') ∧
          target_texts db' CWord child11 = [apple] ∧
          ∀ t' y, (t', y) ≠ (CWord, child11) →
                  target_texts db' t' y = target_texts db_apple t' y) ∧
  (∀ calls, texts_unique (run_contents calls db_apple)).
Proof.
  assert (texts_unique db_apple) as Huniq.
  { apply (run_content_unique (CallAdd ContentAdd env0 add_apple_10 None)
             (Some parent4) db_unlinked).
    unfold texts_unique. simpl. constructor. }
  split; [vm_compute; reflexivity|]. split; [vm_compute; reflexivity|].
  destruct (content_texts_stay_unique ContentAdd env1 add_apple_10 None parent4
              (mkUser (of_ascii "Omar") RParent [] None []) db_apple
              (mkValidated CWord ([32%N] ++ apple ++ [32%N]) child10)
              eq_refl eq_refl) as (Hdup & _ & Hinv).
  destruct (content_texts_stay_unique ContentAdd env1 add_apple_11 None parent4
              (mkUser (of_ascii "Omar") RParent [] None []) db_apple
              (mkValidated CWord apple child11)
              eq_refl eq_refl) as (_ & Hnew & _).
  split; [|split; [|intros calls; by apply Hinv]].
  - apply Hdup. vm_compute. apply list_elem_of_here.
  - apply Hnew.
    + vm_compute. apply not_elem_of_nil.
    + discriminate.
    + eexists. vm_compute. reflexivity.
Defined.

(** C7, the failing input.  A word of 21 code units and a letter of 3: the
    two routes that validate the length answer 400 and store nothing; POST
    /api/words has no length validation and stores both. *)
Theorem words_post_accepts_overlong_text :
  length long_word = 21%nat ∧ length long_letter = 3%nat ∧
  content_add env0 add_long_word (Some specialist2) db_linked
    = (mkReply 400 MWordTooLong, db_linked) ∧
  portal_content_add env0 add_long_word (Some specialist2) db_linked
    = (mkReply 400 MWordTooLong, db_linked) ∧
  content_add env0 add_long_letter (Some specialist2) db_linked
    = (mkReply 400 MLetterNotSingle, db_linked) ∧
  portal_content_add env0 add_long_letter (Some specialist2) db_linked
    = (mkReply 400 MLetterWithVowelTooLong, db_linked) ∧
  (words_post env0 add_long_word None (Some specialist2) db_linked).1
    = mkReply 201 MWordCreated ∧
  target_texts (words_post env0 add_long_word None (Some specialist2) db_linked).2
    CWord child10 = [long_word] ∧
  (words_post env0 add_long_letter None (Some specialist2) db_linked).1
    = mkReply 201 MWordCreated ∧
  target_texts (words_post env0 add_long_letter None (Some specialist2) db_linked).2
    CLetter child10 = [long_letter].
Proof. repeat split; vm_compute; reflexivity. Qed.

(** C9, the failing input.  Child 10 is assigned to nobody and has one
    content item.  Anybody deletes it through the generic routes; the
    portal route, called by a specialist, does not answer 403: reading
    [assignedSpecialist] of the unassigned child throws and the answer is
    500. *)
Theorem portal_delete_of_unassigned_child_throws :
  (assignedSpecialist <$> children db_apple !! child10) = Some None ∧
  List.map ci_id <$> (contentWords <$> List.find (is_content_of child10) (exercises db_apple))
    = Some [item101] ∧
  portal_content_delete item101 (Some specialist2) db_apple
    = (mkReply 500 MServerError, db_apple) ∧
  (content_delete item101 (Some parent4) db_apple).1 = mkReply 200 MContentDeleted ∧
  target_texts (content_delete item101 (Some parent4) db_apple).2 CWord child10 = [] ∧
  (words_delete item101 (Some specialist3) db_apple).1 = mkReply 200 MWordDeleted ∧
  target_texts (words_delete item101 (Some specialist3) db_apple).2 CWord child10 = [] ∧
  portal_content_delete item101 (Some specialist3) db_linked_apple
    = (mkReply 403 MNotAuthorizedToDelete, db_linked_apple).
Proof. repeat split; vm_compute; reflexivity. Qed.

(** ** The deletion routes *)

Lemma update_first_split {A} (sel : A → bool) (f : A → A) l x :
  List.find sel l = Some x →
  ∃ l1 l2, l = l1 ++ x :: l2 ∧ update_first sel f l = l1 ++ f x :: l2 ∧
           Forall (λ y, sel y = false) l1.
Proof.
  induction l as [|y l IH]; [done|]. simpl. destruct (sel y) eqn:Hy.
  - intros [= ->]. by exists [], l.
  - intros Hfind. destruct (IH Hfind) as (l1 & l2 & -> & -> & Hl1).
    exists (y :: l1), l2. repeat split; try done. by constructor.
Qed.

Lemma has_item_pull_item contentId l : has_item contentId (pull_item contentId l) = false.
Proof.
  unfold has_item, pull_item. apply not_true_is_false. rewrite existsb_exists.
  intros (i & Hin & Hid). apply filter_In in Hin as [_ Hne].
  by rewrite Hid in Hne.
Qed.

(** The generic deletion routes ask nothing about the caller: for any
    authenticated user, an identifier no content document holds gives 404
    and no change; otherwise the first document that holds it is saved
    with the items of that identifier removed from both sub-collections,
    every other document is untouched, and the answer is 200. *)
Theorem generic_delete_is_unguarded contentId uid u db :
  users db !! uid = Some u →
  match List.find (holds_item contentId) (exercises db) with
  | None =>
      content_delete contentId (Some uid) db = (mkReply 404 MContentNotFound, db) ∧
      words_delete contentId (Some uid) db = (mkReply 404 MWordNotFound, db)
  | Some doc =>
      ∃ before after,
        exercises db = before ++ doc :: after ∧
        content_delete contentId (Some uid) db
          = (mkReply 200 MContentDeleted,
             with_exercises (λ _, before ++ remove_item contentId doc :: after) db) ∧
        words_delete contentId (Some uid) db
          = (mkReply 200 MWordDeleted,
             with_exercises (λ _, before ++ remove_item contentId doc :: after) db) ∧
        has_item contentId (contentWords (remove_item contentId doc)) = false ∧
        has_item contentId (contentLetters (remove_item contentId doc)) = false
  end.
Proof.
  intros Hu. unfold content_delete, words_delete.
  rewrite !(protected_user _ _ _ _ Hu). unfold generic_delete_handler.
  destruct (List.find (holds_item contentId) (exercises db)) as [doc|] eqn:Hfind; [|done].
  destruct (update_first_split _ (remove_item contentId) _ _ Hfind)
    as (before & after & Hl & Hup & _).
  exists before, after. unfold reply, with_exercises. rewrite Hup.
  repeat split; try done; apply has_item_pull_item.
Qed.

Lemma generic_delete_is_unguarded_witness :
  users db_apple !! specialist3 = Some (mkUser (of_ascii "Rana") RSpecialist [] None []) ∧
  ∃ before after,
    exercises db_apple
      = before ++ mkExercise 100%positive child10 KContent
                    [mkItem item101 apple DEasy default_image (Some parent4) (now env0)]
                    [] true :: after ∧
    content_delete item101 (Some specialist3) db_apple
      = (mkReply 200 MContentDeleted,
         with_exercises (λ _, before ++ mkExercise 100%positive child10 KContent [] [] true :: after)
           db_apple) ∧
    words_delete item101 (Some specialist3) db_apple
      = (mkReply 200 MWordDeleted,
         with_exercises (λ _, before ++ mkExercise 100%positive child10 KContent [] [] true :: after)
           db_apple) ∧
    has_item item101 [] = false ∧ has_item item101 [] = false.
Proof.
  split; [reflexivity|].
  exact (generic_delete_is_unguarded item101 specialist3 _ db_apple eq_refl).
Defined.

(** The portal deletion route answers 403 and changes nothing when the
    child that owns the content is missing or assigned to another
    specialist. *)
Theorem portal_delete_refuses_other_specialists contentId uid u db doc :
  users db !! uid = Some u →
  List.find (holds_item contentId) (exercises db) = Some doc →
  (children db !! e_child doc = None ∨
   ∃ c s, children db !! e_child doc = Some c ∧ assignedSpecialist c = Some s ∧ s ≠ uid) →
  portal_content_delete contentId (Some uid) db
    = (mkReply 403 MNotAuthorizedToDelete, db).
Proof.
  intros Hu Hfind Hchild. unfold portal_content_delete.
  rewrite (protected_user _ _ _ _ Hu). unfold portal_content_delete_handler.
  rewrite Hfind. unfold portal_check. simpl p_id.
  destruct Hchild as [-> | (c & s & -> & -> & Hne)]; [done|].
  by rewrite bool_decide_eq_false_2.
Qed.

Lemma portal_delete_refuses_other_specialists_witness :
  users db_linked_apple !! specialist3
    = Some (mkUser (of_ascii "Rana") RSpecialist [] None []) ∧
  portal_content_delete item101 (Some specialist3) db_linked_apple
    = (mkReply 403 MNotAuthorizedToDelete, db_linked_apple).
Proof.
  split; [reflexivity|].
  apply (portal_delete_refuses_other_specialists item101 specialist3
           (mkUser (of_ascii "Rana") RSpecialist [] None []) db_linked_apple
           (mkExercise 100%positive child10 KContent
              [mkItem item101 apple DEasy default_image (Some specialist2) (now env0)]
              [] true)); [reflexivity | reflexivity |].
  right. exists (mkChild (of_ascii "Ali") parent1 (Some specialist2) SApproved), specialist2.
  split; [reflexivity|]. split; [reflexivity | discriminate].
Defined.

(** ** Length validation *)

(** A request the content route or the portal route has validated carries
    the text of the body, of at most 20 code units for a word and at most 1
    (content route) or 2 (portal route) for a letter. *)
Theorem validated_text_lengths route body p db v limit :
  add_checks route body p db = inr v →
  length_limit route (v_type v) = Some limit →
  cb_text body = Some (v_text v) ∧ (length (v_text v) ≤ limit)%nat.
Proof.
  intros Hv Hlimit.
  assert (∀ n t text, too_long n t text = None →
            (length text ≤ match t with CLetter => n | CWord => 20 end)%nat) as Hlen.
  { intros n t text. unfold too_long. destruct t.
    - destruct (20 <? length text)%nat eqn:E; [done|]. intros _.
      apply Nat.ltb_ge in E. done.
    - destruct (n <? length text)%nat eqn:E; [done|]. intros _.
      apply Nat.ltb_ge in E. done. }
  assert (∀ o s, truthy o = Some s → o = Some s) as Htruthy.
  { intros [[|c s']|] s; simpl; congruence. }
  destruct route; simpl in Hv, Hlimit.
  - unfold content_add_checks in Hv.
    destruct (truthy (cb_text body)) as [text|] eqn:Ht; [|done].
    destruct (truthy (cb_contentType body)) as [ct|]; [|done].
    destruct (cb_childId body) as [childId|]; [|done].
    destruct (parse_contentType ct) as [t|]; [|done].
    destruct (bad_difficulty body); [done|].
    destruct (too_long 1 t text) eqn:Hlong; [done|].
    injection Hv as <-. simpl in *. split; [by apply Htruthy|].
    apply Hlen in Hlong. destruct t; injection Hlimit as <-; done.
  - unfold portal_content_add_checks in Hv.
    destruct (truthy (cb_text body)) as [text|] eqn:Ht; [|done].
    destruct (truthy (cb_contentType body)) as [ct|]; [|done].
    destruct (cb_childId body) as [childId|]; [|done].
    destruct (parse_contentType ct) as [t|]; [|done].
    destruct (portal_check childId p MNotAuthorizedToAdd db); [done|].
    destruct (bad_difficulty body); [done|].
    destruct (too_long 2 t text) eqn:Hlong; [done|].
    injection Hv as <-. simpl in *. split; [by apply Htruthy|].
    apply Hlen in Hlong. destruct t; injection Hlimit as <-; done.
  - done.
Qed.

Lemma validated_text_lengths_witness :
  add_checks PortalContentAdd add_apple_10 (mkPrincipal specialist2 RSpecialist) db_linked
    = inr (mkValidated CWord ([32%N] ++ apple ++ [32%N]) child10) ∧
  cb_text add_apple_10 = Some ([32%N] ++ apple ++ [32%N]) ∧
  (length ([32%N] ++ apple ++ [32%N]) ≤ 20)%nat.
Proof.
  split; [reflexivity|].
  exact (validated_text_lengths PortalContentAdd add_apple_10
           (mkPrincipal specialist2 RSpecialist) db_linked
           (mkValidated CWord ([32%N] ++ apple ++ [32%N]) child10) 20%nat
           eq_refl eq_refl).
Defined.

(** * Further properties *)

(** ** The life of a link request *)

Lemma behind_preserves {R} (P : R → Prop) roles deny (h : Principal → R) token db :
  (∀ a, P (deny a)) → (∀ p, is_Some (users db !! p_id p) → P (h p)) →
  P (behind roles deny h token db).
Proof.
  intros Hd Hh. unfold behind, protect_answer.
  destruct token as [uid|]; [|apply Hd].
  destruct (users db !! uid) as [u|] eqn:Hu; [|apply Hd].
  assert (is_Some (users db !! p_id (mkPrincipal uid (u_role u)))) as Hp
    by (simpl; by rewrite Hu).
  destruct roles as [rs|]; [|by apply Hh].
  destruct (authorize_answer rs _); [apply Hd | by apply Hh].
Qed.

Lemma behind_user {R} roles deny (h : Principal → R) uid u db :
  users db !! uid = Some u →
  match roles with Some rs => u_role u ∈ rs | None => True end →
  behind roles deny h (Some uid) db = h (mkPrincipal uid (u_role u)).
Proof.
  intros Hu Hr. unfold behind, protect_answer. rewrite Hu.
  destruct roles as [rs|]; [|done]. unfold authorize_answer. simpl.
  by rewrite bool_decide_eq_true_2.
Qed.

Lemma request_step_refl c db k : request_step c db db k.
Proof. by left. Qed.

Lemma request_step_same c db db' k :
  linkRequests db' = linkRequests db → request_step c db db' k.
Proof. intros H. left. by rewrite H. Qed.

Lemma linkage_routes_keep_requests c token db :
  match c with
  | CallAcceptChild _ | CallRejectChild _ | CallLinkParent _ | CallUnlinkParent _
  | CallRequestSpecialist _ | CallUnlinkSpecialist =>
      linkRequests (run_linkage c token db).2 = linkRequests db
  | _ => True
  end.
Proof.
  destruct c; try done; simpl;
    [unfold accept_child | unfold reject_child | unfold link_parent | unfold unlink_parent
     | unfold request_specialist | unfold unlink_specialist];
    apply (authorized_preserves (λ d, linkRequests d = linkRequests db)); try done;
    intros p.
  - unfold accept_child_handler. destruct (children db !! childId); [|done].
    by destruct (negb _).
  - unfold reject_child_handler. by destruct (children db !! childId).
  - unfold link_parent_handler. destruct parentId as [parentId|]; [|done].
    destruct (users db !! parentId); [|done]. destruct (negb _); [done|].
    destruct (users db !! p_id p); [|done]. by destruct (bool_decide _).
  - unfold request_specialist_handler. destruct (children db !! childId); [|done].
    by destruct (negb _).
  - unfold unlink_specialist_handler. destruct (users db !! p_id p) as [parent|]; [|done].
    destruct (linkedSpecialist parent) as [s|]; [|done]. simpl.
    by destruct (List.map fst _).
Qed.

Lemma accept_link_request_step requestId p db k :
  request_step (ViaLinkage (CallAcceptLinkRequest requestId)) db
    (accept_link_request_handler requestId p db).2 k.
Proof.
  unfold accept_link_request_handler.
  destruct (linkRequests db !! requestId) as [request|] eqn:Hreq; [|by left].
  destruct (negb _); [by left|].
  case_bool_decide as Hst; simpl; [|by left].
  destruct (users db !! lr_from request) as [parent|]; [|by left].
  destruct (match linkedSpecialist parent with Some _ => _ | None => _ end); [by left|].
  cbv zeta. simpl.
  assert (linkRequests
            (match alter (set_linkedSpecialist (Some (p_id p))) (lr_from request)
                     (alter (upd_linkedParents (addToSet (lr_from request))) (p_id p)
                        (users db)) !! p_id p with
             | Some specialist =>
                 with_notifications
                   (λ l, l ++ [mkNotification (lr_from request) NSuccess
                                 (TxtLinkAccepted (u_name specialist))
                                 (DSpecialist (p_id p))])
                   (with_users
                      (findByIdAndUpdate (lr_from request)
                         (set_linkedSpecialist (Some (p_id p))))
                      (with_users
                         (findByIdAndUpdate (p_id p)
                            (upd_linkedParents (addToSet (lr_from request))))
                         (with_linkRequests
                            (insert requestId (set_lr_status LAccepted request)) db)))
             | None =>
                 with_users
                   (findByIdAndUpdate (lr_from request)
                      (set_linkedSpecialist (Some (p_id p))))
                   (with_users
                      (findByIdAndUpdate (p_id p)
                         (upd_linkedParents (addToSet (lr_from request))))
                      (with_linkRequests
                         (insert requestId (set_lr_status LAccepted request)) db))
             end)
          = <[requestId:=set_lr_status LAccepted request]> (linkRequests db)) as Hn.
  { by destruct (alter _ _ _ !! p_id p). }
  unfold request_step. simpl. unfold findByIdAndUpdate in *. rewrite Hn.
  rewrite lookup_updateMany.
  destruct (decide (k = requestId)) as [->|Hk].
  - right. left. exists request. rewrite lookup_insert_eq. simpl.
    unfold other_pending_from.
    rewrite (bool_decide_eq_true_2 (requestId = requestId)) by done.
    rewrite andb_false_r. repeat split; try done. right. by exists LAccepted.
  - rewrite lookup_insert_ne by done.
    destruct (linkRequests db !! k) as [r|] eqn:Hr; [|by left]. simpl.
    destruct (other_pending_from _ _ k r) eqn:Hsel; [|by left].
    right. left. exists r. unfold other_pending_from in Hsel.
    apply andb_true_iff in Hsel as [Hsel _]. apply andb_true_iff in Hsel as [_ Hp].
    apply bool_decide_eq_true in Hp. repeat split; try done. right. by exists LRejected.
Qed.

Lemma reject_link_request_step requestId p db k :
  request_step (ViaLinkage (CallRejectLinkRequest requestId)) db
    (reject_link_request_handler requestId p db).2 k.
Proof.
  unfold reject_link_request_handler.
  destruct (linkRequests db !! requestId) as [request|] eqn:Hreq; [|by left].
  destruct (negb _); [by left|].
  case_bool_decide as Hst; simpl; [|by left].
  unfold request_step. simpl.
  destruct (decide (k = requestId)) as [->|Hk].
  - right. left. exists request. rewrite lookup_insert_eq.
    repeat split; try done. right. by exists LRejected.
  - left. by rewrite lookup_insert_ne.
Qed.

Lemma send_link_request_step env body p db k :
  linkRequests db !! fresh env 0%nat = None →
  request_step (ViaLinkage (CallSendLinkRequest env body)) db
    (send_link_request_handler env body p db).2 k.
Proof.
  intros Hfresh. unfold send_link_request_handler.
  destruct (b_specialistId body) as [specialistId|]; [|by left].
  destruct (b_childId_opt body) as [childId|]; [|by left].
  destruct (users db !! specialistId) as [specialist|]; [|by left].
  destruct (negb _); [by left|].
  destruct (children db !! childId) as [child|]; [|by left].
  destruct (negb _); [by left|].
  destruct (bool_decide (is_Some _)); [by left|].
  destruct (existsb _ _) eqn:Hex; [by left|].
  cbv zeta. destruct (500 <? _)%nat; [by left|].
  unfold request_step. simpl.
  destruct (decide (k = fresh env 0%nat)) as [->|Hk].
  - right. right. split; [done|]. split; [done|]. rewrite lookup_insert_eq.
    eexists. split; [done|]. split; [done|].
    intros k2 r2 Hr2 Hst (Hf & Ht & Hc). simpl in *.
    assert (existsb (λ kd, same_pending (p_id p) specialistId childId kd.2)
              (map_to_list (linkRequests db)) = true) as Hyes; [|congruence].
    apply existsb_exists. exists (k2, r2). split.
    + apply list_elem_of_In, elem_of_map_to_list, Hr2.
    + simpl. unfold same_pending. by rewrite !bool_decide_eq_true_2.
  - left. by rewrite lookup_insert_ne.
Qed.

Lemma cancel_request_step requestId p db k :
  request_step (CallCancelRequest requestId) db
    (cancel_request_handler requestId db p).2 k.
Proof.
  unfold cancel_request_handler.
  destruct (linkRequests db !! requestId) as [request|] eqn:Hreq; [|by left].
  destruct (negb _); [by left|].
  case_bool_decide as Hst; simpl; [|by left].
  unfold request_step. simpl.
  destruct (decide (k = requestId)) as [->|Hk].
  - right. left. exists request. rewrite lookup_delete_eq. repeat split; try done. by left.
  - left. by rewrite lookup_delete_ne.
Qed.

(** Every call moves every stored request by one [request_step]. *)
Lemma run_request_step c token db k :
  fresh_for c db → request_step c db (run_request c token db) k.
Proof.
  intros Hfresh. destruct c as [c|requestId]; simpl.
  - pose proof (linkage_routes_keep_requests c token db) as Hkeep.
    destruct c; try (apply request_step_same, Hkeep); simpl.
    + unfold accept_link_request.
      apply (authorized_preserves (λ d, request_step _ db d k)); [by left|].
      intros p. apply accept_link_request_step.
    + unfold reject_link_request.
      apply (authorized_preserves (λ d, request_step _ db d k)); [by left|].
      intros p. apply reject_link_request_step.
    + unfold send_link_request.
      apply (authorized_preserves (λ d, request_step _ db d k)); [by left|].
      intros p. by apply send_link_request_step.
  - unfold cancel_request.
    apply (behind_preserves (λ r, request_step _ db r.2 k)); [by left|].
    intros p _. apply cancel_request_step.
Qed.

Lemma filter_length_Permutation {A} (f : A → bool) (l l' : list A) :
  l ≡ₚ l' → length (List.filter f l) = length (List.filter f l').
Proof.
  induction 1 as [|x l l' _ IH|x y l|l l' l'' _ IH1 _ IH2]; simpl.
  - done.
  - destruct (f x); simpl; by rewrite IH.
  - by destruct (f x), (f y).
  - by rewrite IH1.
Qed.

Lemma countDocuments_insert {A} sel (m : gmap ObjectId A) k d :
  m !! k = None →
  countDocuments sel (<[k:=d]> m)
  = if sel k d then S (countDocuments sel m) else countDocuments sel m.
Proof.
  intros Hk. unfold countDocuments, find_docs.
  rewrite (filter_length_Permutation _ _ _ (documents_Permutation (<[k:=d]> m))).
  rewrite (filter_length_Permutation _ _ _ (map_to_list_insert m k d Hk)).
  rewrite (filter_length_Permutation _ _ _ (documents_Permutation m)).
  simpl. by destruct (sel k d).
Qed.

(** X6. A link request that is accepted or rejected is final: no call of a
    linkage route and no cancellation changes or removes it. *)
Theorem settled_requests_are_final c token db k r :
  fresh_for c db → linkRequests db !! k = Some r → lr_status r ≠ LPending →
  linkRequests (run_request c token db) !! k = Some r.
Proof.
  intros Hf Hr Hst.
  destruct (run_request_step c token db k Hf)
    as [H | [(r0 & Hr0 & Hp & _) | (_ & Hn & _)]].
  - by rewrite H.
  - congruence.
  - congruence.
Qed.

Lemma settled_requests_are_final_witness :
  linkRequests (run_request (CallCancelRequest request100) (Some parent1) db_accepted)
    !! request100
  = Some (mkLinkRequest parent1 specialist2 LAccepted (Some child10) []).
Proof.
  apply settled_requests_are_final; [exact I | vm_compute; reflexivity | simpl; discriminate].
Defined.

(** X7. The routes keep at most one pending request for a parent, a
    specialist and a child. *)
Theorem pending_requests_stay_unique c token db :
  fresh_for c db → pending_unique db → pending_unique (run_request c token db).
Proof.
  intros Hf Hu k1 k2 r1 r2 H1 H2 Hp1 Hp2 Hsame.
  assert (∀ k r0 rk, linkRequests db !! k = Some r0 → lr_status r0 = LPending →
            (linkRequests (run_request c token db) !! k = None ∨
             ∃ st, st ≠ LPending ∧
                   linkRequests (run_request c token db) !! k = Some (set_lr_status st r0)) →
            linkRequests (run_request c token db) !! k = Some rk →
            lr_status rk = LPending → False) as Hsettled.
  { intros k r0 rk _ _ [Hd | (st & Hst & Hs)] Hk Hpk; [congruence|].
    rewrite Hs in Hk. injection Hk as <-. by simpl in Hpk. }
  destruct (run_request_step c token db k1 Hf)
    as [E1 | [(r & Hr & Hrp & Hs) | (Hn1 & _ & r' & Hr' & _ & Hno1)]];
    [| by destruct (Hsettled k1 r r1) |];
    (destruct (run_request_step c token db k2 Hf)
      as [E2 | [(r & Hr & Hrp & Hs) | (Hn2 & _ & r'' & Hr'' & _ & Hno2)]];
     [| by destruct (Hsettled k2 r r2) |]).
  - rewrite E1 in H1. rewrite E2 in H2. by apply (Hu k1 k2 r1 r2).
  - rewrite E1 in H1. rewrite H2 in Hr''. injection Hr'' as <-.
    by destruct (Hno2 k1 r1).
  - rewrite E2 in H2. rewrite H1 in Hr'. injection Hr' as <-.
    destruct (Hno1 k2 r2); try done.
    destruct Hsame as (? & ? & ?). by repeat split.
  - congruence.
Qed.

(** The store holds two pending requests of parent 1.  The resend of one
    of them is refused and creates nothing; the request to another
    specialist for the same child is created; the acceptance settles both
    requests of the parent.  No two pending requests ever share sender,
    specialist and child. *)
Lemma pending_requests_stay_unique_witness :
  pending_unique db_requested ∧
  pending_unique
    (run_request
       (ViaLinkage (CallSendLinkRequest env3
          (mkLinkRequestBody (Some specialist2) (Some child10) None)))
       (Some parent1) db_requested) ∧
  pending_unique
    (run_request
       (ViaLinkage (CallSendLinkRequest env3
          (mkLinkRequestBody (Some specialist3) (Some child10) None)))
       (Some parent1) db_requested) ∧
  pending_unique
    (run_request (ViaLinkage (CallAcceptLinkRequest request100)) (Some specialist2)
       db_requested) ∧
  send_link_request env3 (mkLinkRequestBody (Some specialist2) (Some child10) None)
    (Some parent1) db_requested
  = (mkReply 400 MPendingRequestExists, db_requested) ∧
  List.map (λ kd, (kd.1, lr_to kd.2, lr_child kd.2, lr_status kd.2))
    (documents (linkRequests
       (run_request
          (ViaLinkage (CallSendLinkRequest env3
             (mkLinkRequestBody (Some specialist3) (Some child10) None)))
          (Some parent1) db_requested)))
  = [(request100, specialist2, Some child10, LPending);
     (request200, specialist3, Some child11, LPending);
     (300%positive, specialist3, Some child10, LPending)] ∧
  List.map (λ kd, (kd.1, lr_to kd.2, lr_child kd.2, lr_status kd.2))
    (documents (linkRequests
       (run_request (ViaLinkage (CallAcceptLinkRequest request100)) (Some specialist2)
          db_requested)))
  = [(request100, specialist2, Some child10, LAccepted);
     (request200, specialist3, Some child11, LRejected)].
Proof.
  assert (pending_unique db_requested) as Hrequested.
  { apply (pending_requests_stay_unique
             (ViaLinkage (CallSendLinkRequest env1
                (mkLinkRequestBody (Some specialist3) (Some child11) None)))
             (Some parent1)); [vm_compute; reflexivity|].
    apply (pending_requests_stay_unique
             (ViaLinkage (CallSendLinkRequest env0
                (mkLinkRequestBody (Some specialist2) (Some child10) None)))
             (Some parent1) db_unlinked); [vm_compute; reflexivity|].
    intros k1 k2 r1 r2 H1. simpl in H1. by rewrite lookup_empty in H1. }
  split; [exact Hrequested|]. split; [|split; [|split]].
  - apply pending_requests_stay_unique; [vm_compute; reflexivity | exact Hrequested].
  - apply pending_requests_stay_unique; [vm_compute; reflexivity | exact Hrequested].
  - apply pending_requests_stay_unique; [exact I | exact Hrequested].
  - repeat split; vm_compute; reflexivity.
Defined.

(** X8. Cancelling a request just sent removes the request but leaves the
    child waiting: the cancellation answers 200, the users, the link
    requests and every other collection are those before the request, and
    so are the children, except that the request status of the child of
    the request, which has no specialist, is pending. *)
Theorem send_then_cancel_leaves_child_pending env body parent db db1 :
  linkRequests db !! fresh env 0%nat = None →
  send_link_request env body (Some parent) db = (mkReply 201 MLinkRequestSent, db1) →
  ∃ childId child db2,
    b_childId_opt body = Some childId ∧ children db !! childId = Some child ∧
    cancel_request (fresh env 0%nat) (Some parent) db1
      = (mkAnswer 200 "Request cancelled successfully", db2) ∧
    linkRequests db2 = linkRequests db ∧ users db2 = users db ∧
    notifications db2 = notifications db ∧ exercises db2 = exercises db ∧
    progresses db2 = progresses db ∧ broadcasts db2 = broadcasts db ∧
    (∃ child', children db2 !! childId = Some child' ∧
               specialistRequestStatus child' = SPending ∧
               assignedSpecialist child' = None ∧
               c_name child' = c_name child ∧ c_parent child' = c_parent child) ∧
    (∀ k, k ≠ childId → children db2 !! k = children db !! k).
Proof.
  intros Hfresh. unfold send_link_request, authorized, protected, protect.
  destruct (users db !! parent) as [u|] eqn:Hu; [|discriminate].
  unfold authorize. simpl p_role. case_bool_decide as Hrole; [|discriminate].
  unfold send_link_request_handler. simpl p_id.
  destruct (b_specialistId body) as [specialistId|]; [|discriminate].
  destruct (b_childId_opt body) as [childId|] eqn:Hcid; [|discriminate].
  destruct (users db !! specialistId) as [specialist|]; [|discriminate].
  destruct (negb _); [discriminate|].
  destruct (children db !! childId) as [child|] eqn:Hchild; [|discriminate].
  destruct (negb _); [discriminate|].
  case_bool_decide as Hassigned; [discriminate|].
  destruct (existsb _ _); [discriminate|].
  cbv zeta. destruct (500 <? _)%nat; [discriminate|].
  unfold reply. intros [= <-]. exists childId, child.
  unfold cancel_request. rewrite (behind_user _ _ _ parent u); [|done|done].
  unfold cancel_request_handler. simpl. rewrite lookup_insert_eq. simpl.
  rewrite bool_decide_eq_true_2 by done. simpl.
  eexists. split; [done|]. split; [done|]. split; [reflexivity|]. simpl.
  split; [by apply delete_insert_id|]. repeat (split; [done|]). split.
  - rewrite lookup_insert_eq. eexists. split; [reflexivity|]. simpl.
    repeat split; try done. destruct (assignedSpecialist child); [|done].
    exfalso. apply Hassigned. by eexists.
  - intros k Hk. by rewrite lookup_insert_ne.
Qed.

Lemma send_then_cancel_leaves_child_pending_witness :
  (∃ childId child db2,
     Some child10 = Some childId ∧ children db_unlinked !! childId = Some child ∧
     cancel_request (fresh env0 0%nat) (Some parent1)
       (send_link_request env0 (mkLinkRequestBody (Some specialist2) (Some child10) None)
          (Some parent1) db_unlinked).2
       = (mkAnswer 200 "Request cancelled successfully", db2) ∧
     linkRequests db2 = linkRequests db_unlinked ∧ users db2 = users db_unlinked ∧
     notifications db2 = notifications db_unlinked ∧
     exercises db2 = exercises db_unlinked ∧
     progresses db2 = progresses db_unlinked ∧ broadcasts db2 = broadcasts db_unlinked ∧
     (∃ child', children db2 !! childId = Some child' ∧
                specialistRequestStatus child' = SPending ∧
                assignedSpecialist child' = None ∧
                c_name child' = c_name child ∧ c_parent child' = c_parent child) ∧
     (∀ k, k ≠ childId → children db2 !! k = children db_unlinked !! k)) ∧
  children db_unlinked !! child10 = Some (mkChild (of_ascii "Ali") parent1 None SNone) ∧
  children
    (cancel_request (fresh env0 0%nat) (Some parent1)
       (send_link_request env0 (mkLinkRequestBody (Some specialist2) (Some child10) None)
          (Some parent1) db_unlinked).2).2 !! child10
  = Some (mkChild (of_ascii "Ali") parent1 None SPending).
Proof.
  split.
  - apply (send_then_cancel_leaves_child_pending env0
             (mkLinkRequestBody (Some specialist2) (Some child10) None) parent1
             db_unlinked); vm_compute; reflexivity.
  - split; vm_compute; reflexivity.
Defined.

(** X9. The children a specialist sees on the list of pending requests are
    exactly the children whose acceptance succeeds for that specialist. *)
Theorem pending_children_are_the_acceptable_ones s su db childId :
  users db !! s = Some su → u_role su = RSpecialist →
  (∃ c, (childId, c) ∈ (pending_requests (Some s) db).2)
  ↔ code (accept_child childId (Some s) db).1 = 200.
Proof.
  intros Hs Hrole. unfold pending_requests, accept_child.
  rewrite (behind_user _ _ _ s su), (authorized_user _ _ s su); try done;
    try (rewrite Hrole; apply list_elem_of_here).
  simpl. unfold accept_child_handler. split.
  - intros (c & Hc). apply elem_of_find_docs in Hc as [Hc Hp]. rewrite Hc.
    unfold is_pending_child in Hp. by rewrite Hp.
  - destruct (children db !! childId) as [c|] eqn:Hc; [|discriminate].
    destruct (bool_decide (specialistRequestStatus c = SPending)) eqn:Hp; [|discriminate].
    intros _. exists c. by apply elem_of_find_docs.
Qed.

Lemma pending_children_are_the_acceptable_ones_witness :
  (∃ c, (child10, c) ∈ (pending_requests (Some specialist3) db_requested).2)
  ↔ code (accept_child child10 (Some specialist3) db_requested).1 = 200.
Proof.
  apply (pending_children_are_the_acceptable_ones specialist3
           (mkUser (of_ascii "Rana") RSpecialist [] None [])); reflexivity.
Defined.

(** X10. Once a specialist has accepted a child, the child is on the list of
    that specialist's children and on no other specialist's. *)
Theorem accepted_child_is_listed_for_its_specialist s db db' childId t tu :
  accept_child childId (Some s) db = (mkReply 200 MChildAccepted, db') →
  users db !! t = Some tu → u_role tu = RSpecialist →
  (∃ c, (childId, c) ∈ (my_children (Some t) db').2) ↔ t = s.
Proof.
  unfold accept_child, authorized, protected, protect.
  destruct (users db !! s) as [su|] eqn:Hs; [|discriminate].
  destruct (authorize _ _); [|discriminate].
  unfold accept_child_handler. simpl p_id.
  destruct (children db !! childId) as [child|] eqn:Hchild; [|discriminate].
  destruct (negb _); [discriminate|].
  unfold reply. intros [= <-] Ht Hrole.
  assert (∃ tu', users (with_users
                   (findByIdAndUpdate s (upd_assignedChildren (addToSet childId)))
                   (with_children
                      (insert childId (set_assignment (Some s) SApproved child)) db))
                 !! t = Some tu' ∧ u_role tu' = RSpecialist) as (tu' & Ht' & Hrole').
  { simpl. unfold findByIdAndUpdate. rewrite lookup_alter.
    destruct (decide (s = t)) as [->|_]; [|by exists tu].
    rewrite Ht. by eexists. }
  unfold my_children. rewrite (behind_user _ _ _ t tu' _ Ht');
    [|rewrite Hrole'; apply list_elem_of_here].
  simpl. split.
  - intros (c & Hc). apply elem_of_find_docs in Hc as [Hc Hsel]. simpl in Hc.
    rewrite lookup_insert_eq in Hc. injection Hc as <-.
    unfold assigned_to in Hsel. simpl in Hsel. apply bool_decide_eq_true in Hsel.
    congruence.
  - intros ->. eexists. apply elem_of_find_docs. simpl. rewrite lookup_insert_eq.
    split; [done|]. unfold assigned_to. simpl. by apply bool_decide_eq_true.
Qed.

Lemma accepted_child_is_listed_for_its_specialist_witness :
  (∃ c, (child10, c) ∈
          (my_children (Some specialist2)
             (accept_child child10 (Some specialist3) db_requested).2).2)
  ↔ specialist2 = specialist3.
Proof.
  apply (accepted_child_is_listed_for_its_specialist specialist3 db_requested _ child10
           specialist2 (mkUser (of_ascii "Sami") RSpecialist [] None []));
    reflexivity.
Defined.

(** X11. After a specialist has accepted the link request of a parent, the
    parent's own query returns that specialist, whose list of parents holds
    the parent. *)
Theorem accepted_parent_sees_the_specialist s requestId db db' request parent :
  accept_link_request requestId (Some s) db = (mkReply 200 MLinkRequestAccepted, db') →
  linkRequests db !! requestId = Some request →
  users db !! lr_from request = Some parent → u_role parent = RParent →
  ∃ su, my_specialist (Some (lr_from request)) db' = (mkAnswer 200 "", Some (s, su)) ∧
        users db' !! s = Some su ∧ lr_from request ∈ linkedParents su.
Proof.
  unfold accept_link_request, authorized, protected, protect.
  destruct (users db !! s) as [su|] eqn:Hs; [|discriminate].
  unfold authorize. simpl p_role. case_bool_decide as Hsrole; [|discriminate].
  apply list_elem_of_singleton in Hsrole.
  unfold accept_link_request_handler. simpl p_id.
  intros H Hreq Hparent Hprole. rewrite Hreq, Hparent in H.
  destruct (negb _); [discriminate|].
  destruct (negb _); [discriminate|].
  destruct (match linkedSpecialist parent with Some _ => _ | None => _ end);
    [discriminate|].
  assert (lr_from request ≠ s) as Hne by (intros E; congruence).
  cbv zeta in H. simpl in H. unfold findByIdAndUpdate in H.
  rewrite lookup_alter_ne, lookup_alter_eq, Hs in H by done. simpl in H.
  unfold reply in H. injection H as <-.
  exists (upd_linkedParents (addToSet (lr_from request)) su).
  split; [|split].
  - unfold my_specialist.
    rewrite (behind_user _ _ _ (lr_from request) (set_linkedSpecialist (Some s) parent)).
    + unfold my_specialist_handler. simpl.
      rewrite lookup_alter_eq, lookup_alter_ne, Hparent by done. simpl.
      by rewrite lookup_alter_ne, lookup_alter_eq, Hs by done.
    + simpl. by rewrite lookup_alter_eq, lookup_alter_ne, Hparent by done.
    + simpl. rewrite Hprole. apply list_elem_of_here.
  - simpl. by rewrite lookup_alter_ne, lookup_alter_eq, Hs by done.
  - simpl. apply elem_of_addToSet. by left.
Qed.

Lemma accepted_parent_sees_the_specialist_witness :
  ∃ su, my_specialist (Some parent1) db_accepted = (mkAnswer 200 "", Some (specialist2, su)) ∧
        users db_accepted !! specialist2 = Some su ∧ parent1 ∈ linkedParents su.
Proof.
  apply (accepted_parent_sees_the_specialist specialist2 request100 db_requested db_accepted
           (mkLinkRequest parent1 specialist2 LPending (Some child10) [])
           (mkUser (of_ascii "Huda") RParent [] None []));
    vm_compute; reflexivity.
Defined.

(** X12. After a parent has unlinked the specialist, the parent's own query
    finds no specialist. *)
Theorem unlinked_parent_has_no_specialist parent db db' n :
  unlink_specialist (Some parent) db = (mkReply 200 (MUnlinked n), db') →
  my_specialist (Some parent) db' = (mkAnswer 404 "No specialist linked", None).
Proof.
  unfold unlink_specialist, authorized, protected, protect.
  destruct (users db !! parent) as [u|] eqn:Hu; [|discriminate].
  unfold authorize. simpl p_role. case_bool_decide as Hrole; [|discriminate].
  unfold unlink_specialist_handler. simpl p_id. rewrite Hu.
  destruct (linkedSpecialist u) as [s|] eqn:Hls; [|discriminate].
  cbv zeta. unfold reply. intros [= _ <-].
  match goal with |- my_specialist _ ?d = _ => set (db1 := d) end.
  assert (∃ u', users db1 !! parent = Some u' ∧ u_role u' = u_role u ∧
                linkedSpecialist u' = None) as (u' & Hu' & Hr' & Hl').
  { subst db1. change (users (with_notifications ?f ?d)) with (users d).
    rewrite detach_children_users. simpl. unfold findByIdAndUpdate.
    rewrite lookup_alter. destruct (decide (parent = s)) as [<-|Hne].
    - rewrite decide_True by done. rewrite lookup_insert_eq. simpl. by eexists.
    - rewrite decide_False by done. rewrite lookup_insert_eq. by eexists. }
  unfold my_specialist. rewrite (behind_user _ _ _ parent u' _ Hu'); [|by rewrite Hr'].
  unfold my_specialist_handler. simpl p_id. by rewrite Hu', Hl'.
Qed.

Lemma unlinked_parent_has_no_specialist_witness :
  my_specialist (Some parent1) (unlink_specialist (Some parent1) db_linked).2
  = (mkAnswer 404 "No specialist linked", None).
Proof.
  apply (unlinked_parent_has_no_specialist parent1 db_linked _ 2). vm_compute; reflexivity.
Defined.

(** X13. A request that was sent adds one to the count of pending requests
    of the specialist it is addressed to, and leaves every other count as it
    was. *)
Theorem sent_request_is_counted env body parent db db1 specialistId t :
  linkRequests db !! fresh env 0%nat = None →
  send_link_request env body (Some parent) db = (mkReply 201 MLinkRequestSent, db1) →
  b_specialistId body = Some specialistId →
  (pending_link_requests_count (Some t) db1).2
  = (λ n, if decide (t = specialistId) then S n else n)
      <$> (pending_link_requests_count (Some t) db).2.
Proof.
  intros Hfresh. unfold send_link_request, authorized, protected, protect.
  destruct (users db !! parent) as [u|] eqn:Hu; [|discriminate].
  destruct (authorize _ _); [|discriminate].
  unfold send_link_request_handler. simpl p_id.
  destruct (b_specialistId body) as [specialistId'|]; [|discriminate].
  destruct (b_childId_opt body) as [childId|]; [|discriminate].
  destruct (users db !! specialistId') as [specialist|]; [|discriminate].
  destruct (negb _); [discriminate|].
  destruct (children db !! childId) as [child|]; [|discriminate].
  destruct (negb _); [discriminate|].
  destruct (bool_decide (is_Some _)); [discriminate|].
  destruct (existsb _ _); [discriminate|].
  cbv zeta. destruct (500 <? _)%nat; [discriminate|].
  unfold reply. intros [= <-] [= ->].
  unfold pending_link_requests_count, behind, protect_answer. simpl.
  destruct (users db !! t) as [tu|]; [|done].
  destruct (authorize_answer _ _); [done|]. simpl. f_equal.
  rewrite countDocuments_insert by done. unfold pending_for. simpl.
  destruct (decide (t = specialistId)) as [->|Hne].
  - by rewrite bool_decide_eq_true_2.
  - rewrite bool_decide_eq_false_2; [done | congruence].
Qed.

Lemma sent_request_is_counted_witness :
  (pending_link_requests_count (Some specialist2)
     (send_link_request env0 (mkLinkRequestBody (Some specialist2) (Some child10) None)
        (Some parent1) db_unlinked).2).2
  = (λ n, if decide (specialist2 = specialist2) then S n else n)
      <$> (pending_link_requests_count (Some specialist2) db_unlinked).2.
Proof.
  apply (sent_request_is_counted env0
           (mkLinkRequestBody (Some specialist2) (Some child10) None) parent1 db_unlinked);
    vm_compute; reflexivity.
Defined.

(** ** Reading the progress *)







Lemma save_progress_keeps faults childId pr db db' :
  save_progress faults childId pr db = Some db' →
  users db' = users db ∧ children db' = children db ∧
  progresses db' = update_first (progress_of childId) (λ _, pr) (progresses db).
Proof. unfold save_progress. destruct (_ || _); [done|]. by intros [= <-]. Qed.

Lemma progress_sync_keeps_people env faults childId sessions token db :
  users (progress_sync env faults childId sessions token db).2 = users db ∧
  children (progress_sync env faults childId sessions token db).2 = children db.
Proof.
  unfold progress_sync.
  apply (protected_preserves (λ d, users d = users db ∧ children d = children db)); [done|].
  intros p. unfold progress_sync_handler.
  pose proof (load_or_create_cases env faults childId db) as Hcases.
  destruct (load_or_create_progress env faults childId db) as [[pr db1]|]; [|done].
  destruct Hcases as (_ & _ & _ & _ & Hu & Hc & _).
  destruct sessions as [new|]; [|done].
  destruct (save_progress _ _ _ db1) as [db2|] eqn:Hsave; [|done].
  apply save_progress_keeps in Hsave as (Hu2 & Hc2 & _). simpl.
  rewrite <- Hu, <- Hc, <- Hu2, <- Hc2.
  unfold emit_progress_updated, notify_parent.
  destruct (io_attached env), (notify_throws faults); simpl; try done;
    destruct (children db2 !! childId); try done;
    by destruct (List.find _ _).
Qed.

Lemma stranger_guard p child :
  stranger p child ↔
  (bool_decide (p_role p = RParent) && negb (bool_decide (c_parent child = p_id p)))
  || (bool_decide (p_role p = RSpecialist)
      && negb (bool_decide (assignedSpecialist child = Some (p_id p)))) = true.
Proof.
  unfold stranger. rewrite orb_true_iff, !andb_true_iff, !negb_true_iff,
    !bool_decide_eq_true, !bool_decide_eq_false. tauto.
Qed.

Lemma map_pr_child_update_first sel f l :
  (∀ pr, sel pr = true → pr_child (f pr) = pr_child pr) →
  List.map pr_child (update_first sel f l) = List.map pr_child l.
Proof.
  intros Hf. induction l as [|x l IH]; [done|]. simpl.
  destruct (sel x) eqn:Hx; simpl; [by rewrite Hf | by rewrite IH].
Qed.

Lemma one_progress_per_child_new db childId pr :
  List.find (progress_of childId) (progresses db) = None → pr_child pr = childId →
  one_progress_per_child db →
  one_progress_per_child (with_progresses (λ l, l ++ [pr]) db).
Proof.
  unfold one_progress_per_child. simpl. intros Hfind Hc Hnd.
  rewrite map_app. simpl. apply NoDup_app. split; [done|]. split.
  - intros c Hin Hc'. apply list_elem_of_singleton in Hc'. subst c.
    apply list_elem_of_In, in_map_iff in Hin as (x & Hx & Hin).
    apply (find_none _ _ Hfind) in Hin. unfold progress_of in Hin.
    apply bool_decide_eq_false in Hin. congruence.
  - apply NoDup_singleton.
Qed.

Lemma one_progress_per_child_load env faults childId db pr db1 :
  load_or_create_progress env faults childId db = Some (pr, db1) →
  one_progress_per_child db → one_progress_per_child db1.
Proof.
  unfold load_or_create_progress. destruct (findOne_throws faults); [done|].
  destruct (List.find _ _) eqn:Hfind; [by intros [= _ <-]|].
  destruct (create_throws faults); [done|]. intros [= _ <-].
  by apply (one_progress_per_child_new _ childId).
Qed.

Lemma one_progress_per_child_save faults childId pr db db' :
  pr_child pr = childId →
  save_progress faults childId pr db = Some db' →
  one_progress_per_child db → one_progress_per_child db'.
Proof.
  unfold one_progress_per_child. intros Hc Hsave H.
  apply save_progress_keeps in Hsave as (_ & _ & ->).
  rewrite map_pr_child_update_first; [done|].
  intros x Hx. apply bool_decide_eq_true in Hx. by rewrite Hx.
Qed.

Lemma loaded_then_appended_child env faults childId new db pr db1 :
  load_or_create_progress env faults childId db = Some (pr, db1) →
  pr_child (append_sessions env new pr) = childId.
Proof.
  intros Hload. pose proof (load_or_create_cases env faults childId db) as Hcases.
  rewrite Hload in Hcases. destruct Hcases as (_ & Hc & _).
  by destruct (append_sessions_spec env new pr) as [-> _].
Qed.

(** X14. The figures served after a sync are those of the sessions stored:
    when a sync has answered 200, the statistics route, for a caller who
    may read the child, answers 200 with statistics that are the rollup of
    the sessions the child had followed by the new ones as they are
    stored. *)
Theorem synced_stats_are_served env faults childId sessions token uid u child db :
  code (progress_sync env faults childId sessions token db).1 = 200 →
  users db !! uid = Some u → children db !! childId = Some child →
  ¬ stranger (mkPrincipal uid (u_role u)) child →
  ∃ new added st,
    sessions = Some new ∧ Forall2 (session_stored env) new added ∧
    progress_stats childId (Some uid) (progress_sync env faults childId sessions token db).2
    = (mkAnswer 200 "", Some st) ∧
    stats_are_fold st (stored_sessions db childId ++ added).
Proof.
  intros Hok Hu Hchild Hmay.
  destruct (progress_sync_keeps_people env faults childId sessions token db)
    as [Husers Hchildren].
  destruct (protected_200 _ _ _ Hok) as (caller & cu & -> & Hcaller).
  destruct (progress_sync_outcome env faults childId sessions caller cu db Hcaller)
    as (_ & _ & Happ & _).
  destruct (Happ Hok) as (new & -> & pr & added & Hfind & _ & Hadded & Hsessions & Hfold & _).
  exists new, added, (overallStats pr).
  split; [done|]. split; [done|]. split; [|by rewrite <- Hsessions].
  unfold progress_stats. rewrite (behind_user _ _ _ uid u); [|by rewrite Husers|done].
  unfold progress_stats_handler. rewrite Hchildren, Hchild, Hfind.
  rewrite stranger_guard in Hmay. apply not_true_is_false, orb_false_iff in Hmay as [-> ->].
  done.
Qed.

(** Child 10 has a session of 5 minutes with 3 attempts, 2 of them
    successful, and an average of 75.  Specialist 3 syncs two more: 6 and
    4 attempts, 4 and 3 successes, 12 minutes, averages of 80 and 90.  The
    parent then reads 3 sessions, 17 minutes, 13 attempts, a rate of
    9 / 13 * 100 and an average of 245 / 3. *)
Lemma synced_stats_are_served_witness :
  stored_sessions db_attempts child10
  = [mkSession (Some 1700000000000) (Some 5%float) (Some 3%float) (Some 2%float)
       (Some 1%float) (Some 75%float)
       (List.map (λ '(t, ok), mkAttempt (Some [1576%N]) None None None None None None None
                                 None None (Some ok) None (Some t))
          [(1000, true); (3000, false); (2000, true)])] ∧
  progress_stats child10 (Some parent1)
    (progress_sync env1 no_faults child10 (Some [session_a; session_b]) (Some specialist3)
       db_attempts).2
  = (mkAnswer 200 "", Some (mkStats 3 17 13 (9 / 13 * 100) (245 / 3))) ∧
  ∃ new added st,
    Some [session_a; session_b] = Some new ∧ Forall2 (session_stored env1) new added ∧
    progress_stats child10 (Some parent1)
      (progress_sync env1 no_faults child10 (Some [session_a; session_b])
         (Some specialist3) db_attempts).2
    = (mkAnswer 200 "", Some st) ∧
    stats_are_fold st (stored_sessions db_attempts child10 ++ added).
Proof.
  split; [reflexivity|]. split; [reflexivity|].
  apply (synced_stats_are_served env1 no_faults child10 (Some [session_a; session_b])
           (Some specialist3) parent1 (mkUser (of_ascii "Huda") RParent [] (Some specialist2) [])
           (mkChild (of_ascii "Ali") parent1 (Some specialist2) SApproved) db_attempts).
  - reflexivity.
  - reflexivity.
  - reflexivity.
  - rewrite stranger_guard. vm_compute. discriminate.
Defined.

(** X15. The three routes that read a child's progress refuse exactly the
    strangers: a parent other than the child's, or a specialist the child
    is not assigned to, gets 403 and nothing is created; anyone else is not
    refused. *)
Theorem progress_reads_refuse_strangers env childId q uid u child db :
  users db !! uid = Some u → children db !! childId = Some child →
  (stranger (mkPrincipal uid (u_role u)) child ↔
   progress_child env childId (Some uid) db = (mkAnswer 403 "Not authorized", None, db)) ∧
  (stranger (mkPrincipal uid (u_role u)) child ↔
   progress_stats childId (Some uid) db = (mkAnswer 403 "Not authorized", None)) ∧
  (stranger (mkPrincipal uid (u_role u)) child ↔
   progress_attempts childId q (Some uid) db = (mkReply 403 MNotAuthorized, [])).
Proof.
  intros Hu Hchild. rewrite stranger_guard.
  unfold progress_child, progress_stats, progress_attempts.
  rewrite (behind_user None _ (progress_child_handler env childId db) uid u db Hu I).
  rewrite (behind_user None _ (progress_stats_handler childId db) uid u db Hu I).
  rewrite (protect_user _ _ _ Hu).
  unfold progress_child_handler, progress_stats_handler, progress_attempts_handler.
  rewrite Hchild.
  destruct (bool_decide (_ = RParent) && _); simpl.
  { repeat split; done. }
  destruct (bool_decide (_ = RSpecialist) && _); simpl.
  { repeat split; done. }
  destruct (List.find _ _) as [pr|]; [destruct (sessions pr)|]; repeat split; done.
Qed.

Lemma progress_reads_refuse_strangers_witness :
  (stranger (mkPrincipal parent4 RParent)
     (mkChild (of_ascii "Ali") parent1 None SNone) ↔
   progress_child env0 child10 (Some parent4) db_unlinked
   = (mkAnswer 403 "Not authorized", None, db_unlinked)) ∧
  (stranger (mkPrincipal parent4 RParent)
     (mkChild (of_ascii "Ali") parent1 None SNone) ↔
   progress_stats child10 (Some parent4) db_unlinked
   = (mkAnswer 403 "Not authorized", None)) ∧
  (stranger (mkPrincipal parent4 RParent)
     (mkChild (of_ascii "Ali") parent1 None SNone) ↔
   progress_attempts child10 None (Some parent4) db_unlinked
   = (mkReply 403 MNotAuthorized, [])).
Proof.
  apply (progress_reads_refuse_strangers env0 child10 None parent4
           (mkUser (of_ascii "Omar") RParent [] None [])); reflexivity.
Defined.



(** X17. The routes that write progress documents never give a child a
    second one, whether the body of the request has sessions to append or
    not and whether the save goes through or not. *)
Theorem progress_documents_stay_unique c token db :
  one_progress_per_child db → one_progress_per_child (run_progress c token db).
Proof.
  intros H. destruct c as [env childId | env faults childId d | env faults childId new];
    simpl.
  - unfold progress_child.
    apply (behind_preserves (λ r, one_progress_per_child r.2)); [done|].
    intros p _. unfold progress_child_handler.
    destruct (children db !! childId); [|done].
    destruct (_ && _); [done|]. destruct (_ && _); [done|].
    destruct (List.find _ _) eqn:Hfind; [done|]. simpl.
    by apply (one_progress_per_child_new _ childId).
  - unfold progress_session. apply (protected_preserves one_progress_per_child); [done|].
    intros p. unfold progress_session_handler.
    destruct (load_or_create_progress env faults childId db) as [[pr db1]|] eqn:Hload;
      [|done].
    pose proof (one_progress_per_child_load _ _ _ _ _ _ Hload H) as H1.
    destruct d as [d|]; [|done].
    destruct (save_progress _ _ _ db1) as [db2|] eqn:Hsave; [|done]. simpl.
    apply (one_progress_per_child_save _ _ _ _ _
             (loaded_then_appended_child _ _ _ [d] _ _ _ Hload) Hsave H1).
  - unfold progress_sync. apply (protected_preserves one_progress_per_child); [done|].
    intros p. unfold progress_sync_handler.
    destruct (load_or_create_progress env faults childId db) as [[pr db1]|] eqn:Hload;
      [|done].
    pose proof (one_progress_per_child_load _ _ _ _ _ _ Hload H) as H1.
    destruct new as [new|]; [|done].
    destruct (save_progress _ _ _ db1) as [db2|] eqn:Hsave; [|done]. simpl.
    unfold one_progress_per_child. rewrite progresses_emit, progresses_notify_parent.
    apply (one_progress_per_child_save _ _ _ _ _
             (loaded_then_appended_child _ _ _ new _ _ _ Hload) Hsave H1).
Qed.

(** Child 10 has a progress document.  A second sync for the child, a
    request without sessions and a read of the progress leave it with that
    one document; a sync for child 11 adds the document of child 11. *)
Lemma progress_documents_stay_unique_witness :
  List.map pr_child (progresses db_attempts) = [child10] ∧
  one_progress_per_child
    (run_progress (CallProgressSync env1 no_faults child10 (Some [session_a]))
       (Some parent1) db_attempts) ∧
  List.map pr_child
    (progresses (run_progress (CallProgressSync env1 no_faults child10 (Some [session_a]))
                   (Some parent1) db_attempts)) = [child10] ∧
  List.map pr_child
    (progresses (run_progress (CallProgressSession env1 no_faults child10 None)
                   (Some parent1) db_attempts)) = [child10] ∧
  List.map pr_child
    (progresses (run_progress (CallProgressChild env1 child10)
                   (Some parent1) db_attempts)) = [child10] ∧
  List.map pr_child
    (progresses (run_progress (CallProgressSync env1 no_faults child11 (Some [session_b]))
                   (Some parent1) db_attempts)) = [child10; child11].
Proof.
  split; [reflexivity|]. split; [|repeat split; reflexivity].
  apply progress_documents_stay_unique. unfold one_progress_per_child.
  change (NoDup [child10]). apply NoDup_singleton.
Defined.

(** ** Reading the content *)

Lemma insert_by_desc_Permutation {A} (key : A → Z) x l : insert_by_desc key x l ≡ₚ x :: l.
Proof.
  induction l as [|y l IH]; simpl; [done|].
  destruct (key x <? key y); [|done]. rewrite IH. apply perm_swap.
Qed.

Lemma sort_by_desc_Permutation {A} (key : A → Z) l : sort_by_desc key l ≡ₚ l.
Proof.
  induction l as [|x l IH]; simpl; [done|].
  rewrite insert_by_desc_Permutation. by constructor.
Qed.

Lemma insert_by_desc_sorted {A} (key : A → Z) x l :
  StronglySorted (λ a b, key b ≤ key a) l →
  StronglySorted (λ a b, key b ≤ key a) (insert_by_desc key x l).
Proof.
  induction 1 as [|y l Hl IH Hy]; simpl.
  - repeat constructor.
  - destruct (key x <? key y) eqn:Hxy.
    + apply Z.ltb_lt in Hxy. constructor; [done|].
      apply Forall_forall. intros z Hz.
      rewrite insert_by_desc_Permutation in Hz.
      apply elem_of_cons in Hz as [-> | Hz]; [lia|].
      rewrite Forall_forall in Hy. by apply Hy.
    + apply Z.ltb_ge in Hxy. constructor; [by constructor|].
      constructor; [done|]. eapply Forall_impl; [exact Hy|]. simpl. lia.
Qed.

Lemma sort_by_desc_sorted {A} (key : A → Z) l :
  StronglySorted (λ a b, key b ≤ key a) (sort_by_desc key l).
Proof.
  induction l as [|x l IH]; simpl; [constructor|]. by apply insert_by_desc_sorted.
Qed.

Lemma elem_of_sort_by_desc {A} (key : A → Z) l x : x ∈ sort_by_desc key l ↔ x ∈ l.
Proof. by rewrite sort_by_desc_Permutation. Qed.

Lemma difficulty_name_parse d s : difficulty_name d = s ↔ parse_difficulty s = Some d.
Proof.
  unfold parse_difficulty. split.
  - intros <-. by destruct d.
  - repeat case_bool_decide; intros [= <-]; by subst.
Qed.

Lemma filter_true {A} (f : A → bool) l : (∀ x, f x = true) → List.filter f l = l.
Proof.
  intros H. induction l as [|x l IH]; [done|]. simpl. by rewrite H, IH.
Qed.

Lemma filter_false {A} (f : A → bool) l : (∀ x, f x = false) → List.filter f l = [].
Proof.
  intros H. induction l as [|x l IH]; [done|]. simpl. by rewrite H, IH.
Qed.

(** What a creation leaves in the store. *)
Lemma append_item_stores env t text difficulty image childId p created db db' :
  append_item env t text difficulty image childId p created db = (mkReply 201 created, db') →
  ∃ item, item ∈ stored_items t childId db' ∧ ci_text item = trim text ∧
          ci_createdBy item = Some (p_id p) ∧ ci_image item = image ∧
          ci_createdAt item = now env.
Proof.
  unfold append_item.
  destruct (getOrCreateContentDoc env childId db) as [doc db1] eqn:Hget.
  destruct (getOrCreateContentDoc_spec _ _ _ _ _ Hget) as (Hfind & _).
  destruct (existsb _ _); [discriminate|].
  destruct (parse_difficulty _) as [d|]; [|discriminate].
  simpl ci_text. rewrite trim_idempotent.
  destruct (trim text) as [|c s] eqn:Htrim; [discriminate|]. rewrite <- Htrim.
  unfold reply. intros [= <-].
  set (item := mkItem (fresh env 1%nat) (trim text) d image (Some (p_id p)) (now env)).
  exists item. split; [|done]. unfold stored_items. simpl.
  rewrite (find_update_first _ _ _ doc Hfind).
  - rewrite targetArr_push_item, bool_decide_eq_true_2 by done.
    apply elem_of_app. right. apply list_elem_of_here.
  - rewrite is_content_of_push_item. apply find_some in Hfind. tauto.
Qed.

Lemma find_content_document db childId doc :
  content_document db childId doc →
  List.find (is_content_of childId) (exercises db) = Some doc.
Proof.
  intros (before & after & -> & Hc & Hk & Hbefore).
  induction before as [|e before IH]; simpl.
  - by rewrite (proj2 (is_content_of_inv childId doc)).
  - destruct (is_content_of childId e) eqn:He.
    + apply is_content_of_inv in He. destruct (Hbefore e); [by left | done].
    + apply IH. intros e' He'. apply Hbefore. by right.
Qed.

(** X18. An item that one of the three creation routes has added (201) is
    on the listings of the child: with its trimmed text, its type, the
    child and the caller as creator, it is on the list of
    GET /api/content/child, on the list of its type under /api/content, and
    among the words or letters of GET /api/words/child, for any user who
    asks. *)
Theorem added_item_is_listed route env body file uid u db db' v reader :
  users db !! uid = Some u →
  add_checks route body (mkPrincipal uid (u_role u)) db = inr v →
  add_item route env body file (Some uid) db
    = (mkReply 201 (add_created route (v_type v)), db') →
  is_Some (users db' !! reader) →
  ∃ li, li_text li = trim (v_text v) ∧ li_contentType li = v_type v ∧
        li_child li = v_childId v ∧ li_createdBy li = Some uid ∧
        li ∈ (content_child (v_childId v) None None (Some reader) db').2 ∧
        li ∈ (content_of_type_child (v_type v) (v_childId v) None (Some reader) db').2 ∧
        li ∈ (let r := (words_child (v_childId v) None None (Some reader) db').2 in
              match v_type v with CWord => r.1 | CLetter => r.2 end).
Proof.
  intros Hu Hv Hadd [ru Hreader].
  rewrite (add_item_validated _ _ _ _ _ _ _ _ Hu Hv) in Hadd.
  apply append_item_stores in Hadd as (item & Hin & Htext & Hby & _).
  exists (asLegacyContentItem (v_type v) (v_childId v) item).
  repeat (split; [done|]).
  assert (∀ f, (∀ x, f x = true) →
            asLegacyContentItem (v_type v) (v_childId v) item
            ∈ List.map (asLegacyContentItem (v_type v) (v_childId v))
                (List.filter f (stored_items (v_type v) (v_childId v) db'))) as Hmem.
  { intros f Hf. rewrite filter_true by done.
    apply list_elem_of_In, in_map, list_elem_of_In, Hin. }
  unfold content_child, content_of_type_child, words_child.
  rewrite !(behind_user None _ _ reader ru db' Hreader I). simpl.
  split; [|split].
  - apply elem_of_sort_by_desc, elem_of_app.
    destruct (v_type v); [left | right]; by apply Hmem.
  - apply elem_of_sort_by_desc. by apply Hmem.
  - destruct (v_type v); apply elem_of_sort_by_desc; by apply Hmem.
Qed.

Lemma added_item_is_listed_witness :
  ∃ li, li_text li = trim ([32%N] ++ apple ++ [32%N]) ∧ li_contentType li = CWord ∧
        li_child li = child10 ∧ li_createdBy li = Some parent4 ∧
        li ∈ (content_child child10 None None (Some parent1) db_apple).2 ∧
        li ∈ (content_of_type_child CWord child10 None (Some parent1) db_apple).2 ∧
        li ∈ (let r := (words_child child10 None None (Some parent1) db_apple).2 in r.1).
Proof.
  apply (added_item_is_listed ContentAdd env0 add_apple_10 None parent4
           (mkUser (of_ascii "Omar") RParent [] None []) db_unlinked db_apple
           (mkValidated CWord ([32%N] ++ apple ++ [32%N]) child10) parent1).
  - reflexivity.
  - reflexivity.
  - reflexivity.
  - by eexists.
Defined.

(** X19. A difficulty that is not one of the three values is treated in
    opposite ways: GET /api/content/child ignores it and lists what it lists
    without the parameter, GET /api/words/child lists nothing. *)
Theorem unknown_difficulty_is_ignored_or_excludes childId ct d uid u db :
  users db !! uid = Some u → d ≠ [] → parse_difficulty d = None →
  content_child childId ct (Some d) (Some uid) db
    = content_child childId ct None (Some uid) db ∧
  words_child childId ct (Some d) (Some uid) db = (mkAnswer 200 "", ([], [])).
Proof.
  intros Hu Hd Hparse.
  assert (truthy (Some d) = Some d) as Htruthy by (by destruct d).
  assert (d ∉ [of_ascii "easy"; of_ascii "medium"; of_ascii "hard"]) as Hnotin.
  { intros Hin. unfold parse_difficulty in Hparse.
    repeat case_bool_decide; try done.
    apply elem_of_cons in Hin as [?|Hin]; [done|].
    apply elem_of_cons in Hin as [?|Hin]; [done|].
    by apply list_elem_of_singleton in Hin. }
  assert (∀ l, List.filter (difficultyFilter (Some d)) l
               = List.filter (difficultyFilter None) l) as Hignored.
  { intros l. rewrite !filter_true; [done | done |].
    intros x. unfold difficultyFilter. rewrite Htruthy.
    by rewrite bool_decide_eq_false_2. }
  assert (∀ l, List.filter (difficultyOk (Some d)) l = []) as Hnone.
  { intros l. apply filter_false. intros x. unfold difficultyOk. rewrite Htruthy.
    apply bool_decide_eq_false. intros Hname.
    apply difficulty_name_parse in Hname. congruence. }
  unfold content_child, words_child.
  rewrite !(behind_user None _ _ uid u db Hu I). split.
  - by rewrite !Hignored.
  - rewrite !Hnone. simpl. destruct (truthy ct); [|done].
    by repeat case_bool_decide.
Qed.

Lemma unknown_difficulty_is_ignored_or_excludes_witness :
  content_child child10 None (Some (of_ascii "tricky")) (Some parent1) db_apple
    = content_child child10 None None (Some parent1) db_apple ∧
  words_child child10 None (Some (of_ascii "tricky")) (Some parent1) db_apple
    = (mkAnswer 200 "", ([], [])).
Proof.
  apply (unknown_difficulty_is_ignored_or_excludes child10 None (of_ascii "tricky") parent1
           (mkUser (of_ascii "Huda") RParent [] None [])); [reflexivity | discriminate |].
  vm_compute. reflexivity.
Defined.

(** X20. Without parameters GET /api/content/child lists every item of the
    content document of the child once, the words and the letters, each
    with its identifier, text, type, difficulty, image, creator and date,
    and in the order of the dates, latest first. *)
Theorem content_listing_is_complete_and_latest_first childId uid u db doc :
  users db !! uid = Some u → content_document db childId doc →
  (content_child childId None None (Some uid) db).1 = mkAnswer 200 "" ∧
  (content_child childId None None (Some uid) db).2
    ≡ₚ List.map (shown_as CWord childId) (contentWords doc)
       ++ List.map (shown_as CLetter childId) (contentLetters doc) ∧
  newest_first (content_child childId None None (Some uid) db).2.
Proof.
  intros Hu Hdoc. apply find_content_document in Hdoc.
  unfold content_child. rewrite (behind_user None _ _ uid u db Hu I). simpl.
  split; [done|]. split; [|apply sort_by_desc_sorted].
  rewrite sort_by_desc_Permutation. unfold stored_items. rewrite Hdoc. simpl.
  by rewrite !filter_true.
Qed.

Lemma content_listing_is_complete_and_latest_first_witness :
  (∃ doc,
     content_document db_three_items child10 doc ∧
     List.map ci_id (contentWords doc) = [101%positive; 301%positive] ∧
     List.map ci_id (contentLetters doc) = [201%positive] ∧
     (content_child child10 None None (Some parent1) db_three_items).1 = mkAnswer 200 "" ∧
     (content_child child10 None None (Some parent1) db_three_items).2
       ≡ₚ List.map (shown_as CWord child10) (contentWords doc)
          ++ List.map (shown_as CLetter child10) (contentLetters doc) ∧
     newest_first (content_child child10 None None (Some parent1) db_three_items).2) ∧
  List.map (λ li, (li_id li, li_contentType li, li_text li, li_createdAt li))
    (content_child child10 None None (Some parent1) db_three_items).2
  = [(301%positive, CWord, of_ascii "kitab", 1700000003000);
     (201%positive, CLetter, [1576%N], 1700000001000);
     (101%positive, CWord, apple, 1700000000000)].
Proof.
  split; [|vm_compute; reflexivity].
  eexists. split; [|split; [|split]].
  - exists [], []. split; [vm_compute; reflexivity|]. split; [reflexivity|].
    split; [reflexivity|]. intros e He. by apply elem_of_nil in He.
  - reflexivity.
  - reflexivity.
  - apply (content_listing_is_complete_and_latest_first child10 parent1
             (mkUser (of_ascii "Huda") RParent [] None [])); [reflexivity|].
    exists [], []. split; [vm_compute; reflexivity|]. split; [reflexivity|].
    split; [reflexivity|]. intros e He. by apply elem_of_nil in He.
Defined.

(** ** Child profiles *)

(** X21. For a parent or a specialist, the children on the list of
    GET /api/children are exactly the children GET /api/children/:id
    returns to the caller. *)
Theorem listed_children_are_the_readable_ones uid u db id c :
  users db !! uid = Some u → u_role u = RParent ∨ u_role u = RSpecialist →
  (id, c) ∈ (children_list (Some uid) db).2
  ↔ child_get id (Some uid) db = (mkAnswer 200 "", Some c).
Proof.
  intros Hu Hrole. unfold children_list, child_get.
  rewrite !(behind_user None _ _ uid u db Hu I). unfold child_get_handler. simpl.
  destruct Hrole as [Hr | Hr]; rewrite Hr; simpl.
  - rewrite elem_of_find_docs. unfold child_of_parent. split.
    + intros [Hc Hp]. rewrite Hc. apply bool_decide_eq_true in Hp. rewrite Hp, Hu.
      rewrite (bool_decide_eq_true_2 (is_Some (Some u))) by done.
      by rewrite bool_decide_eq_true_2.
    + destruct (children db !! id) as [c'|]; [|discriminate].
      destruct (bool_decide (is_Some _)); simpl; [|discriminate].
      destruct (bool_decide (c_parent c' = uid)) eqn:Hp; [|discriminate].
      simpl. by intros [= <-].
  - rewrite elem_of_find_docs. unfold assigned_to. split.
    + intros [Hc Hp]. rewrite Hc. by rewrite Hp.
    + destruct (children db !! id) as [c'|]; [|discriminate].
      destruct (bool_decide (assignedSpecialist c' = Some uid)) eqn:Hp; [|discriminate].
      simpl. by intros [= <-].
Qed.

Lemma listed_children_are_the_readable_ones_witness :
  (child10, mkChild (of_ascii "Ali") parent1 (Some specialist2) SApproved)
    ∈ (children_list (Some specialist2) db_linked).2
  ↔ child_get child10 (Some specialist2) db_linked
    = (mkAnswer 200 "", Some (mkChild (of_ascii "Ali") parent1 (Some specialist2) SApproved)).
Proof.
  apply (listed_children_are_the_readable_ones specialist2
           (mkUser (of_ascii "Sami") RSpecialist [child10; child11] None [parent1]));
    [reflexivity | by right].
Defined.

(** X22. Deleting a child deletes the child document and nothing else: the
    users (and with them the list of children of the specialist), the
    progress documents, the content and the link requests stay as they
    were, while every route that reads the child answers 404 from then
    on. *)
Theorem deleted_child_leaves_its_records id uid db db' reader ru :
  child_delete id (Some uid) db = (mkAnswer 200 "Child deleted successfully", db') →
  users db !! reader = Some ru →
  children db' = delete id (children db) ∧
  users db' = users db ∧ progresses db' = progresses db ∧ exercises db' = exercises db ∧
  linkRequests db' = linkRequests db ∧
  child_get id (Some reader) db' = (mkAnswer 404 "Child not found", None) ∧
  progress_stats id (Some reader) db' = (mkAnswer 404 "Child not found", None) ∧
  (progress_attempts id None (Some reader) db').1 = mkReply 404 MChildNotFound.
Proof.
  unfold child_delete, behind, protect_answer.
  destruct (users db !! uid) as [u|]; [|discriminate].
  unfold authorize_answer. destruct (bool_decide _); [|discriminate].
  unfold child_delete_handler.
  destruct (children db !! id) as [child|]; [|discriminate].
  destruct (negb _); [discriminate|].
  intros [= <-] Hreader. simpl. repeat (split; [done|]).
  set (db' := with_children (delete id) db).
  assert (users db' !! reader = Some ru) as Hreader' by done.
  assert (children db' !! id = None) as Hgone by apply lookup_delete_eq.
  unfold child_get, progress_stats, progress_attempts.
  rewrite !(behind_user None _ _ reader ru db' Hreader' I).
  rewrite (protect_user reader ru db' Hreader').
  unfold child_get_handler, progress_stats_handler, progress_attempts_handler.
  by rewrite Hgone.
Qed.

Lemma deleted_child_leaves_its_records_witness :
  children (child_delete child10 (Some parent1) db_linked).2
    = delete child10 (children db_linked) ∧
  users (child_delete child10 (Some parent1) db_linked).2 = users db_linked ∧
  progresses (child_delete child10 (Some parent1) db_linked).2 = progresses db_linked ∧
  exercises (child_delete child10 (Some parent1) db_linked).2 = exercises db_linked ∧
  linkRequests (child_delete child10 (Some parent1) db_linked).2 = linkRequests db_linked ∧
  child_get child10 (Some specialist2) (child_delete child10 (Some parent1) db_linked).2
    = (mkAnswer 404 "Child not found", None) ∧
  progress_stats child10 (Some specialist2) (child_delete child10 (Some parent1) db_linked).2
    = (mkAnswer 404 "Child not found", None) ∧
  (progress_attempts child10 None (Some specialist2)
     (child_delete child10 (Some parent1) db_linked).2).1 = mkReply 404 MChildNotFound.
Proof.
  apply (deleted_child_leaves_its_records child10 parent1 db_linked _ specialist2
           (mkUser (of_ascii "Sami") RSpecialist [child10; child11] None [parent1]));
    reflexivity.
Defined.

(** ** Messages *)

Lemma lookup_deleteMany {A} (sel : A → bool) (m : gmap ObjectId A) k :
  deleteMany sel m !! k
  = match m !! k with
    | Some d => if sel d then None else Some d
    | None => None
    end.
Proof.
  unfold deleteMany. destruct (m !! k) as [d|] eqn:Hk.
  - destruct (sel d) eqn:Hd.
    + apply map_lookup_filter_None. right. intros d' Hk'. simpl. congruence.
    + apply map_lookup_filter_Some. by split.
  - apply map_lookup_filter_None. by left.
Qed.

Lemma message_handler_step c db ms uid role k m :
  fresh_message c ms → ms !! k = Some m →
  (message_handler c db ms (mkPrincipal uid role)).2 !! k = Some m ∨
  message_step uid m ((message_handler c db ms (mkPrincipal uid role)).2 !! k).
Proof.
  intros Hfresh Hk.
  destruct c as [env receiverId content | env qt userId | env messageId | messageId
                | messageId content | userId]; simpl in *.
  - unfold message_send_handler.
    destruct receiverId as [r|]; [|by left].
    destruct (truthy content) as [c|]; [|by left].
    destruct (users db !! r); [|by left].
    destruct (trim (trim c)); [by left|]. simpl. left.
    rewrite lookup_insert_ne; [done|]. congruence.
  - unfold conversation_open_handler.
    destruct (users db !! userId); [|by left]. destruct qt; [by left|]. simpl.
    rewrite lookup_updateMany, Hk. simpl.
    destruct (unread_from userId uid k m) eqn:Hsel; [|by left]. right.
    unfold unread_from in Hsel. simpl in Hsel.
    apply andb_true_iff in Hsel as [Hsel _]. apply andb_true_iff in Hsel as [_ Hr].
    apply bool_decide_eq_true in Hr. by repeat split.
  - unfold message_read_handler. simpl.
    destruct (decide (k = messageId)) as [->|Hne].
    + rewrite Hk. case_bool_decide as Hr; simpl; [|by left].
      destruct (m_content m) eqn:Hcontent; [by left|]. simpl.
      right. rewrite lookup_insert_eq. by repeat split.
    + destruct (ms !! messageId) as [m0|]; [|by left]. destruct (negb _); [by left|].
      destruct (m_content m0); [by left|]. simpl.
      left. by rewrite lookup_insert_ne.
  - unfold message_delete_handler. simpl.
    destruct (decide (k = messageId)) as [->|Hne].
    + rewrite Hk. case_bool_decide as Hs; simpl; [|by left].
      right. rewrite lookup_delete_eq. by left.
    + destruct (ms !! messageId); [|by left]. destruct (negb _); [by left|]. simpl.
      left. by rewrite lookup_delete_ne.
  - unfold message_edit_handler. simpl.
    destruct (truthy content) as [c|]; [|by left].
    destruct (decide (k = messageId)) as [->|Hne].
    + rewrite Hk. case_bool_decide as Hs; simpl; [|by left].
      destruct (trim (trim c)); [by left|]. simpl.
      right. rewrite lookup_insert_eq. simpl. repeat split; try done.
      intros [H | H]; done.
    + destruct (ms !! messageId); [|by left]. destruct (negb _); [by left|].
      destruct (trim (trim c)); [by left|]. simpl.
      left. by rewrite lookup_insert_ne.
  - unfold conversation_delete_handler. simpl. rewrite lookup_deleteMany, Hk.
    destruct (between uid userId m) eqn:Hb; [|by left]. right. simpl.
    unfold between in Hb. apply orb_true_iff in Hb as [Hb | Hb];
      apply andb_true_iff in Hb as [H1 H2];
      apply bool_decide_eq_true in H1; apply bool_decide_eq_true in H2; auto.
Qed.

(** X23. A stored message changes only at the hands of its two parties.
    Whatever route is called, by whomever: the message stays as it is, or
    the caller is an authenticated user and the sender, the receiver and
    the date are as before, the content differs only if the caller is the
    sender, the reading marks differ only if the caller is the receiver, a
    message that was read is still read, and the message is gone only if
    the caller is its sender or its receiver. *)
Theorem messages_change_only_by_their_parties c token db ms k m :
  fresh_message c ms → ms !! k = Some m →
  (run_message c token db ms).2 !! k = Some m ∨
  ∃ uid, token = Some uid ∧ is_Some (users db !! uid) ∧
         message_step uid m ((run_message c token db ms).2 !! k).
Proof.
  intros Hfresh Hk. unfold run_message, behind, protect_answer.
  destruct token as [uid|]; [|by left].
  destruct (users db !! uid) as [u|] eqn:Hu; [|by left].
  destruct (message_handler_step c db ms uid (u_role u) k m Hfresh Hk) as [H | H].
  - by left.
  - right. exists uid. by rewrite Hu.
Qed.

Lemma messages_change_only_by_their_parties_witness :
  (run_message (CallMessageEdit message300 (Some (of_ascii "bye"))) (Some specialist2)
     db_linked ms_hello).2 !! message300
  = Some (mkMessage parent1 specialist2 (of_ascii "hello") false None 1700000003000) ∨
  ∃ uid, Some specialist2 = Some uid ∧ is_Some (users db_linked !! uid) ∧
         message_step uid
           (mkMessage parent1 specialist2 (of_ascii "hello") false None 1700000003000)
           ((run_message (CallMessageEdit message300 (Some (of_ascii "bye")))
               (Some specialist2) db_linked ms_hello).2 !! message300).
Proof.
  apply messages_change_only_by_their_parties; [exact I | reflexivity].
Defined.

(** X24. A message that was sent counts as unread for its receiver: the
    receiver's count of unread messages is one more, every other user's is
    as before. *)
Theorem sent_message_is_unread env r content token db ms ms' t :
  ms !! fresh env 0%nat = None →
  run_message (CallMessageSend env (Some r) content) token db ms = (mkAnswer 201 "", ms') →
  (unread_count (Some t) db ms').2
  = (λ n, if decide (t = r) then S n else n) <$> (unread_count (Some t) db ms).2.
Proof.
  intros Hfresh. unfold run_message, behind, protect_answer.
  destruct token as [uid|]; [|discriminate].
  destruct (users db !! uid) as [u|]; [|discriminate]. simpl.
  unfold message_send_handler.
  destruct (truthy content) as [c|]; [|discriminate].
  destruct (users db !! r); [|discriminate].
  destruct (trim (trim c)) as [|x s]; [discriminate|].
  intros [= <-]. unfold unread_count, behind, protect_answer.
  destruct (users db !! t); [|done]. simpl. f_equal.
  rewrite countDocuments_insert by done. unfold unread_for. simpl.
  destruct (decide (t = r)) as [->|Hne].
  - by rewrite bool_decide_eq_true_2.
  - rewrite bool_decide_eq_false_2; [done | congruence].
Qed.

Lemma sent_message_is_unread_witness :
  (unread_count (Some specialist2) db_linked ms_hello).2
  = (λ n, if decide (specialist2 = specialist2) then S n else n)
      <$> (unread_count (Some specialist2) db_linked ∅).2.
Proof.
  apply (sent_message_is_unread env3 specialist2 (Some hello) (Some parent1) db_linked ∅);
    reflexivity.
Defined.

(** X25. Opening the conversation with a user marks what that user sent to
    the caller as read, and nothing else: afterwards every message from
    that user to the caller is read, and every other message is as it
    was. *)
Theorem opened_conversation_is_read env query_throws userId uid db ms ms' :
  run_message (CallConversationOpen env query_throws userId) (Some uid) db ms
    = (mkAnswer 200 "", ms') →
  (∀ k m, ms' !! k = Some m → m_sender m = userId → m_receiver m = uid →
          isRead m = true) ∧
  (∀ k m, ms !! k = Some m → ¬ (m_sender m = userId ∧ m_receiver m = uid) →
          ms' !! k = Some m).
Proof.
  unfold run_message, behind, protect_answer.
  destruct (users db !! uid) as [u|]; [|discriminate]. simpl.
  unfold conversation_open_handler.
  destruct (users db !! userId); [|discriminate].
  destruct query_throws; [discriminate|]. simpl. intros [= <-]. split.
  - intros k m. rewrite lookup_updateMany.
    destruct (ms !! k) as [m0|]; [|done]. simpl.
    destruct (unread_from userId uid k m0) eqn:Hsel.
    + by intros [= <-].
    + intros [= <-] Hs Hr. unfold unread_from in Hsel.
      rewrite !bool_decide_eq_true_2 in Hsel by done. simpl in Hsel.
      apply bool_decide_eq_false in Hsel. by destruct (isRead m0).
  - intros k m Hk Hnot. rewrite lookup_updateMany, Hk. simpl.
    destruct (unread_from userId uid k m) eqn:Hsel; [|done].
    unfold unread_from in Hsel.
    apply andb_true_iff in Hsel as [Hsel _]. apply andb_true_iff in Hsel as [Hs Hr].
    apply bool_decide_eq_true in Hs. apply bool_decide_eq_true in Hr. tauto.
Qed.

Lemma opened_conversation_is_read_witness :
  (∀ k m, (run_message (CallConversationOpen env0 false parent1) (Some specialist2)
             db_linked ms_hello).2 !! k = Some m →
          m_sender m = parent1 → m_receiver m = specialist2 → isRead m = true) ∧
  (∀ k m, ms_hello !! k = Some m → ¬ (m_sender m = parent1 ∧ m_receiver m = specialist2) →
          (run_message (CallConversationOpen env0 false parent1) (Some specialist2)
             db_linked ms_hello).2 !! k = Some m).
Proof.
  apply (opened_conversation_is_read env0 false parent1 specialist2 db_linked ms_hello).
  reflexivity.
Defined.

(** ** Device tokens *)

Lemma is_token_key uid t d : is_token uid t d = true ↔ token_key d = (uid, t).
Proof.
  unfold is_token, token_key. rewrite andb_true_iff, !bool_decide_eq_true.
  split; [by intros [-> ->] | by intros [= -> ->]].
Qed.

Lemma existsb_is_token uid t tokens :
  existsb (is_token uid t) tokens = true ↔ (uid, t) ∈ List.map token_key tokens.
Proof.
  rewrite existsb_exists, list_elem_of_In, in_map_iff. split.
  - intros (d & Hin & Hd). exists d. by apply is_token_key in Hd.
  - intros (d & Hd & Hin). exists d. by apply is_token_key in Hd.
Qed.

Lemma map_key_update_first sel platform t tokens :
  List.map token_key (update_first sel (seen platform t) tokens) = List.map token_key tokens.
Proof.
  induction tokens as [|d l IH]; [done|]. simpl.
  destruct (sel d); simpl; [done | by rewrite IH].
Qed.

Lemma elem_of_delete_first {A} (sel : A → bool) l x :
  x ∈ delete_first sel l → x ∈ l.
Proof.
  induction l as [|y l IH]; [done|]. simpl.
  destruct (sel y).
  - by right.
  - intros [-> | H]%elem_of_cons; [by left | right; by apply IH].
Qed.

Lemma tokens_unique_delete_first sel tokens :
  tokens_unique tokens → tokens_unique (delete_first sel tokens).
Proof.
  unfold tokens_unique. induction tokens as [|d l IH]; [done|]. simpl.
  intros [Hnotin Hnd]%NoDup_cons. destruct (sel d); [done|]. simpl.
  apply NoDup_cons. split; [|by apply IH].
  intros Hin. apply Hnotin.
  apply list_elem_of_In, in_map_iff in Hin as (x & Hx & Hin).
  apply list_elem_of_In, in_map_iff. exists x. split; [done|].
  by apply list_elem_of_In, (elem_of_delete_first sel), list_elem_of_In.
Qed.





Lemma register_unique env token platform tokens p :
  tokens_unique tokens →
  tokens_unique (device_token_register_handler env token platform tokens p).2.
Proof.
  intros Hu. unfold device_token_register_handler.
  destruct token as [token|]; [|done].
  destruct (trim token) as [|c s] eqn:Htrim; [done|]. rewrite <- Htrim.
  destruct (existsb _ _) eqn:Hex; simpl.
  - unfold tokens_unique. by rewrite map_key_update_first.
  - unfold tokens_unique. rewrite map_app. simpl. apply NoDup_app.
    split; [done|]. split; [|apply NoDup_singleton].
    intros k Hin Hk. apply list_elem_of_singleton in Hk. subst k.
    unfold token_key in Hin. simpl in Hin.
    apply existsb_is_token in Hin. congruence.
Qed.

(** X26. The two routes keep the device tokens unique: no user has two
    documents for one token, before or after any call. *)
Theorem device_tokens_stay_unique c auth db tokens :
  tokens_unique tokens → tokens_unique (run_device_token c auth db tokens).2.
Proof.
  intros Hu. destruct c as [env token platform | token]; simpl.
  - unfold device_token_register.
    apply (behind_preserves (λ r, tokens_unique r.2)); [done|].
    intros p _. by apply register_unique.
  - unfold device_token_unregister.
    apply (behind_preserves (λ r, tokens_unique r.2)); [done|].
    intros p _. unfold device_token_unregister_handler.
    destruct token as [token|]; [|done]. destruct (trim token); [done|].
    by apply tokens_unique_delete_first.
Qed.

(** Two users have registered the same token.  When the first registers
    it again, with blanks around it, its document is updated in place;
    when the second unregisters it, only the document of the second goes.
    No user ever has two documents for a token. *)
Lemma device_tokens_stay_unique_witness :
  tokens_unique tokens_two ∧
  tokens_unique
    (run_device_token (CallRegister env1 (Some (of_ascii "abc ")) (Some (of_ascii "web")))
       (Some parent1) db_linked tokens_two).2 ∧
  tokens_unique
    (run_device_token (CallUnregister (Some (of_ascii "abc"))) (Some specialist2) db_linked
       tokens_two).2 ∧
  tokens_two
  = [mkDeviceToken parent1 (of_ascii "abc") PIos 1700000000000;
     mkDeviceToken specialist2 (of_ascii "abc") PAndroid 1700000000000] ∧
  run_device_token (CallRegister env1 (Some (of_ascii "abc ")) (Some (of_ascii "web")))
    (Some parent1) db_linked tokens_two
  = (mkAnswer 200 "",
     [mkDeviceToken parent1 (of_ascii "abc") PWeb 1700000001000;
      mkDeviceToken specialist2 (of_ascii "abc") PAndroid 1700000000000]) ∧
  run_device_token (CallUnregister (Some (of_ascii "abc"))) (Some specialist2) db_linked
    tokens_two
  = (mkAnswer 200 "", [mkDeviceToken parent1 (of_ascii "abc") PIos 1700000000000]).
Proof.
  assert (tokens_unique tokens_two) as Htwo.
  { unfold tokens_two. apply device_tokens_stay_unique, device_tokens_stay_unique.
    unfold tokens_unique. simpl. constructor. }
  split; [exact Htwo|].
  split; [by apply device_tokens_stay_unique|].
  split; [by apply device_tokens_stay_unique|].
  repeat split; vm_compute; reflexivity.
Defined.



(** ** Sending mail *)

Lemma pow2_step a : 1 ≤ a → 2 ^ (a + 1 - 1) = 2 * 2 ^ (a - 1).
Proof.
  intros Ha. replace (a + 1 - 1) with (Z.succ (a - 1)) by lia.
  rewrite Z.pow_succ_r by lia. done.
Qed.

Lemma retry_loop_success sendMail retries delay k info n :
  ∀ attempt fuel,
    Z.of_nat n = k - attempt → 1 ≤ attempt → k ≤ retries →
    Z.of_nat fuel = retries - attempt + 1 →
    (∀ j, attempt ≤ j < k → ∃ e, sendMail j = Rejected e) →
    sendMail k = Delivered info →
    ∃ events, retry_loop sendMail retries delay attempt fuel = (Returned info, events) ∧
              sends events = k - attempt + 1 ∧
              waited events = delay * (2 ^ (k - 1) - 2 ^ (attempt - 1)).
Proof.
  induction n as [|n IH]; intros attempt fuel Hn Ha Hk Hfuel Hrej Hok.
  - assert (attempt = k) as -> by lia.
    destruct fuel as [|fuel]; [lia|]. simpl. rewrite Hok.
    eexists. split; [done|]. simpl. split; [lia|]. lia.
  - destruct fuel as [|fuel]; [lia|]. simpl.
    destruct (Hrej attempt) as [e He]; [lia|]. rewrite He.
    destruct (Z.eqb_spec attempt retries) as [->|Hne]; [lia|].
    destruct (IH (attempt + 1) fuel) as (events & Hloop & Hs & Hw); try lia; try done.
    { intros j Hj. apply Hrej. lia. }
    rewrite Hloop. eexists. split; [done|]. simpl. rewrite Hs, Hw.
    rewrite pow2_step by done. split; lia.
Qed.

Lemma retry_loop_failure sendMail retries delay err n :
  ∀ attempt fuel,
    Z.of_nat n = retries - attempt → 1 ≤ attempt →
    Z.of_nat fuel = retries - attempt + 1 →
    (∀ j, attempt ≤ j ≤ retries → sendMail j = Rejected (err j)) →
    ∃ events, retry_loop sendMail retries delay attempt fuel
              = (Threw retries (err retries), events) ∧
              sends events = retries - attempt + 1 ∧
              waited events = delay * (2 ^ (retries - 1) - 2 ^ (attempt - 1)).
Proof.
  induction n as [|n IH]; intros attempt fuel Hn Ha Hfuel Hrej.
  - assert (attempt = retries) as -> by lia.
    destruct fuel as [|fuel]; [lia|]. simpl. rewrite Hrej by lia.
    rewrite Z.eqb_refl. eexists. split; [done|]. simpl. split; lia.
  - destruct fuel as [|fuel]; [lia|]. simpl. rewrite Hrej by lia.
    destruct (Z.eqb_spec attempt retries) as [->|Hne]; [lia|].
    destruct (IH (attempt + 1) fuel) as (events & Hloop & Hs & Hw); try lia.
    { intros j Hj. apply Hrej. lia. }
    rewrite Hloop. eexists. split; [done|]. simpl. rewrite Hs, Hw.
    rewrite pow2_step by done. split; lia.
Qed.

(** X28. [sendWithRetry] stops at the first delivery: when attempt [k],
    within the allowed number, is the first that [sendMail] does not
    reject, the function resolves with its result after exactly [k] calls
    of [sendMail], having waited [delay * (2^(k-1) - 1)] milliseconds in
    all. *)
Theorem sendWithRetry_stops_at_first_delivery sendMail retries delay k info :
  1 ≤ k ≤ retries →
  (∀ j, 1 ≤ j < k → ∃ e, sendMail j = Rejected e) →
  sendMail k = Delivered info →
  ∃ events, sendWithRetry sendMail retries delay = (Returned info, events) ∧
            sends events = k ∧ waited events = delay * (2 ^ (k - 1) - 1).
Proof.
  intros Hk Hrej Hok. unfold sendWithRetry.
  destruct (retry_loop_success sendMail retries delay k info (Z.to_nat (k - 1)) 1
              (Z.to_nat retries)) as (events & Hloop & Hs & Hw); try lia; try done.
  exists events. split; [done|]. split; [lia|]. rewrite Hw. simpl. lia.
Qed.

Lemma sendWithRetry_stops_at_first_delivery_witness :
  ∃ events, sendWithRetry third_time_lucky 3 1000 = (Returned (of_ascii "id-1"), events) ∧
            sends events = 3 ∧ waited events = 1000 * (2 ^ (3 - 1) - 1).
Proof.
  apply (sendWithRetry_stops_at_first_delivery third_time_lucky 3 1000 3 (of_ascii "id-1")).
  - lia.
  - intros j Hj. exists (of_ascii "ETIMEDOUT"). unfold third_time_lucky.
    destruct (Z.ltb_spec j 3); [done | lia].
  - reflexivity.
Defined.

(** X29. When [sendMail] rejects every attempt, [sendWithRetry] gives up
    after [retries] calls with the error of the last one, having waited
    [delay * (2^(retries-1) - 1)] milliseconds - three seconds with the
    defaults; when [retries] is not positive it calls nothing, waits for
    nothing and resolves with [undefined] instead of rejecting. *)
Theorem sendWithRetry_gives_up sendMail retries delay err :
  (∀ j, 1 ≤ j ≤ retries → sendMail j = Rejected (err j)) →
  ∃ events,
    sendWithRetry sendMail retries delay
    = (if retries <=? 0 then ReturnedUndefined else Threw retries (err retries), events) ∧
    sends events = Z.max retries 0 ∧
    waited events = if retries <=? 0 then 0 else delay * (2 ^ (retries - 1) - 1).
Proof.
  intros Hrej. unfold sendWithRetry. destruct (Z.leb_spec retries 0) as [Hle | Hlt].
  - replace (Z.to_nat retries) with 0%nat by lia. simpl.
    eexists. split; [done|]. simpl. split; lia.
  - destruct (retry_loop_failure sendMail retries delay err (Z.to_nat (retries - 1)) 1
                (Z.to_nat retries)) as (events & Hloop & Hs & Hw); try lia; try done.
    exists events. split; [done|]. split; [lia|]. rewrite Hw. simpl. lia.
Qed.

Lemma sendWithRetry_gives_up_witness :
  ∃ events,
    sendWithRetry always_down 3 1000
    = (if 3 <=? 0 then ReturnedUndefined else Threw 3 (of_ascii "ECONNREFUSED"), events) ∧
    sends events = Z.max 3 0 ∧
    waited events = if 3 <=? 0 then 0 else 1000 * (2 ^ (3 - 1) - 1).
Proof.
  apply (sendWithRetry_gives_up always_down 3 1000 (λ _, of_ascii "ECONNREFUSED")).
  intros j _. reflexivity.
Defined.

(** ** Generated identifiers *)

Lemma digit_value_digit d :
  0 ≤ d < 10 → digit_value (Z.to_N (48 + d)) = Some d.
Proof.
  intros Hd. unfold digit_value.
  assert ((48 <=? Z.to_N (48 + d))%N = true) as -> by (apply N.leb_le; lia).
  assert ((Z.to_N (48 + d) <=? 57)%N = true) as -> by (apply N.leb_le; lia).
  simpl. f_equal. lia.
Qed.

(** Reading the digits back gives the number. *)
Lemma digits_prefix_decimal fuel :
  ∀ n seen rest, 0 ≤ n → (Z.to_nat n < fuel)%nat →
    digits_prefix 0 seen (decimal_digits fuel n ++ rest) = digits_prefix n true rest.
Proof.
  induction fuel as [|fuel IH]; intros n seen rest Hn Hfuel; [lia|]. simpl.
  destruct (Z.ltb_spec n 10) as [Hlt | Hge].
  - simpl. rewrite digit_value_digit by lia. f_equal; lia.
  - rewrite <- app_assoc. rewrite IH.
    + simpl. rewrite digit_value_digit by (apply Z.mod_pos_bound; lia).
      f_equal; pose proof (Z.div_mod n 10); lia.
    + apply Z.div_pos; lia.
    + assert (n / 10 < n) by (apply Z.div_lt; lia). lia.
Qed.

Lemma digits_prefix_zeros k seen s :
  ∃ seen', digits_prefix 0 seen (repeat 48%N k ++ s) = digits_prefix 0 seen' s.
Proof.
  revert seen. induction k as [|k IH]; intros seen; simpl; [by exists seen|].
  apply (IH true).
Qed.

Lemma padded_count_reads_back n :
  0 ≤ n → digits_prefix 0 false (padStart 4 48%N (String_of_count n)) = Some n.
Proof.
  intros Hn. unfold padStart, String_of_count.
  destruct (digits_prefix_zeros
              (4 - length (decimal_digits (S (Z.to_nat n)) n)) false
              (decimal_digits (S (Z.to_nat n)) n)) as [seen' ->].
  rewrite <- (app_nil_r (decimal_digits _ _)).
  rewrite digits_prefix_decimal by lia. done.
Qed.

Lemma padded_count_inj n n' :
  0 ≤ n → 0 ≤ n' →
  padStart 4 48%N (String_of_count n) = padStart 4 48%N (String_of_count n') → n = n'.
Proof.
  intros Hn Hn' Heq.
  pose proof (padded_count_reads_back n Hn) as H1.
  pose proof (padded_count_reads_back n' Hn') as H2.
  rewrite Heq, H2 in H1. by injection H1.
Qed.

Lemma generated_id_length prefix count :
  (length prefix + 5 ≤ length (generated_id prefix count))%nat.
Proof.
  unfold generated_id, padStart. rewrite !length_app, repeat_length. simpl. lia.
Qed.

(** X30. The pre-save hooks number the documents by the count they see:
    new users of a role other than superadmin, and new children, that
    come without an identifier get different identifiers from different
    counts, each the prefix of two letters, a dash and at least four
    characters; an identifier that was given is kept. *)
Theorem generated_ids_are_distinct role count count' given :
  0 ≤ count → 0 ≤ count' → role ≠ RSuperadmin → given ≠ [] →
  (staffId_on_save true None role count = staffId_on_save true None role count' →
   count = count') ∧
  (childId_on_save true None count = childId_on_save true None count' → count = count') ∧
  (∃ id, staffId_on_save true None role count = Some id ∧ (7 ≤ length id)%nat) ∧
  (∃ id, childId_on_save true None count = Some id ∧ (7 ≤ length id)%nat) ∧
  staffId_on_save true (Some given) role count = Some given ∧
  childId_on_save true (Some given) count = Some given.
Proof.
  intros Hc Hc' Hrole Hgiven. unfold staffId_on_save, childId_on_save.
  assert (truthy (Some given) = Some given) as -> by (by destruct given).
  simpl.
  split; [|split; [|split; [|split]]].
  - destruct role; simpl; try done; intros [= H]; apply padded_count_inj in H; lia.
  - intros [= H]. apply padded_count_inj in H; lia.
  - destruct role; simpl; try done; eexists; (split; [done|]);
      apply (generated_id_length [_; _]).
  - eexists. split; [done|]. apply (generated_id_length [_; _]).
  - by destruct (role_prefix role).
Qed.

(** The twelfth specialist and the twelfth child, and the ones after
    them. *)
Lemma generated_ids_are_distinct_witness :
  ((staffId_on_save true None RSpecialist 11 = staffId_on_save true None RSpecialist 12 →
    11 = 12) ∧
   (childId_on_save true None 11 = childId_on_save true None 12 → 11 = 12) ∧
   (∃ id, staffId_on_save true None RSpecialist 11 = Some id ∧ (7 ≤ length id)%nat) ∧
   (∃ id, childId_on_save true None 11 = Some id ∧ (7 ≤ length id)%nat) ∧
   staffId_on_save true (Some (of_ascii "SP-0007")) RSpecialist 11
     = Some (of_ascii "SP-0007") ∧
   childId_on_save true (Some (of_ascii "SP-0007")) 11 = Some (of_ascii "SP-0007")) ∧
  staffId_on_save true None RSpecialist 11 = Some (of_ascii "SP-0012") ∧
  staffId_on_save true None RSpecialist 12 = Some (of_ascii "SP-0013") ∧
  childId_on_save true None 11 = Some (of_ascii "CH-0012") ∧
  childId_on_save true None 12 = Some (of_ascii "CH-0013").
Proof.
  split; [|repeat split; reflexivity].
  apply generated_ids_are_distinct; [lia | lia | discriminate | discriminate].
Defined.
